(** * TendrlClient: queue, batching, connection state and offline replay

    A shallow embedding of [src/utils/TendrlClient.js] together with the
    part of [src/utils/IndexedDBStorage.js] it drives.

    Conventions of the embedding.
    - A JavaScript number that the code uses as a count, a capacity or an
      epoch time in milliseconds is a [Z]; a number used as a duration that
      the code divides is a [Q] (exact arithmetic: rounding of doubles is
      not modelled).
    - [new Date().toISOString()] is represented by the epoch milliseconds
      it renders.
    - An [async] method runs to completion in one step.  The points where
      other tasks could interleave are its [await]s; the queue is only
      ever touched by the synchronous [push] in [publish] and the
      synchronous [splice] in [getBatch].
    - [console] output under [debug] has no effect on the state and is
      left out.
    - IndexedDB requests succeed: the [onerror] paths of the storage
      adapter are not modelled. *)

From Stdlib Require Import ZArith QArith List Ascii String Bool Lia Lqa DecimalString.
Import ListNotations.

Open Scope string_scope.
Open Scope list_scope.
Open Scope Z_scope.

(** ** JSON values *)

#[warnings="-register-all"]
Inductive Json : Type :=
| JNull
| JBool (b : bool)
| JNum (q : Q)
| JStr (s : string)
| JArr (items : list Json)
| JObj (fields : list (string * Json)).

(** An argument as a JavaScript caller can pass it. *)
Inductive JsArg : Type :=
| Undefined
| Value (v : Json).

Fixpoint assoc (k : string) (fields : list (string * Json)) : option Json :=
  match fields with
  | [] => None
  | (k', v) :: rest => if String.eqb k k' then Some v else assoc k rest
  end.

(** Truthiness of a JSON value. *)
Definition truthy (v : Json) : bool :=
  match v with
  | JNull => false
  | JBool b => b
  | JNum q => negb (Qeq_bool q 0)
  | JStr s => negb (String.eqb s EmptyString)
  | JArr _ | JObj _ => true
  end.

(** ** Messages and offline records *)

Inductive MsgType : Type := Heartbeat | Publish.

Record Context : Type := mkContext {
  ctx_tags : option Json;
  ctx_wait : option bool
}.

Record Message : Type := mkMessage {
  msg_type : MsgType;
  data : Json;
  timestamp : Z;
  context : option Context;
  dest : option string
}.

(** [message.context || {}] followed by [.tags]. *)
Definition message_tags (m : Message) : option Json :=
  match context m with
  | Some c => ctx_tags c
  | None => None
  end.

Definition message_wait (m : Message) : option bool :=
  match context m with
  | Some c => ctx_wait c
  | None => None
  end.

Record OfflineRecord : Type := mkOfflineRecord {
  id : string;
  stored_data : string;
  stored_tags : option string;
  expires_at : Z
}.

(** ** The client object *)

Record TendrlClient : Type := mkClient {
  queue : list Message;
  maxQueueSize : Z;
  callback : bool;
  minBatchSize : Z;
  maxBatchSize : Z;
  minBatchInterval : Q;
  maxBatchInterval : Q;
  senderInterval : option Q;
  checkMsgLimit : Z;
  _lastMsgCheck : Z;
  _connectionState : bool;
  _lastConnectionCheck : Z;
  _lastCleanup : Z;
  _isRunning : bool;
  storage : bool
}.

Definition set_queue (q : list Message) (c : TendrlClient) : TendrlClient :=
  mkClient q (maxQueueSize c) (callback c) (minBatchSize c) (maxBatchSize c)
    (minBatchInterval c) (maxBatchInterval c) (senderInterval c)
    (checkMsgLimit c) (_lastMsgCheck c) (_connectionState c)
    (_lastConnectionCheck c) (_lastCleanup c) (_isRunning c) (storage c).

Definition set_senderInterval (t : option Q) (c : TendrlClient) : TendrlClient :=
  mkClient (queue c) (maxQueueSize c) (callback c) (minBatchSize c)
    (maxBatchSize c) (minBatchInterval c) (maxBatchInterval c) t
    (checkMsgLimit c) (_lastMsgCheck c) (_connectionState c)
    (_lastConnectionCheck c) (_lastCleanup c) (_isRunning c) (storage c).

Definition set_lastMsgCheck (t : Z) (c : TendrlClient) : TendrlClient :=
  mkClient (queue c) (maxQueueSize c) (callback c) (minBatchSize c)
    (maxBatchSize c) (minBatchInterval c) (maxBatchInterval c)
    (senderInterval c) (checkMsgLimit c) t (_connectionState c)
    (_lastConnectionCheck c) (_lastCleanup c) (_isRunning c) (storage c).

Definition set_connectionState (b : bool) (c : TendrlClient) : TendrlClient :=
  mkClient (queue c) (maxQueueSize c) (callback c) (minBatchSize c)
    (maxBatchSize c) (minBatchInterval c) (maxBatchInterval c)
    (senderInterval c) (checkMsgLimit c) (_lastMsgCheck c) b
    (_lastConnectionCheck c) (_lastCleanup c) (_isRunning c) (storage c).

Definition set_lastConnectionCheck (t : Z) (c : TendrlClient) : TendrlClient :=
  mkClient (queue c) (maxQueueSize c) (callback c) (minBatchSize c)
    (maxBatchSize c) (minBatchInterval c) (maxBatchInterval c)
    (senderInterval c) (checkMsgLimit c) (_lastMsgCheck c)
    (_connectionState c) t (_lastCleanup c) (_isRunning c) (storage c).

Definition set_lastCleanup (t : Z) (c : TendrlClient) : TendrlClient :=
  mkClient (queue c) (maxQueueSize c) (callback c) (minBatchSize c)
    (maxBatchSize c) (minBatchInterval c) (maxBatchInterval c)
    (senderInterval c) (checkMsgLimit c) (_lastMsgCheck c)
    (_connectionState c) (_lastConnectionCheck c) t (_isRunning c) (storage c).

(** The options object of the constructor, with its defaults. *)
Record Config : Type := mkConfig {
  cfg_minBatchSize : Z;
  cfg_maxBatchSize : Z;
  cfg_minBatchInterval : Q;
  cfg_maxBatchInterval : Q;
  cfg_callback : bool;
  cfg_maxQueueSize : Z;
  cfg_checkMsgLimit : Z;
  cfg_offlineStorage : bool
}.

Definition defaultConfig : Config :=
  mkConfig 10 100 100%Q 1000%Q false 1000 1 false.

Definition constructor (cfg : Config) : TendrlClient :=
  {| queue := [];
     maxQueueSize := cfg_maxQueueSize cfg;
     callback := cfg_callback cfg;
     minBatchSize := cfg_minBatchSize cfg;
     maxBatchSize := cfg_maxBatchSize cfg;
     minBatchInterval := cfg_minBatchInterval cfg;
     maxBatchInterval := cfg_maxBatchInterval cfg;
     senderInterval := None;
     checkMsgLimit := cfg_checkMsgLimit cfg;
     _lastMsgCheck := 0;
     _connectionState := true;
     _lastConnectionCheck := 0;
     _lastCleanup := 0;
     _isRunning := false;
     storage := cfg_offlineStorage cfg |}.

(** ** Batcher: the synchronous queue operations *)

(** [array.splice(0, deleteCount)]: the count is clamped to
    [0 .. length]; the removed prefix is returned, the rest stays. *)
Definition splice0 {A : Type} (deleteCount : Z) (l : list A) : list A * list A :=
  let n := Z.to_nat deleteCount in (firstn n l, skipn n l).

Definition getBatch (c : TendrlClient) : list Message * TendrlClient :=
  let batchSize := Z.min (Z.of_nat (List.length (queue c))) (maxBatchSize c) in
  let (removed, rest) := splice0 batchSize (queue c) in
  (removed, set_queue rest c).

(** The number of messages [getBatch] removes. *)
Definition batchCount (c : TendrlClient) : nat :=
  Z.to_nat (Z.min (Z.of_nat (List.length (queue c))) (maxBatchSize c)).

(** The guarded [this.queue.push(message)] of [publish]; the boolean
    tells whether the message was accepted. *)
Definition enqueue (m : Message) (c : TendrlClient) : bool * TendrlClient :=
  if Z.of_nat (List.length (queue c)) <? maxQueueSize c
  then (true, set_queue (queue c ++ [m]) c)
  else (false, c).

(** [(this.queue.length / this.maxQueueSize) * 100]; the quotient is the
    exact one, so the definition follows the code for
    [maxQueueSize <> 0] only: with a capacity of 0 the code divides by
    zero and its load is [NaN] (empty queue) or [Infinity], where the
    quotient of [Q] is 0.  What is proved of the interval is stated by
    load, or for a capacity other than 0. *)
Definition queueLoad (c : TendrlClient) : Q :=
  ((inject_Z (Z.of_nat (List.length (queue c))) / inject_Z (maxQueueSize c)) * 100)%Q.

Definition calculateBatchInterval (c : TendrlClient) : Q :=
  let queueLoad := queueLoad c in
  if Qlt_le_dec queueLoad 25 then minBatchInterval c
  else if Qlt_le_dec 75 queueLoad then maxBatchInterval c
  else (minBatchInterval c
        + ((maxBatchInterval c - minBatchInterval c) * queueLoad) / 100)%Q.

(** A run of queue operations, as the application ([enqueue]) and the
    sender ([getBatch]) interleave them.  It returns the batches taken,
    the messages accepted, both in order, and the final client. *)
Inductive QueueOp : Type :=
| Enqueue (m : Message)
| TakeBatch.

Fixpoint runQueueOps (ops : list QueueOp) (c : TendrlClient)
  : list (list Message) * list Message * TendrlClient :=
  match ops with
  | [] => ([], [], c)
  | Enqueue m :: ops' =>
      let (accepted, c1) := enqueue m c in
      let '(batches, enq, c2) := runQueueOps ops' c1 in
      (batches, (if accepted then [m] else []) ++ enq, c2)
  | TakeBatch :: ops' =>
      let (batch, c1) := getBatch c in
      let '(batches, enq, c2) := runQueueOps ops' c1 in
      (batch :: batches, enq, c2)
  end.

(** ** The world outside the client object *)

Inductive Request : Type :=
| PostMessage (m : Message)          (* POST /entities/message *)
| PostMessages (ms : list Message)   (* POST /entities/messages *)
| GetCheckMessages (limit : Z)       (* GET /entities/check_messages *)
| HeadStatus                         (* HEAD /entities/status *)
| PutStatus (online : bool).         (* PUT /entities/status *)

(** What [await fetch(...)] gives: a response with its status and its
    body as [response.json()] reads it ([None] when the body is not
    JSON), or a rejection (network failure, or the abort of the
    timeout). *)
Inductive HttpResult : Type :=
| Response (status : Z) (body : option Json)
| NetworkFailure
| Timeout.

(** The platform the client runs on.  The clock, the random source and
    the network are read in order: the k-th reading of each is given by
    a function of k.  [JSON.stringify], [JSON.parse] ([None] when it
    throws) and the coercing comparison [v > 0] of a value that is not a
    number are those of the JavaScript engine. *)
Record Platform : Type := mkPlatform {
  Date_now : nat -> Z;
  Math_random : nat -> string;
  fetch_result : nat -> Request -> HttpResult;
  JSON_stringify : Json -> string;
  JSON_parse : string -> option Json;
  coerced_gt_zero : Json -> bool
}.

Record World : Type := mkWorld {
  client : TendrlClient;
  db : list OfflineRecord;     (* the object store, in [expires_at] index order *)
  requests : list Request;     (* every request issued so far, oldest first *)
  delivered : list Json;       (* messages handed to the callback, oldest first *)
  clock_reads : nat;
  random_reads : nat
}.

Definition with_client (c : TendrlClient) (w : World) : World :=
  mkWorld c (db w) (requests w) (delivered w) (clock_reads w) (random_reads w).

Definition with_db (d : list OfflineRecord) (w : World) : World :=
  mkWorld (client w) d (requests w) (delivered w) (clock_reads w) (random_reads w).

Definition initialWorld (cfg : Config) : World :=
  mkWorld (constructor cfg) [] [] [] 0 0.

(** ** A monad for the methods: state, exceptions, platform *)

Inductive Completion (A : Type) : Type :=
| Normal (a : A)
| Throw (e : string).
Arguments Normal {A} a.
Arguments Throw {A} e.

Definition M (A : Type) : Type := Platform -> World -> Completion A * World.

Definition ret {A : Type} (a : A) : M A := fun _ w => (Normal a, w).

Definition bind {A B : Type} (m : M A) (k : A -> M B) : M B :=
  fun P w =>
    match m P w with
    | (Normal a, w') => k a P w'
    | (Throw e, w') => (Throw e, w')
    end.

Definition throw {A : Type} (e : string) : M A := fun _ w => (Throw e, w).

Declare Scope monad_scope.
Delimit Scope monad_scope with monad.
Notation "x <- m ;; k" := (bind m (fun x => k))
  (at level 61, m at next level, right associativity) : monad_scope.
Notation "m ;; k" := (bind m (fun _ => k))
  (at level 61, right associativity) : monad_scope.
Open Scope monad_scope.

Definition platform : M Platform := fun P w => (Normal P, w).

Definition getClient : M TendrlClient := fun _ w => (Normal (client w), w).

Definition modify (f : TendrlClient -> TendrlClient) : M unit :=
  fun _ w => (Normal tt, with_client (f (client w)) w).

Definition liftClient {A : Type} (f : TendrlClient -> A * TendrlClient) : M A :=
  fun _ w => let (a, c) := f (client w) in (Normal a, with_client c w).

Definition getDb : M (list OfflineRecord) := fun _ w => (Normal (db w), w).

Definition modifyDb (f : list OfflineRecord -> list OfflineRecord) : M unit :=
  fun _ w => (Normal tt, with_db (f (db w)) w).

(** [Date.now()] and [new Date()]. *)
Definition now : M Z :=
  fun P w =>
    (Normal (Date_now P (clock_reads w)),
     mkWorld (client w) (db w) (requests w) (delivered w)
       (S (clock_reads w)) (random_reads w)).

(** [Math.random().toString(36).substr(2, 9)]. *)
Definition random : M string :=
  fun P w =>
    (Normal (Math_random P (random_reads w)),
     mkWorld (client w) (db w) (requests w) (delivered w)
       (clock_reads w) (S (random_reads w))).

(** [await fetch(...)]. *)
Definition fetch (r : Request) : M HttpResult :=
  fun P w =>
    (Normal (fetch_result P (List.length (requests w)) r),
     mkWorld (client w) (db w) (requests w ++ [r]) (delivered w)
       (clock_reads w) (random_reads w)).

Definition deliver (m : Json) : M unit :=
  fun _ w =>
    (Normal tt,
     mkWorld (client w) (db w) (requests w) (delivered w ++ [m])
       (clock_reads w) (random_reads w)).

Definition string_of_Z (z : Z) : string := NilZero.string_of_int (Z.to_int z).

Definition Qltb (a b : Q) : bool := negb (Qle_bool b a).

(** ** IndexedDBStorage *)

(** Order of the [expires_at] index: by key, then by primary key. *)
Definition record_before (a b : OfflineRecord) : bool :=
  (expires_at a <? expires_at b)
  || ((expires_at a =? expires_at b) && String.ltb (id a) (id b)).

Fixpoint insert_record (r : OfflineRecord) (l : list OfflineRecord)
  : list OfflineRecord :=
  match l with
  | [] => [r]
  | x :: l' => if record_before r x then r :: l else x :: insert_record r l'
  end.

Definition delete_ids (msgIds : list string) (l : list OfflineRecord)
  : list OfflineRecord :=
  filter (fun r => negb (existsb (String.eqb (id r)) msgIds)) l.

(** [objectStore.put]: the key path is [id], so a record with the same
    id is replaced. *)
Definition db_put (r : OfflineRecord) (l : list OfflineRecord)
  : list OfflineRecord :=
  insert_record r (delete_ids [id r] l).

(** [IDBKeyRange.lowerBound(currentTime)] on [expires_at]. *)
Definition live (currentTime : Z) (r : OfflineRecord) : bool :=
  currentTime <=? expires_at r.

(** The record [store] puts: [{ id, data: JSON.stringify(data),
    tags: tags ? JSON.stringify(tags) : null, expires_at }]. *)
Definition makeRecord (P : Platform) (msgId : string) (d : Json)
    (tags : option Json) (expiresAt : Z) : OfflineRecord :=
  {| id := msgId;
     stored_data := JSON_stringify P d;
     stored_tags :=
       match tags with
       | Some v => if truthy v then Some (JSON_stringify P v) else None
       | None => None
       end;
     expires_at := expiresAt |}.

Definition store (msgId : string) (d : Json) (tags : option Json) (ttl : Z)
  : M unit :=
  P <- platform ;;
  t <- now ;;
  let expiresAt := t + ttl * 1000 in
  modifyDb (db_put (makeRecord P msgId d tags expiresAt)).

(** [limit] is [null] ([None]) by default; [!limit] also holds for 0. *)
Definition getAllMessages (limit : option Z) : M (list OfflineRecord) :=
  currentTime <- now ;;
  records <- getDb ;;
  let messages := filter (live currentTime) records in
  ret (match limit with
       | None => messages
       | Some n => if n =? 0 then messages else firstn (Z.to_nat n) messages
       end).

Definition deleteMessages (msgIds : list string) : M unit :=
  match msgIds with
  | [] => ret tt
  | _ => modifyDb (delete_ids msgIds)
  end.

Definition getMessageCount : M Z :=
  currentTime <- now ;;
  records <- getDb ;;
  ret (Z.of_nat (List.length (filter (live currentTime) records))).

(** [IDBKeyRange.upperBound(currentTime - 1)]. *)
Definition cleanupExpired : M Z :=
  currentTime <- now ;;
  records <- getDb ;;
  let expired := filter (fun r => expires_at r <=? currentTime - 1) records in
  modifyDb (filter (fun r => negb (expires_at r <=? currentTime - 1))) ;;
  ret (Z.of_nat (List.length expired)).

(** ** TendrlClient: publishing *)

(** [POST /entities/message]; the result is the message id the server
    reports ([result.content || result]) or [null]. *)
Definition _publishMessage (message : Message) : M Json :=
  r <- fetch (PostMessage message) ;;
  ret (match r with
       | Response status body =>
           if status =? 200 then
             match body with
             | None => JNull
             | Some JNull => JNull
             | Some (JObj fields) =>
                 match assoc "content" fields with
                 | Some v => if truthy v then v else JObj fields
                 | None => JObj fields
                 end
             | Some result => result
             end
           else JNull
       | NetworkFailure | Timeout => JNull
       end).

(** [POST /entities/messages]; [undefined], returned for an empty
    batch, is falsy at both call sites and is modelled as [false]. *)
Definition _publishMessages (messages : list Message) : M bool :=
  match messages with
  | [] => ret false
  | _ =>
      r <- fetch (PostMessages messages) ;;
      ret (match r with
           | Response status _ => (status =? 201) || (status =? 200)
           | NetworkFailure | Timeout => false
           end)
  end.

Record HeartbeatArgs : Type := mkHeartbeatArgs {
  mem_free : option Q;
  mem_total : option Q;
  disk_free : option Q;
  disk_size : option Q
}.

(** One [if (field !== undefined) { ... }] block of [sendHeartbeat]. *)
Definition heartbeatField (name : string) (field : option Q)
    (heartbeatData : list (string * Json)) : M (list (string * Json)) :=
  match field with
  | None => ret heartbeatData
  | Some q =>
      if Qltb q 0 then throw (name ++ " must be non-negative")%string
      else ret (heartbeatData ++ [(name, JNum q)])
  end.

Definition sendHeartbeat (args : HeartbeatArgs) : M Json :=
  d <- heartbeatField "mem_free" (mem_free args) [] ;;
  d <- heartbeatField "mem_total" (mem_total args) d ;;
  d <- heartbeatField "disk_free" (disk_free args) d ;;
  d <- heartbeatField "disk_size" (disk_size args) d ;;
  t <- now ;;
  let heartbeatMessage :=
    {| msg_type := Heartbeat;
       data := JObj d;
       timestamp := (t / 1000) * 1000;
       context := None;
       dest := None |} in
  _publishMessage heartbeatMessage.

Definition nonempty (s : string) : bool := negb (String.eqb s EmptyString).

Definition has_items {A : Type} (l : list A) : bool :=
  match l with [] => false | _ :: _ => true end.

(** The message object [publish] creates. *)
Definition makeMessage (d : Json) (t : Z) (tags : list Json) (entity : string)
    (waitResponse : bool) : Message :=
  {| msg_type := Publish;
     data := d;
     timestamp := t;
     context :=
       if has_items tags || waitResponse || nonempty entity
       then Some {| ctx_tags := if has_items tags then Some (JArr tags) else None;
                    ctx_wait := if waitResponse then Some true else None |}
       else None;
     dest := if nonempty entity then Some entity else None |}.

(** The block that [publish] (queue full) and [_storeBatchOffline] both
    contain: a fresh id, then [storage.store(msgId, message.data,
    context.tags || null, 3600)]. *)
Definition offlineId (t : Z) (r : string) : string :=
  ("offline_" ++ string_of_Z t ++ "_" ++ r)%string.

(** [context.tags || null]. *)
Definition tags_or_null (message : Message) : option Json :=
  match message_tags message with
  | Some v => if truthy v then Some v else None
  | None => None
  end.

Definition storeOffline (message : Message) : M unit :=
  t <- now ;;
  r <- random ;;
  let msgId := offlineId t r in
  store msgId (data message) (tags_or_null message) 3600.

Definition typeof (v : Json) : string :=
  match v with
  | JNull | JArr _ | JObj _ => "object"
  | JBool _ => "boolean"
  | JNum _ => "number"
  | JStr _ => "string"
  end.

(** The result is [undefined] ([None]) on the queued path and what
    [_publishMessage] resolves to when [waitResponse] is set. *)
Definition publish (msg : JsArg) (tags : list Json) (entity : string)
    (waitResponse : bool) : M (option Json) :=
  match msg with
  | Undefined | Value JNull => throw "Message cannot be null or undefined"
  | Value v =>
      d <- match v with
           | JStr _ => ret (JObj [("data", v)])
           | JArr _ | JObj _ => ret v
           | _ => throw ("Invalid message type: " ++ typeof v
                         ++ ". Expected string or object.")%string
           end ;;
      t <- now ;;
      let message := makeMessage d t tags entity waitResponse in
      if waitResponse then
        r <- _publishMessage message ;; ret (Some r)
      else
        accepted <- liftClient (enqueue message) ;;
        if accepted then ret None
        else
          c <- getClient ;;
          if storage c then storeOffline message ;; ret None
          else ret None
  end.

(** ** TendrlClient: message checking *)

Definition prop (k : string) (v : Json) : option Json :=
  match v with
  | JObj fields => assoc k fields
  | _ => None
  end.

Definition or_default (v : option Json) (d : Json) : Json :=
  match v with
  | Some x => if truthy x then x else d
  | None => d
  end.

Definition optional_field (k : string) (v : option Json) : list (string * Json) :=
  match v with
  | Some x => if truthy x then [(k, x)] else []
  | None => []
  end.

(** [None] when reading a property of [checkMsg] throws. *)
Definition transformCheckMessage (checkMsg : Json) : M (option Json) :=
  match checkMsg with
  | JNull => ret None
  | _ =>
      ts <- match prop "timestamp" checkMsg with
            | Some x =>
                if truthy x then ret x
                else (t <- now ;; ret (JNum (inject_Z t)))
            | None => (t <- now ;; ret (JNum (inject_Z t)))
            end ;;
      let message :=
        [("msg_type", or_default (prop "msg_type" checkMsg) (JStr "command"));
         ("data", or_default (prop "data" checkMsg) (JObj []));
         ("source", or_default (prop "source" checkMsg) (JStr EmptyString));
         ("timestamp", ts)] in
      let ctx :=
        match prop "tags" checkMsg with
        | Some (JArr (x :: l)) => [("context", JObj [("tags", JArr (x :: l))])]
        | _ => []
        end in
      ret (Some (JObj (message ++ ctx
                       ++ optional_field "dest" (prop "dest" checkMsg)
                       ++ optional_field "request_id" (prop "request_id" checkMsg))))
  end.

Fixpoint forEach {A : Type} (f : A -> M unit) (l : list A) : M unit :=
  match l with
  | [] => ret tt
  | x :: l' => f x ;; forEach f l'
  end.

Definition handleCheckMessagesResponse (messages : list Json) : M unit :=
  match messages with
  | [] => ret tt
  | _ =>
      c <- getClient ;;
      if negb (callback c) then ret tt
      else
        forEach (fun checkMsg =>
                   m <- transformCheckMessage checkMsg ;;
                   match m with
                   | Some message => deliver message
                   | None => ret tt
                   end) messages
  end.

Definition checkMessagesAPI (limit : Z) : M unit :=
  r <- fetch (GetCheckMessages limit) ;;
  match r with
  | Response status body =>
      if status =? 204 then ret tt
      else if negb (status =? 200) then ret tt
      else
        match body with
        | None | Some JNull => modify (set_connectionState false)
        | Some responseData =>
            match prop "messages" responseData with
            | Some (JArr (m :: ms)) => handleCheckMessagesResponse (m :: ms)
            | _ => ret tt
            end ;;
            t <- now ;;
            modify (set_lastMsgCheck t) ;;
            modify (set_connectionState true)
        end
  | NetworkFailure | Timeout => modify (set_connectionState false)
  end.

Definition checkMessages (limit : option Z) : M unit :=
  c <- getClient ;;
  checkMessagesAPI (match limit with Some n => n | None => checkMsgLimit c end).

(** ** TendrlClient: connection state *)

Definition checkConnectionState : M bool :=
  currentTime <- now ;;
  c <- getClient ;;
  if currentTime <? _lastConnectionCheck c + 30000 then ret (_connectionState c)
  else
    modify (set_lastConnectionCheck currentTime) ;;
    r <- fetch HeadStatus ;;
    modify (set_connectionState
              match r with
              | Response status _ => status <? 500
              | NetworkFailure | Timeout => false
              end) ;;
    c' <- getClient ;;
    ret (_connectionState c').

(** ** TendrlClient: offline storage and the sender *)

Definition _storeBatchOffline (messages : list Message) : M unit :=
  c <- getClient ;;
  if negb (storage c) || negb (has_items messages) then ret tt
  else forEach storeOffline messages.

(** [tags.length > 0] for a truthy [tags]. *)
Definition length_gt_zero (P : Platform) (tags : Json) : bool :=
  match tags with
  | JStr s => nonempty s
  | JArr items => has_items items
  | JObj fields =>
      match assoc "length" fields with
      | None | Some JNull => false
      | Some (JNum q) => Qltb 0 q
      | Some (JBool b) => b
      | Some v => coerced_gt_zero P v
      end
  | _ => false
  end.

(** The body of the [try] in the replay loop: [None] when one of the
    two [JSON.parse] calls throws. *)
Definition restoreMessage (storedMsg : OfflineRecord) : M (option Message) :=
  P <- platform ;;
  match JSON_parse P (stored_data storedMsg) with
  | None => ret None
  | Some d =>
      let parsedTags :=
        match stored_tags storedMsg with
        | Some s => if nonempty s then
                      match JSON_parse P s with
                      | Some v => Some (Some v)
                      | None => None
                      end
                    else Some None
        | None => Some None
        end in
      match parsedTags with
      | None => ret None
      | Some tags =>
          t <- now ;;
          ret (Some {| msg_type := Publish;
                       data := d;
                       timestamp := t;
                       context :=
                         match tags with
                         | Some v =>
                             if truthy v && length_gt_zero P v
                             then Some {| ctx_tags := Some v; ctx_wait := None |}
                             else None
                         | None => None
                         end;
                       dest := None |})
      end
  end.

(** The [for] loop over one page: the messages to send and the ids to
    delete; the id of a record is pushed whether it parsed or not. *)
Fixpoint convertStored (storedMessages : list OfflineRecord)
  : M (list Message * list string) :=
  match storedMessages with
  | [] => ret ([], [])
  | storedMsg :: rest =>
      r <- restoreMessage storedMsg ;;
      acc <- convertStored rest ;;
      ret (match r with
           | Some message => message :: fst acc
           | None => fst acc
           end,
           id storedMsg :: snd acc)
  end.

(** The [while (processed < totalCount)] loop.  Every iteration that
    does not [break] adds at least one to [processed], so
    [totalCount - processed] iterations always suffice
    (see [replayLoop_enough_fuel]). *)
Fixpoint replayLoop (fuel : nat) (totalCount processed : Z) : M Z :=
  match fuel with
  | O => ret processed
  | S fuel' =>
      if processed <? totalCount then
        storedMessages <- getAllMessages (Some 50) ;;
        match storedMessages with
        | [] => ret processed
        | _ =>
            acc <- convertStored storedMessages ;;
            let messagesToSend := fst acc in
            let messageIdsToDelete := snd acc in
            if has_items messagesToSend then
              success <- _publishMessages messagesToSend ;;
              if success then
                deleteMessages messageIdsToDelete ;;
                replayLoop fuel' totalCount
                  (processed + Z.of_nat (List.length messagesToSend))
              else ret processed
            else
              deleteMessages messageIdsToDelete ;;
              ret (processed + Z.of_nat (List.length messageIdsToDelete))
        end
      else ret processed
  end.

Definition processOfflineMessages : M unit :=
  c <- getClient ;;
  if negb (storage c) then ret tt
  else
    totalCount <- getMessageCount ;;
    if totalCount =? 0 then ret tt
    else replayLoop (Z.to_nat totalCount) totalCount 0 ;; ret tt.

(** [setInterval(callback, this.calculateBatchInterval())]: the timer
    handle is represented by the period the timer was created with. *)
Definition startSender : M unit :=
  c <- getClient ;;
  modify (set_senderInterval (Some (calculateBatchInterval c))).

Definition stopSender : M unit := modify (set_senderInterval None).

(** The callback [startSender] hands to [setInterval]: one tick. *)
Definition senderTick : M unit :=
  currentTime <- now ;;
  c <- getClient ;;
  (if _lastConnectionCheck c + 30000 <=? currentTime then
     let previousState := _connectionState c in
     checkConnectionState ;;
     modify (set_lastConnectionCheck currentTime) ;;
     c1 <- getClient ;;
     if negb previousState && _connectionState c1 && storage c1
     then processOfflineMessages
     else ret tt
   else ret tt) ;;
  c2 <- getClient ;;
  (if has_items (queue c2) then
     batch <- liftClient getBatch ;;
     if has_items batch then
       c3 <- getClient ;;
       if _connectionState c3 then
         success <- _publishMessages batch ;;
         c4 <- getClient ;;
         if negb success && storage c4 then _storeBatchOffline batch else ret tt
       else if storage c3 then _storeBatchOffline batch else ret tt
     else ret tt
   else ret tt) ;;
  c5 <- getClient ;;
  if storage c5 && (_lastCleanup c5 + 60000 <=? currentTime) then
    cleanupExpired ;;
    modify (set_lastCleanup currentTime)
  else ret tt.

(** Running a method from a world. *)
Definition run {A : Type} (m : M A) (P : Platform) (w : World) : Completion A * World :=
  m P w.

Definition exec {A : Type} (m : M A) (P : Platform) (w : World) : World :=
  snd (m P w).

Definition result {A : Type} (m : M A) (P : Platform) (w : World) : Completion A :=
  fst (m P w).

(** ** The client as a transition system *)

(** The capacity invariant of the queue. *)
Definition queueBounded (c : TendrlClient) : Prop :=
  Z.of_nat (List.length (queue c)) <= maxQueueSize c.

(** What can happen to a client: a call of a public method by the
    application, or a tick of the sender timer. *)
Inductive Event : Type :=
| CallPublish (msg : JsArg) (tags : list Json) (entity : string) (waitResponse : bool)
| CallSendHeartbeat (args : HeartbeatArgs)
| CallGetBatch
| CallCheckMessages (limit : option Z)
| CallCheckConnectionState
| CallProcessOfflineMessages
| CallStartSender
| CallStopSender
| SenderTick.

Definition step (e : Event) (P : Platform) (w : World) : World :=
  match e with
  | CallPublish msg tags entity waitResponse =>
      exec (publish msg tags entity waitResponse) P w
  | CallSendHeartbeat args => exec (sendHeartbeat args) P w
  | CallGetBatch => exec (liftClient getBatch) P w
  | CallCheckMessages limit => exec (checkMessages limit) P w
  | CallCheckConnectionState => exec checkConnectionState P w
  | CallProcessOfflineMessages => exec processOfflineMessages P w
  | CallStartSender => exec startSender P w
  | CallStopSender => exec stopSender P w
  | SenderTick => exec senderTick P w
  end.

Definition steps (es : list Event) (P : Platform) (w : World) : World :=
  fold_left (fun w e => step e P w) es w.

(** A message [publish] accepts: a string or an object, not [null]. *)
Definition validMessage (msg : JsArg) : bool :=
  match msg with
  | Value (JStr _) | Value (JArr _) | Value (JObj _) => true
  | _ => false
  end.

(** [message.data] as [publish] derives it from a valid argument. *)
Definition messageData (msg : JsArg) : Json :=
  match msg with
  | Value (JStr s) => JObj [("data", JStr s)]
  | Value v => v
  | Undefined => JNull
  end.

(** A predicate on the client that the bookkeeping assignments
    ([_connectionState], [_lastConnectionCheck], [_lastCleanup],
    [_lastMsgCheck]) and the two queue operations maintain. *)
Record Maintained (I : TendrlClient -> Prop) : Prop := mkMaintained {
  by_connectionState : forall b c, I c -> I (set_connectionState b c);
  by_lastConnectionCheck : forall t c, I c -> I (set_lastConnectionCheck t c);
  by_lastCleanup : forall t c, I c -> I (set_lastCleanup t c);
  by_lastMsgCheck : forall t c, I c -> I (set_lastMsgCheck t c);
  by_enqueue : forall m c, I c -> I (snd (enqueue m c));
  by_getBatch : forall c, I c -> I (snd (getBatch c))
}.
Arguments by_connectionState {I}.
Arguments by_lastConnectionCheck {I}.
Arguments by_lastCleanup {I}.
Arguments by_lastMsgCheck {I}.
Arguments by_enqueue {I}.
Arguments by_getBatch {I}.

(** [m] maintains the predicate [I] on the client. *)
Definition keeps {A : Type} (I : TendrlClient -> Prop) (m : M A) : Prop :=
  forall P w, I (client w) -> I (client (snd (m P w))).

(** The fields of a heartbeat argument, in the order they are checked. *)
Definition heartbeatFields (args : HeartbeatArgs) : list (string * option Q) :=
  [("mem_free", mem_free args); ("mem_total", mem_total args);
   ("disk_free", disk_free args); ("disk_size", disk_size args)].

(** The members of [heartbeatData] when every check passes: the
    provided fields, in order. *)
Definition providedFields (args : HeartbeatArgs) : list (string * Json) :=
  flat_map (fun f => match snd f with
                     | Some q => [(fst f, JNum q)]
                     | None => []
                     end) (heartbeatFields args).

Definition isProbe (r : Request) : bool :=
  match r with
  | HeadStatus => true
  | _ => false
  end.

(** The number of probes ([HEAD /entities/status]) issued so far. *)
Definition probeCount (w : World) : nat :=
  List.length (filter isProbe (requests w)).

(** The world after a probe at clock reading [t] that set the state to
    [reachable]. *)
Definition afterProbe (t : Z) (reachable : bool) (w : World) : World :=
  mkWorld (set_connectionState reachable (set_lastConnectionCheck t (client w)))
    (db w) (requests w ++ [HeadStatus]) (delivered w)
    (S (clock_reads w)) (random_reads w).

(** Events that neither create nor clear the sender timer. *)
Definition leavesTimer (e : Event) : bool :=
  match e with
  | CallStartSender | CallStopSender => false
  | _ => true
  end.

(** Whether both [JSON.parse] calls of the replay loop succeed on a
    record; a record on which one throws is a corrupted record. *)
Definition parses (P : Platform) (r : OfflineRecord) : bool :=
  match JSON_parse P (stored_data r) with
  | None => false
  | Some _ =>
      match stored_tags r with
      | Some s =>
          if nonempty s
          then match JSON_parse P s with Some _ => true | None => false end
          else true
      | None => true
      end
  end.

(** Whether [_publishMessages] reports success on a response. *)
Definition batchAccepted (r : HttpResult) : bool :=
  match r with
  | Response status _ => (status =? 201) || (status =? 200)
  | NetworkFailure | Timeout => false
  end.

(** The page the replay loop reads at clock reading [t]. *)
Definition replayPage (t : Z) (records : list OfflineRecord) : list OfflineRecord :=
  firstn 50 (filter (live t) records).

(** The world after [k] readings of the clock. *)
Definition afterClocks (k : nat) (w : World) : World :=
  mkWorld (client w) (db w) (requests w) (delivered w)
    (k + clock_reads w) (random_reads w).

(** The messages the replay loop builds from a page read in world [w]. *)
Definition pageMessages (P : Platform) (page : list OfflineRecord) (w : World)
  : list Message :=
  match convertStored page P w with
  | (Normal acc, _) => fst acc
  | (Throw _, _) => []
  end.

(** The world after a request has been issued. *)
Definition afterRequest (r : Request) (w : World) : World :=
  mkWorld (client w) (db w) (requests w ++ [r]) (delivered w)
    (clock_reads w) (random_reads w).

(** The world after one reading of the clock. *)
Definition afterClock (w : World) : World :=
  mkWorld (client w) (db w) (requests w) (delivered w)
    (S (clock_reads w)) (random_reads w).

(** The world after [storeOffline message]: one reading of the clock
    and one of the random source for the id, one reading of the clock
    for the expiry, and the [put]. *)
Definition afterStoreOffline (P : Platform) (message : Message) (w : World) : World :=
  mkWorld (client w)
    (db_put (makeRecord P
               (offlineId (Date_now P (clock_reads w)) (Math_random P (random_reads w)))
               (data message) (tags_or_null message)
               (Date_now P (S (clock_reads w)) + 3600 * 1000))
            (db w))
    (requests w) (delivered w)
    (S (S (clock_reads w))) (S (random_reads w)).

(** ** A concrete platform for closed examples

    A compact self-delimiting text format stands in for JSON text; the
    theorems below never depend on it: they take the platform as it
    comes. *)

Module Demo.

Definition Z_of_string (s : string) : option Z :=
  option_map Z.of_int (NilZero.int_of_string s).

(** Splits at the first occurrence of [c]. *)
Fixpoint take_until (c : Ascii.ascii) (s : string) : option (string * string) :=
  match s with
  | EmptyString => None
  | String a r =>
      if Ascii.eqb a c then Some (EmptyString, r)
      else match take_until c r with
           | Some (pre, post) => Some (String a pre, post)
           | None => None
           end
  end.

Fixpoint drop (n : nat) (s : string) : string :=
  match n, s with
  | S n', String _ r => drop n' r
  | _, _ => s
  end.

Definition write_string (s : string) : string :=
  (string_of_Z (Z.of_nat (String.length s)) ++ ":" ++ s)%string.

Fixpoint stringify (v : Json) : string :=
  match v with
  | JNull => "n"
  | JBool true => "t"
  | JBool false => "f"
  | JNum q => ("#" ++ string_of_Z (Qnum q) ++ "/"
               ++ string_of_Z (Zpos (Qden q)) ++ ";")%string
  | JStr s => ("s" ++ write_string s)%string
  | JArr items =>
      ("[" ++ (fix all (l : list Json) : string :=
                 match l with
                 | [] => "]"
                 | x :: l' => (stringify x ++ all l')%string
                 end) items)%string
  | JObj fields =>
      ("{" ++ (fix all (l : list (string * Json)) : string :=
                 match l with
                 | [] => "}"
                 | (k, x) :: l' => (write_string k ++ stringify x ++ all l')%string
                 end) fields)%string
  end.

Definition read_string (s : string) : option (string * string) :=
  match take_until ":"%char s with
  | Some (len, r) =>
      match Z_of_string len with
      | Some n =>
          if Z.of_nat (String.length r) <? n then None
          else Some (substring 0 (Z.to_nat n) r, drop (Z.to_nat n) r)
      | None => None
      end
  | None => None
  end.

Fixpoint read (fuel : nat) (s : string) : option (Json * string) :=
  match fuel with
  | O => None
  | S fuel' =>
      match s with
      | String "n"%char r => Some (JNull, r)
      | String "t"%char r => Some (JBool true, r)
      | String "f"%char r => Some (JBool false, r)
      | String "#"%char r =>
          match take_until "/"%char r with
          | Some (num, r1) =>
              match take_until ";"%char r1 with
              | Some (den, r2) =>
                  match Z_of_string num, Z_of_string den with
                  | Some n, Some (Zpos d) => Some (JNum (n # d), r2)
                  | _, _ => None
                  end
              | None => None
              end
          | None => None
          end
      | String "s"%char r =>
          match read_string r with
          | Some (str, r') => Some (JStr str, r')
          | None => None
          end
      | String "["%char r =>
          option_map (fun p => (JArr (fst p), snd p))
          ((fix items (k : nat) (r : string) : option (list Json * string) :=
             match k with
             | O => None
             | S k' =>
                 match r with
                 | String "]"%char r' => Some ([], r')
                 | _ =>
                     match read fuel' r with
                     | Some (x, r1) =>
                         match items k' r1 with
                         | Some (l, r2) => Some (x :: l, r2)
                         | None => None
                         end
                     | None => None
                     end
                 end
             end) fuel' r)
      | String "{"%char r =>
          option_map (fun p => (JObj (fst p), snd p))
          ((fix members (k : nat) (r : string)
             : option (list (string * Json) * string) :=
             match k with
             | O => None
             | S k' =>
                 match r with
                 | String "}"%char r' => Some ([], r')
                 | _ =>
                     match read_string r with
                     | Some (key, r0) =>
                         match read fuel' r0 with
                         | Some (x, r1) =>
                             match members k' r1 with
                             | Some (l, r2) => Some ((key, x) :: l, r2)
                             | None => None
                             end
                         | None => None
                         end
                     | None => None
                     end
                 end
             end) fuel' r)
      | _ => None
      end
  end.

Definition parse (s : string) : option Json :=
  match read (S (String.length s)) s with
  | Some (v, EmptyString) => Some v
  | _ => None
  end.

Definition sampleMessage (t : Z) : Message :=
  makeMessage (JObj [("data", JStr "hello")]) t [] EmptyString false.

(** A client built with the default options and [n] queued messages. *)
Definition loadedClient (cfg : Config) (n : nat) : TendrlClient :=
  set_queue (map (fun k => sampleMessage (Z.of_nat k)) (seq 0 n)) (constructor cfg).

Definition smallConfig : Config :=
  mkConfig 1 2 100%Q 1000%Q false 4 1 false.

(** The two intervals swapped: the constructor accepts it. *)
Definition swappedConfig : Config :=
  mkConfig 10 100 1000%Q 100%Q false 1000 1 false.

(** Capacity 2, offline storage enabled. *)
Definition offlineConfig : Config :=
  mkConfig 1 2 100%Q 1000%Q true 2 1 true.

(** A clock that advances one second per reading, and the codec above;
    the network is a parameter. *)
Definition platformWith (net : nat -> Request -> HttpResult) : Platform :=
  {| Date_now := fun k => 1700000000000 + 1000 * Z.of_nat k;
     Math_random := fun k => ("r" ++ string_of_Z (Z.of_nat k))%string;
     fetch_result := net;
     JSON_stringify := stringify;
     JSON_parse := parse;
     coerced_gt_zero := fun _ => false |}.

(** Every request is answered 200 with a message id. *)
Definition online : Platform :=
  platformWith (fun _ _ => Response 200 (Some (JObj [("content", JStr "id-1")]))).

(** Every request fails. *)
Definition offline : Platform := platformWith (fun _ _ => NetworkFailure).

Definition hello (s : string) : Event :=
  CallPublish (Value (JStr s)) [JStr "demo"] EmptyString false.

(** The first request fails; every later one is answered 204. *)
Definition blipThenNoContent : Platform :=
  platformWith (fun k _ => match k with
                           | O => NetworkFailure
                           | S _ => Response 204 None
                           end).

(** The first request fails; every later one is answered 200 with an
    empty list of messages. *)
Definition blipThenEmptyList : Platform :=
  platformWith (fun k _ => match k with
                           | O => NetworkFailure
                           | S _ => Response 200 (Some (JObj [("messages", JArr [])]))
                           end).

(** Every request is answered 500. *)
Definition serverError : Platform := platformWith (fun _ _ => Response 500 None).

(** A clock that advances 31 s per reading; the first request fails and
    every later one is answered 200. *)
Definition reconnecting : Platform :=
  {| Date_now := fun k => 1700000000000 + 31000 * Z.of_nat k;
     Math_random := fun k => ("r" ++ string_of_Z (Z.of_nat k))%string;
     fetch_result := fun k _ => match k with
                                | O => NetworkFailure
                                | S _ => Response 200 None
                                end;
     JSON_stringify := stringify;
     JSON_parse := parse;
     coerced_gt_zero := fun _ => false |}.

(** A record whose payload is not the serialization of anything. *)
Definition corruptedRecord : OfflineRecord :=
  {| id := "offline_1700000000000_aaaaaaaaa";
     stored_data := "{not json";
     stored_tags := None;
     expires_at := 1700003600000 |}.

(** A record as [store] writes it. *)
Definition soundRecord : OfflineRecord :=
  makeRecord online "offline_1700000000500_bbbbbbbbb"
    (JObj [("data", JStr "hello")]) (Some (JArr [JStr "demo"])) 1700003600500.

(** A client with offline storage whose store holds [records]. *)
Definition worldWithStore (records : list OfflineRecord) : World :=
  mkWorld (constructor offlineConfig) records [] [] 0 0.

(** Capacity 4, one message per batch, intervals from 100 to 1000 ms. *)
Definition slowDrainConfig : Config :=
  mkConfig 1 1 100%Q 1000%Q false 4 1 false.

End Demo.

(** * Further definitions: the rest of the client *)

(** A call of [publish] on the queued path with a message it accepts. *)
Definition isQueuedPublish (e : Event) : bool :=
  match e with
  | CallPublish msg _ _ false => validMessage msg
  | _ => false
  end.

(** A record of the poll answer that is not [null]: [transformCheckMessage]
    throws on [null], reading [checkMsg.msg_type]. *)
Definition notNull (v : Json) : bool :=
  match v with
  | JNull => false
  | _ => true
  end.

(** The [messages] array of a poll answer that the client dispatches:
    [responseData.messages], when it is an array that is not empty. *)
Definition polledMessages (answer : HttpResult) : list Json :=
  match answer with
  | Response 200 (Some (JObj fields)) =>
      match assoc "messages" fields with
      | Some (JArr items) => items
      | _ => []
      end
  | _ => []
  end.

(** Two worlds that differ at most in the messages delivered and in the
    number of clock readings. *)
Definition onlyDelivers (w w' : World) : Prop :=
  client w' = client w /\ db w' = db w /\ requests w' = requests w
  /\ random_reads w' = random_reads w.

(** ** The storage adapter called directly *)

Inductive StorageCall : Type :=
| CallStore (msgId : string) (d : Json) (tags : option Json) (ttl : Z)
| CallGetAllMessages (limit : option Z)
| CallDeleteMessages (msgIds : list string)
| CallGetMessageCount
| CallCleanupExpired.

Definition storageStep (s : StorageCall) (P : Platform) (w : World) : World :=
  match s with
  | CallStore msgId d tags ttl => exec (store msgId d tags ttl) P w
  | CallGetAllMessages limit => exec (getAllMessages limit) P w
  | CallDeleteMessages msgIds => exec (deleteMessages msgIds) P w
  | CallGetMessageCount => exec getMessageCount P w
  | CallCleanupExpired => exec cleanupExpired P w
  end.

(** Anything that happens to the client or to its store. *)
Inductive Activity : Type :=
| OfClient (e : Event)
| OfStorage (s : StorageCall).

Definition act (a : Activity) (P : Platform) (w : World) : World :=
  match a with
  | OfClient e => step e P w
  | OfStorage s => storageStep s P w
  end.

Definition acts (l : list Activity) (P : Platform) (w : World) : World :=
  fold_left (fun w a => act a P w) l w.

(** No two records share an id. *)
Definition uniqueIds (l : list OfflineRecord) : Prop := NoDup (map id l).

(** The records are in the order of the [expires_at] index. *)
Fixpoint indexOrdered (l : list OfflineRecord) : Prop :=
  match l with
  | [] => True
  | a :: rest =>
      Forall (fun b => expires_at a <= expires_at b) rest /\ indexOrdered rest
  end.

(** [m] maintains the predicate [J] on the contents of the store. *)
Definition keepsDb {A : Type} (J : list OfflineRecord -> Prop) (m : M A) : Prop :=
  forall P w, J (db w) -> J (db (snd (m P w))).

(** ** The sender tick, phase by phase *)

(** The part of the tick after the connection check: drain one batch,
    then the cleanup of expired records when it is due. *)
Definition tickAfterConnection (currentTime : Z) : M unit :=
  c2 <- getClient ;;
  (if has_items (queue c2) then
     batch <- liftClient getBatch ;;
     if has_items batch then
       c3 <- getClient ;;
       if _connectionState c3 then
         success <- _publishMessages batch ;;
         c4 <- getClient ;;
         if negb success && storage c4 then _storeBatchOffline batch else ret tt
       else if storage c3 then _storeBatchOffline batch else ret tt
     else ret tt
   else ret tt) ;;
  c5 <- getClient ;;
  if storage c5 && (_lastCleanup c5 + 60000 <=? currentTime) then
    cleanupExpired ;;
    modify (set_lastCleanup currentTime)
  else ret tt.

(** The tick reads the clock inside the cooldown of the connection
    check. *)
Definition cooldownRunning (P : Platform) (w : World) : Prop :=
  Date_now P (clock_reads w) < _lastConnectionCheck (client w) + 30000.

(** The tick reads the clock before the cleanup is due, or there is no
    store to clean. *)
Definition cleanupNotDue (P : Platform) (w : World) : Prop :=
  storage (client w) = false
  \/ Date_now P (clock_reads w) < _lastCleanup (client w) + 60000.

(** The world after the messages of a batch have been stored offline,
    one by one. *)
Definition spilled (P : Platform) (batch : list Message) (w : World) : World :=
  fold_left (fun w0 m => afterStoreOffline P m w0) batch w.

(** The world once a tick inside the cooldown has taken its batch: one
    clock reading, and the batch off the queue. *)
Definition batchTaken (w : World) : World :=
  with_client (snd (getBatch (client w))) (afterClock w).

Module Samples.

(** A client without a store, two messages queued, the connection just
    checked and found reachable. *)
Definition readyToSend : World :=
  steps [CallCheckConnectionState; Demo.hello "a"; Demo.hello "b"]
    Demo.online (initialWorld Demo.smallConfig).

(** A client with a store whose probe and first tick are behind it, the
    server unreachable, one message queued. *)
Definition cutOff : World :=
  steps [CallCheckConnectionState; SenderTick; Demo.hello "a"]
    Demo.offline (initialWorld Demo.offlineConfig).

End Samples.

(** ** Lifecycle and the message-check timer *)

Definition set_isRunning (b : bool) (c : TendrlClient) : TendrlClient :=
  mkClient (queue c) (maxQueueSize c) (callback c) (minBatchSize c)
    (maxBatchSize c) (minBatchInterval c) (maxBatchInterval c)
    (senderInterval c) (checkMsgLimit c) (_lastMsgCheck c)
    (_connectionState c) (_lastConnectionCheck c) (_lastCleanup c) b (storage c).

Definition set_callback (b : bool) (c : TendrlClient) : TendrlClient :=
  mkClient (queue c) (maxQueueSize c) b (minBatchSize c)
    (maxBatchSize c) (minBatchInterval c) (maxBatchInterval c)
    (senderInterval c) (checkMsgLimit c) (_lastMsgCheck c)
    (_connectionState c) (_lastConnectionCheck c) (_lastCleanup c)
    (_isRunning c) (storage c).

Definition set_checkMsgLimit (n : Z) (c : TendrlClient) : TendrlClient :=
  mkClient (queue c) (maxQueueSize c) (callback c) (minBatchSize c)
    (maxBatchSize c) (minBatchInterval c) (maxBatchInterval c)
    (senderInterval c) n (_lastMsgCheck c)
    (_connectionState c) (_lastConnectionCheck c) (_lastCleanup c)
    (_isRunning c) (storage c).

(** The handle [setInterval] returned for the message check: the period
    of the timer, and whether [clearInterval] has been called on it. *)
Record PollTimer : Type := mkPollTimer {
  poll_period : Z;
  poll_cleared : bool
}.

(** The client together with the two fields of it that only the
    lifecycle methods use. *)
Record Runtime : Type := mkRuntime {
  world : World;
  checkMsgRate : Z;
  messageCheckInterval : option PollTimer
}.

Definition initialRuntime (cfg : Config) (rate : Z) : Runtime :=
  mkRuntime (initialWorld cfg) rate None.

Definition with_world (w : World) (r : Runtime) : Runtime :=
  mkRuntime w (checkMsgRate r) (messageCheckInterval r).

(** [PUT /entities/status]; the answer is only logged. *)
Definition _updateEntityStatus (online : bool) : M unit :=
  fetch (PutStatus online) ;; ret tt.

(** [clearInterval(this.messageCheckInterval)] without resetting the
    field. *)
Definition clearPollTimer (t : option PollTimer) : option PollTimer :=
  match t with
  | Some h => Some (mkPollTimer (poll_period h) true)
  | None => None
  end.

Definition startMessageChecking (r : Runtime) : Runtime :=
  let cleared := clearPollTimer (messageCheckInterval r) in
  if callback (client (world r)) && (0 <? checkMsgRate r)
  then mkRuntime (world r) (checkMsgRate r)
         (Some (mkPollTimer (checkMsgRate r) false))
  else mkRuntime (world r) (checkMsgRate r) cleared.

Definition stopMessageChecking (r : Runtime) : Runtime :=
  mkRuntime (world r) (checkMsgRate r) None.

Definition start (P : Platform) (r : Runtime) : Runtime :=
  if _isRunning (client (world r)) then r
  else
    let w1 := exec (modify (set_isRunning true)) P (world r) in
    let w2 := exec (_updateEntityStatus true) P w1 in
    let w3 := exec startSender P w2 in
    if callback (client w3) then startMessageChecking (with_world w3 r)
    else with_world w3 r.

Definition stop (P : Platform) (r : Runtime) : Runtime :=
  if negb (_isRunning (client (world r))) then r
  else
    let w1 := exec (modify (set_isRunning false)) P (world r) in
    let w2 := exec (_updateEntityStatus false) P w1 in
    let w3 := exec stopSender P w2 in
    stopMessageChecking (with_world w3 r).

(** What a caller can pass to [setMessageCallback]. *)
Inductive CallbackArg : Type :=
| Falsy          (* null, undefined, ... *)
| Handler        (* a function *)
| NotAFunction.  (* any other truthy value *)

Definition setMessageCallback (cb : CallbackArg) (P : Platform) (r : Runtime)
  : Completion unit * Runtime :=
  match cb with
  | NotAFunction => (Throw "callback must be a function", r)
  | _ =>
      let set := match cb with Handler => true | _ => false end in
      let r1 := with_world (exec (modify (set_callback set)) P (world r)) r in
      (Normal tt,
       if _isRunning (client (world r1)) && set then startMessageChecking r1
       else r1)
  end.

Definition setMessageCheckRate (rateMs : Z) (r : Runtime) : Runtime :=
  let r1 := mkRuntime (world r) rateMs (messageCheckInterval r) in
  if _isRunning (client (world r1)) && callback (client (world r1))
  then startMessageChecking r1
  else r1.

Definition setMessageCheckLimit (limit : Z) (P : Platform) (r : Runtime) : Runtime :=
  with_world (exec (modify (set_checkMsgLimit limit)) P (world r)) r.

Definition isConnected (r : Runtime) : bool :=
  _connectionState (client (world r)) && _isRunning (client (world r)).

(** Whether the message-check timer is scheduled, and its period. *)
Definition pollActive (r : Runtime) : bool :=
  match messageCheckInterval r with
  | Some h => negb (poll_cleared h)
  | None => false
  end.

(** The callback of the message-check timer. *)
Definition pollTick (P : Platform) (r : Runtime) : Runtime :=
  with_world
    (exec (checkMessages (Some (checkMsgLimit (client (world r))))) P (world r)) r.

(** The methods of the client that [Event] does not list, called
    directly. *)
Inductive DirectCall : Type :=
| CallCheckMessagesAPI (limit : Z)
| CallTransformCheckMessage (checkMsg : Json)
| CallHandleCheckMessagesResponse (messages : list Json)
| CallUpdateEntityStatus (online : bool)
| CallPublishMessage (message : Message)
| CallPublishMessages (messages : list Message)
| CallStoreBatchOffline (messages : list Message).

Definition directStep (d : DirectCall) (P : Platform) (w : World) : World :=
  match d with
  | CallCheckMessagesAPI limit => exec (checkMessagesAPI limit) P w
  | CallTransformCheckMessage checkMsg => exec (transformCheckMessage checkMsg) P w
  | CallHandleCheckMessagesResponse messages =>
      exec (handleCheckMessagesResponse messages) P w
  | CallUpdateEntityStatus online => exec (_updateEntityStatus online) P w
  | CallPublishMessage message => exec (_publishMessage message) P w
  | CallPublishMessages messages => exec (_publishMessages messages) P w
  | CallStoreBatchOffline messages => exec (_storeBatchOffline messages) P w
  end.

Inductive LifecycleCall : Type :=
| DoStart
| DoStop
| DoSetMessageCallback (cb : CallbackArg)
| DoSetMessageCheckRate (rateMs : Z)
| DoSetMessageCheckLimit (limit : Z)
| DoStartMessageChecking
| DoStopMessageChecking
| DoPollTick
| DoClient (e : Event)
| DoDirect (d : DirectCall).

Definition lifecycleStep (a : LifecycleCall) (P : Platform) (r : Runtime) : Runtime :=
  match a with
  | DoStart => start P r
  | DoStop => stop P r
  | DoSetMessageCallback cb => snd (setMessageCallback cb P r)
  | DoSetMessageCheckRate rateMs => setMessageCheckRate rateMs r
  | DoSetMessageCheckLimit limit => setMessageCheckLimit limit P r
  | DoStartMessageChecking => startMessageChecking r
  | DoStopMessageChecking => stopMessageChecking r
  | DoPollTick => if pollActive r then pollTick P r else r
  | DoClient e => with_world (step e P (world r)) r
  | DoDirect d => with_world (directStep d P (world r)) r
  end.

Definition lifecycleSteps (l : list LifecycleCall) (P : Platform) (r : Runtime)
  : Runtime :=
  fold_left (fun r a => lifecycleStep a P r) l r.

(** Calls that leave the two timers to [start], [stop],
    [setMessageCallback] and [setMessageCheckRate]: every call but the
    direct ones of [startSender], [stopSender], [startMessageChecking]
    and [stopMessageChecking]. *)
Definition viaLifecycle (a : LifecycleCall) : bool :=
  match a with
  | DoClient e => leavesTimer e
  | DoStartMessageChecking | DoStopMessageChecking => false
  | _ => true
  end.

(** While stopped nothing is scheduled; while running the sender timer
    is, and so is the message check, at the current rate, when there is a
    callback and the rate is positive. *)
Definition timersFollowState (r : Runtime) : Prop :=
  let c := client (world r) in
  (_isRunning c = false -> senderInterval c = None /\ pollActive r = false)
  /\ (_isRunning c = true ->
      senderInterval c <> None
      /\ (callback c = true -> 0 < checkMsgRate r ->
          messageCheckInterval r = Some (mkPollTimer (checkMsgRate r) false))).

(** ** Replay on a healthy connection *)

(** A request the replay loop may issue: a batch of 1 to 50 messages. *)
Definition isReplayBatch (q : Request) : bool :=
  match q with
  | PostMessages ms =>
      (1 <=? List.length ms)%nat && (List.length ms <=? 50)%nat
  | _ => false
  end.

Definition clockMonotone (P : Platform) : Prop :=
  forall i j : nat, (i <= j)%nat -> Date_now P i <= Date_now P j.

Definition acceptsBatches (P : Platform) : Prop :=
  forall n ms, batchAccepted (fetch_result P n (PostMessages ms)) = true.

(** ** The cooldown of the connection check and the sender tick *)

(** A platform whose clock reads [1700000000000], then 100 ms later,
    and from then on 30 050 ms later; every request is answered 200. *)
Definition lateSecondReading : Platform :=
  {| Date_now := fun k => match k with
                          | O => 1700000000000
                          | S O => 1700000000100
                          | _ => 1700000030050
                          end;
     Math_random := fun k => ("r" ++ string_of_Z (Z.of_nat k))%string;
     fetch_result := fun _ _ => Response 200 None;
     JSON_stringify := Demo.stringify;
     JSON_parse := Demo.parse;
     coerced_gt_zero := fun _ => false |}.

(** ** The round trip through the offline store *)





(** * Properties *)

(** ** The adaptive interval *)

Lemma Qdiv_100 (x : Q) : (x / 100 == x * (1 # 100))%Q.
Proof. unfold Qdiv. apply Qmult_comp; reflexivity. Qed.

Section Interval.

Variable c : TendrlClient.

Let lo := minBatchInterval c.
Let hi := maxBatchInterval c.
Let interval (q : list Message) := calculateBatchInterval (set_queue q c).
Let load (q : list Message) := queueLoad (set_queue q c).

Lemma interval_low (q : list Message) :
  (load q < 25)%Q -> (interval q == lo)%Q.
Proof.
  unfold interval, load, calculateBatchInterval; cbn. intros H.
  destruct (Qlt_le_dec _ 25) as [_ | H']; [reflexivity | lra].
Qed.

Lemma interval_high (q : list Message) :
  (75 < load q)%Q -> (interval q == hi)%Q.
Proof.
  unfold interval, load, calculateBatchInterval; cbn. intros H.
  destruct (Qlt_le_dec _ 25) as [H' | _]; [lra |].
  destruct (Qlt_le_dec 75 _) as [_ | H']; [reflexivity | lra].
Qed.

Lemma interval_middle (q : list Message) :
  (25 <= load q)%Q -> (load q <= 75)%Q ->
  (interval q == lo + ((hi - lo) * load q) / 100)%Q.
Proof.
  unfold interval, load, calculateBatchInterval; cbn. intros H1 H2.
  destruct (Qlt_le_dec _ 25) as [H' | _]; [lra |].
  destruct (Qlt_le_dec 75 _) as [H' | _]; [lra | reflexivity].
Qed.

Lemma interval_monotone (q1 q2 : list Message) :
  (lo <= hi)%Q -> (load q1 <= load q2)%Q -> (interval q1 <= interval q2)%Q.
Proof.
  intros Hc Hl.
  destruct (Qlt_le_dec (load q1) 25) as [A1 | A1].
  - rewrite (interval_low q1 A1).
    destruct (Qlt_le_dec (load q2) 25) as [A2 | A2].
    + rewrite (interval_low q2 A2). lra.
    + destruct (Qlt_le_dec 75 (load q2)) as [B2 | B2].
      * rewrite (interval_high q2 B2). exact Hc.
      * rewrite (interval_middle q2 A2 B2), Qdiv_100.
        assert (0 <= (hi - lo) * load q2)%Q by (apply Qmult_le_0_compat; lra).
        lra.
  - destruct (Qlt_le_dec 75 (load q1)) as [B1 | B1].
    + rewrite (interval_high q1 B1), (interval_high q2); lra.
    + rewrite (interval_middle q1 A1 B1), Qdiv_100.
      destruct (Qlt_le_dec 75 (load q2)) as [B2 | B2].
      * rewrite (interval_high q2 B2).
        assert (0 <= (hi - lo) * (100 - load q1))%Q
          by (apply Qmult_le_0_compat; lra).
        lra.
      * rewrite (interval_middle q2); [| lra | lra]. rewrite Qdiv_100.
        assert (0 <= (hi - lo) * (load q2 - load q1))%Q
          by (apply Qmult_le_0_compat; lra).
        lra.
Qed.

End Interval.

(** C1 (as amended).  With [minBatchInterval <= maxBatchInterval] the
    interval computed by [calculateBatchInterval] never decreases when
    the queue load grows; it is [minBatchInterval] for every load
    strictly below 25, [maxBatchInterval] for every load strictly above
    75, and the interpolation
    [min + (max - min) * load / 100] from 25 to 75, both ends included. *)
Theorem calculateBatchInterval_load_profile :
  forall (c : TendrlClient),
    let interval q := calculateBatchInterval (set_queue q c) in
    let load q := queueLoad (set_queue q c) in
    ((minBatchInterval c <= maxBatchInterval c)%Q ->
     forall q1 q2, (load q1 <= load q2)%Q -> (interval q1 <= interval q2)%Q)
    /\ (forall q, (load q < 25)%Q -> (interval q == minBatchInterval c)%Q)
    /\ (forall q, (75 < load q)%Q -> (interval q == maxBatchInterval c)%Q)
    /\ (forall q, (25 <= load q)%Q -> (load q <= 75)%Q ->
          (interval q
           == minBatchInterval c
              + ((maxBatchInterval c - minBatchInterval c) * load q) / 100)%Q).
Proof.
  intros c interval load. repeat split.
  - intros Hc q1 q2. apply interval_monotone; exact Hc.
  - apply interval_low.
  - apply interval_high.
  - apply interval_middle.
Qed.

Lemma calculateBatchInterval_load_profile_witness :
  let c := constructor defaultConfig in
  let q1 := queue (Demo.loadedClient defaultConfig 100) in
  let q2 := queue (Demo.loadedClient defaultConfig 500) in
  let q3 := queue (Demo.loadedClient defaultConfig 900) in
  (calculateBatchInterval (set_queue q1 c) <= calculateBatchInterval (set_queue q2 c))%Q
  /\ (calculateBatchInterval (set_queue q1 c) == 100)%Q
  /\ (calculateBatchInterval (set_queue q3 c) == 1000)%Q
  /\ (calculateBatchInterval (set_queue q2 c) == 100 + ((1000 - 100) * 50) / 100)%Q.
Proof.
  intros c q1 q2 q3.
  destruct (calculateBatchInterval_load_profile c) as (Hm & Hl & Hh & Hi).
  split; [| split; [| split]].
  - apply Hm; vm_compute; discriminate.
  - apply (Hl q1). vm_compute. reflexivity.
  - apply (Hh q3). vm_compute. reflexivity.
  - rewrite (Hi q2); [vm_compute; reflexivity | |]; vm_compute; discriminate.
Defined.

(** C1 as stated fails at the two ends: with the default options and a
    queue at exactly a quarter (three quarters) of its capacity the load
    is 25 (75) and the interval is 325 (775), not [minBatchInterval]
    (not [maxBatchInterval]).  It also fails for a client constructed
    with [minBatchInterval > maxBatchInterval]: there the interval falls
    from 1000 at load 0 to 100 at load 100. *)
Lemma calculateBatchInterval_at_quarter_load :
  let c25 := Demo.loadedClient defaultConfig 250 in
  let c75 := Demo.loadedClient defaultConfig 750 in
  let s0 := Demo.loadedClient Demo.swappedConfig 0 in
  let s100 := Demo.loadedClient Demo.swappedConfig 1000 in
  (queueLoad c25 <= 25)%Q
  /\ (calculateBatchInterval c25 == 325)%Q
  /\ ~ (calculateBatchInterval c25 == minBatchInterval c25)%Q
  /\ (75 <= queueLoad c75)%Q
  /\ (calculateBatchInterval c75 == 775)%Q
  /\ ~ (calculateBatchInterval c75 == maxBatchInterval c75)%Q
  /\ (queueLoad s0 < queueLoad s100)%Q
  /\ ~ (calculateBatchInterval s0 <= calculateBatchInterval s100)%Q.
Proof.
  repeat split;
    try (vm_compute; reflexivity); vm_compute; try discriminate; auto.
Qed.

(** ** The queue: [getBatch] and the FIFO law *)

Lemma batchCount_le (c : TendrlClient) : (batchCount c <= List.length (queue c))%nat.
Proof. unfold batchCount. lia. Qed.

Lemma getBatch_batch (c : TendrlClient) :
  fst (getBatch c) = firstn (batchCount c) (queue c).
Proof. reflexivity. Qed.

Lemma getBatch_rest (c : TendrlClient) :
  snd (getBatch c) = set_queue (skipn (batchCount c) (queue c)) c.
Proof. reflexivity. Qed.

Lemma getBatch_split (c : TendrlClient) :
  queue c = fst (getBatch c) ++ queue (snd (getBatch c)).
Proof.
  rewrite getBatch_batch, getBatch_rest. cbn.
  symmetry. apply firstn_skipn.
Qed.

Lemma getBatch_length (c : TendrlClient) :
  Z.of_nat (List.length (fst (getBatch c)))
  = Z.max 0 (Z.min (Z.of_nat (List.length (queue c))) (maxBatchSize c)).
Proof.
  rewrite getBatch_batch, length_firstn.
  pose proof (batchCount_le c). unfold batchCount in *. lia.
Qed.

Lemma enqueue_queue (m : Message) (c : TendrlClient) :
  queue (snd (enqueue m c))
  = queue c ++ (if fst (enqueue m c) then [m] else []).
Proof.
  unfold enqueue. destruct (_ <? _); cbn; [reflexivity | now rewrite app_nil_r].
Qed.

Lemma runQueueOps_fifo (ops : list QueueOp) :
  forall c,
    List.concat (fst (fst (runQueueOps ops c))) ++ queue (snd (runQueueOps ops c))
    = queue c ++ snd (fst (runQueueOps ops c)).
Proof.
  induction ops as [| [m |] ops IH]; intros c; cbn [runQueueOps].
  - cbn. now rewrite app_nil_r.
  - pose proof (enqueue_queue m c) as He.
    destruct (enqueue m c) as [accepted c1]; cbn [fst snd] in He.
    specialize (IH c1). destruct (runQueueOps ops c1) as [[batches enq] c2].
    cbn [fst snd] in *. rewrite IH, He, app_assoc. reflexivity.
  - pose proof (getBatch_split c) as Hs.
    destruct (getBatch c) as [batch c1]; cbn [fst snd] in Hs.
    specialize (IH c1). destruct (runQueueOps ops c1) as [[batches enq] c2].
    cbn [fst snd List.concat] in *. rewrite <- app_assoc, IH, Hs, app_assoc.
    reflexivity.
Qed.

Lemma NoDup_app_disjoint {A : Type} (l1 l2 : list A) :
  NoDup (l1 ++ l2) -> forall x, In x l1 -> ~ In x l2.
Proof.
  induction l1 as [| a l1 IH]; cbn; intros Hn x Hx; [contradiction |].
  inversion Hn as [| ? ? Ha Hn']; subst.
  destruct Hx as [-> | Hx].
  - intros H2. apply Ha. apply in_or_app. now right.
  - now apply IH.
Qed.

Lemma NoDup_app_left {A : Type} (l1 l2 : list A) :
  NoDup (l1 ++ l2) -> NoDup l1.
Proof.
  induction l1 as [| a l1 IH]; cbn; intros Hn; [constructor |].
  inversion Hn as [| ? ? Ha Hn']; subst. constructor.
  - intros H1. apply Ha. apply in_or_app. now left.
  - now apply IH.
Qed.

Lemma NoDup_app_right {A : Type} (l1 l2 : list A) :
  NoDup (l1 ++ l2) -> NoDup l2.
Proof.
  induction l1 as [| a l1 IH]; cbn; intros Hn; [exact Hn |].
  inversion Hn; subst. now apply IH.
Qed.

(** Two different positions of a duplicate-free concatenation hold
    disjoint lists. *)
Lemma NoDup_concat_disjoint {A : Type} (ls : list (list A)) :
  NoDup (List.concat ls) ->
  forall i j a b, (i < j)%nat ->
    nth_error ls i = Some a -> nth_error ls j = Some b ->
    forall x, In x a -> ~ In x b.
Proof.
  induction ls as [| l ls IH]; intros Hn i j a b Hij Hi Hj x Ha Hb.
  - destruct i; discriminate.
  - cbn [List.concat] in Hn. destruct j as [| j]; [lia |]. cbn in Hj.
    destruct i as [| i]; cbn in Hi.
    + injection Hi as <-.
      apply (NoDup_app_disjoint _ _ Hn x Ha).
      apply in_concat. exists b. split; [| exact Hb].
      eapply nth_error_In; eassumption.
    + apply (IH (NoDup_app_right _ _ Hn) i j a b ltac:(lia) Hi Hj x Ha Hb).
Qed.

(** C2.  [getBatch] removes and returns exactly the first
    [min(length, maxBatchSize)] messages of the queue, in order, and leaves
    the rest in place, in order, touching nothing else.  Over any
    interleaving of accepted insertions and [getBatch] calls, the batches
    taken, concatenated in order and followed by what is still queued,
    are the initial queue followed by the accepted messages in insertion
    order; so once the queue is drained the batches are exactly the
    insertion order, and when the messages are distinct no message is in
    two batches. *)
Theorem getBatch_fifo :
  forall (c : TendrlClient),
    let batch := fst (getBatch c) in
    let c' := snd (getBatch c) in
    batch = firstn (batchCount c) (queue c)
    /\ c' = set_queue (skipn (batchCount c) (queue c)) c
    /\ Z.of_nat (List.length batch)
       = Z.max 0 (Z.min (Z.of_nat (List.length (queue c))) (maxBatchSize c))
    /\ queue c = batch ++ queue c'
    /\ (NoDup (queue c) ->
        forall m, In m batch -> ~ In m (fst (getBatch c')))
    /\ (forall ops,
          let batches := fst (fst (runQueueOps ops c)) in
          let accepted := snd (fst (runQueueOps ops c)) in
          let remaining := queue (snd (runQueueOps ops c)) in
          List.concat batches ++ remaining = queue c ++ accepted
          /\ (remaining = [] -> List.concat batches = queue c ++ accepted)
          /\ (NoDup (queue c ++ accepted) ->
              forall i j a b, (i < j)%nat ->
                nth_error batches i = Some a -> nth_error batches j = Some b ->
                forall m, In m a -> ~ In m b)).
Proof.
  intros c batch c'. subst batch c'.
  split; [apply getBatch_batch |].
  split; [apply getBatch_rest |].
  split; [apply getBatch_length |].
  split; [apply getBatch_split |].
  split.
  - intros Hn m Hm.
    rewrite (getBatch_split c) in Hn.
    rewrite (getBatch_split (snd (getBatch c))), app_assoc in Hn.
    apply NoDup_app_left in Hn.
    now apply (NoDup_app_disjoint _ _ Hn).
  - intros ops batches accepted remaining. subst batches accepted remaining.
    pose proof (runQueueOps_fifo ops c) as Hf.
    split; [exact Hf |]. split.
    + intros He. rewrite He, app_nil_r in Hf. exact Hf.
    + intros Hn. rewrite <- Hf in Hn. apply NoDup_app_left in Hn.
      now apply NoDup_concat_disjoint.
Qed.

Ltac distinct_messages :=
  vm_compute; repeat (constructor; [cbn; intuition discriminate |]); constructor.

Lemma getBatch_fifo_witness :
  let c := Demo.loadedClient Demo.smallConfig 3 in
  let ops := [TakeBatch; Enqueue (Demo.sampleMessage 7); TakeBatch; TakeBatch] in
  ~ In (Demo.sampleMessage 0) (fst (getBatch (snd (getBatch c))))
  /\ List.concat (fst (fst (runQueueOps ops c)))
     = queue c ++ [Demo.sampleMessage 7]
  /\ ~ In (Demo.sampleMessage 0) [Demo.sampleMessage 2; Demo.sampleMessage 7].
Proof.
  intros c ops.
  destruct (getBatch_fifo c) as (_ & _ & _ & _ & Htwice & Hrun).
  destruct (Hrun ops) as (_ & Hdrained & Hdisjoint).
  split; [| split].
  - apply Htwice; [distinct_messages | vm_compute; auto].
  - exact (Hdrained eq_refl).
  - apply (Hdisjoint ltac:(distinct_messages) 0%nat 1%nat
             [Demo.sampleMessage 0; Demo.sampleMessage 1]
             [Demo.sampleMessage 2; Demo.sampleMessage 7]
             ltac:(lia) eq_refl eq_refl).
    vm_compute; auto.
Defined.

(** ** Frame reasoning for the methods *)

Section Keeps.

Variable I : TendrlClient -> Prop.

Lemma keeps_ret {A : Type} (a : A) : keeps I (ret a).
Proof. intros P w H. exact H. Qed.

Lemma keeps_throw {A : Type} (e : string) : keeps I (@throw A e).
Proof. intros P w H. exact H. Qed.

Lemma keeps_bind {A B : Type} (m : M A) (k : A -> M B) :
  keeps I m -> (forall a, keeps I (k a)) -> keeps I (bind m k).
Proof.
  intros Hm Hk P w H. unfold bind.
  specialize (Hm P w H). destruct (m P w) as [[a | e] w1]; cbn in *.
  - now apply Hk.
  - exact Hm.
Qed.

Lemma keeps_platform : keeps I platform.
Proof. intros P w H. exact H. Qed.

Lemma keeps_getClient : keeps I getClient.
Proof. intros P w H. exact H. Qed.

Lemma keeps_getDb : keeps I getDb.
Proof. intros P w H. exact H. Qed.

Lemma keeps_modifyDb f : keeps I (modifyDb f).
Proof. intros P w H. exact H. Qed.

Lemma keeps_now : keeps I now.
Proof. intros P w H. exact H. Qed.

Lemma keeps_random : keeps I random.
Proof. intros P w H. exact H. Qed.

Lemma keeps_fetch r : keeps I (fetch r).
Proof. intros P w H. exact H. Qed.

Lemma keeps_deliver m : keeps I (deliver m).
Proof. intros P w H. exact H. Qed.

Lemma keeps_modify f : (forall c, I c -> I (f c)) -> keeps I (modify f).
Proof. intros Hf P w H. cbn. now apply Hf. Qed.

Lemma keeps_liftClient {A : Type} (f : TendrlClient -> A * TendrlClient) :
  (forall c, I c -> I (snd (f c))) -> keeps I (liftClient f).
Proof.
  intros Hf P w H. unfold liftClient. specialize (Hf _ H).
  destruct (f (client w)); cbn in *. exact Hf.
Qed.

Lemma keeps_forEach {A : Type} (f : A -> M unit) (l : list A) :
  (forall x, keeps I (f x)) -> keeps I (forEach f l).
Proof.
  intros Hf. induction l as [| x l IH]; cbn [forEach].
  - apply keeps_ret.
  - apply keeps_bind; [apply Hf | intros _; exact IH].
Qed.

(** Breaks a method body down to its primitive effects. *)
Ltac keeps_body :=
  repeat first
    [ apply keeps_ret | apply keeps_throw | apply keeps_platform
    | apply keeps_getClient | apply keeps_getDb | apply keeps_modifyDb
    | apply keeps_now | apply keeps_random | apply keeps_fetch
    | apply keeps_deliver
    | apply keeps_bind; [| intros ?]
    | apply keeps_forEach; intros ?
    | match goal with
      | |- keeps _ (if ?b then _ else _) => destruct b
      | |- keeps _ (match ?x with _ => _ end) => destruct x
      | |- keeps _ (let _ := _ in _) => cbv zeta
      end ].

Lemma keeps_store msgId d tags ttl : keeps I (store msgId d tags ttl).
Proof. unfold store. keeps_body. Qed.

Lemma keeps_getAllMessages limit : keeps I (getAllMessages limit).
Proof. unfold getAllMessages. keeps_body. Qed.

Lemma keeps_deleteMessages ids : keeps I (deleteMessages ids).
Proof. unfold deleteMessages. keeps_body. Qed.

Lemma keeps_getMessageCount : keeps I getMessageCount.
Proof. unfold getMessageCount. keeps_body. Qed.

Lemma keeps_cleanupExpired : keeps I cleanupExpired.
Proof. unfold cleanupExpired. keeps_body. Qed.

Lemma keeps_publishMessage m : keeps I (_publishMessage m).
Proof. unfold _publishMessage. keeps_body. Qed.

Lemma keeps_publishMessages ms : keeps I (_publishMessages ms).
Proof. unfold _publishMessages. keeps_body. Qed.

Lemma keeps_storeOffline m : keeps I (storeOffline m).
Proof. unfold storeOffline. keeps_body. Qed.

Lemma keeps_storeBatchOffline ms : keeps I (_storeBatchOffline ms).
Proof. unfold _storeBatchOffline. keeps_body. Qed.

Lemma keeps_heartbeatField name field d : keeps I (heartbeatField name field d).
Proof. unfold heartbeatField. keeps_body. Qed.

Lemma keeps_sendHeartbeat args : keeps I (sendHeartbeat args).
Proof.
  unfold sendHeartbeat.
  repeat (apply keeps_bind; [apply keeps_heartbeatField | intros ?]).
  keeps_body.
Qed.

Lemma keeps_restoreMessage r : keeps I (restoreMessage r).
Proof. unfold restoreMessage. keeps_body. Qed.

Lemma keeps_convertStored l : keeps I (convertStored l).
Proof.
  induction l as [| r l IH]; cbn [convertStored].
  - apply keeps_ret.
  - apply keeps_bind; [apply keeps_restoreMessage | intros ?].
    apply keeps_bind; [exact IH | intros ?]. apply keeps_ret.
Qed.

Lemma keeps_replayLoop fuel : forall totalCount processed,
  keeps I (replayLoop fuel totalCount processed).
Proof.
  induction fuel as [| fuel IH]; intros totalCount processed; cbn [replayLoop].
  - apply keeps_ret.
  - destruct (processed <? totalCount); [| apply keeps_ret].
    apply keeps_bind; [apply keeps_getAllMessages | intros stored].
    destruct stored as [| r stored]; [apply keeps_ret |].
    apply keeps_bind; [apply keeps_convertStored | intros acc]. cbv zeta.
    destruct (has_items (fst acc)).
    + apply keeps_bind; [apply keeps_publishMessages | intros success].
      destruct success; [| apply keeps_ret].
      apply keeps_bind; [apply keeps_deleteMessages | intros _]. apply IH.
    + apply keeps_bind; [apply keeps_deleteMessages | intros _].
      apply keeps_ret.
Qed.

Lemma keeps_processOfflineMessages : keeps I processOfflineMessages.
Proof.
  unfold processOfflineMessages.
  apply keeps_bind; [apply keeps_getClient | intros c].
  destruct (negb (storage c)); [apply keeps_ret |].
  apply keeps_bind; [apply keeps_getMessageCount | intros n].
  destruct (n =? 0); [apply keeps_ret |].
  apply keeps_bind; [apply keeps_replayLoop | intros _]. apply keeps_ret.
Qed.

Lemma keeps_transformCheckMessage m : keeps I (transformCheckMessage m).
Proof. unfold transformCheckMessage. keeps_body. Qed.

Lemma keeps_handleCheckMessagesResponse ms :
  keeps I (handleCheckMessagesResponse ms).
Proof.
  unfold handleCheckMessagesResponse. keeps_body.
  all: apply keeps_transformCheckMessage.
Qed.

Hypothesis HI : Maintained I.

Lemma keeps_checkMessagesAPI limit : keeps I (checkMessagesAPI limit).
Proof.
  unfold checkMessagesAPI.
  apply keeps_bind; [apply keeps_fetch | intros r].
  destruct r as [status body | |];
    try (apply keeps_modify; apply (by_connectionState HI)).
  destruct (status =? 204); [apply keeps_ret |].
  destruct (negb (status =? 200)); [apply keeps_ret |].
  assert (Hok : forall m : M unit, keeps I m ->
            keeps I (m ;; t <- now ;; modify (set_lastMsgCheck t) ;;
                     modify (set_connectionState true))).
  { intros m Hm. apply keeps_bind; [exact Hm | intros _].
    apply keeps_bind; [apply keeps_now | intros t].
    apply keeps_bind; [apply keeps_modify, (by_lastMsgCheck HI) | intros _].
    apply keeps_modify, (by_connectionState HI). }
  destruct body as [[| b | q | s | items | fields] |];
    try (apply keeps_modify; apply (by_connectionState HI));
    apply Hok; cbn [prop]; try apply keeps_ret.
  destruct (assoc "messages" fields) as [[| | | | [| m ms] |] |];
    first [apply keeps_ret | apply keeps_handleCheckMessagesResponse].
Qed.

Lemma keeps_checkMessages limit : keeps I (checkMessages limit).
Proof.
  unfold checkMessages.
  apply keeps_bind; [apply keeps_getClient | intros c].
  apply keeps_checkMessagesAPI.
Qed.

Lemma keeps_checkConnectionState : keeps I checkConnectionState.
Proof.
  unfold checkConnectionState.
  apply keeps_bind; [apply keeps_now | intros t].
  apply keeps_bind; [apply keeps_getClient | intros c].
  destruct (t <? _); [apply keeps_ret |].
  apply keeps_bind; [apply keeps_modify, (by_lastConnectionCheck HI) | intros _].
  apply keeps_bind; [apply keeps_fetch | intros r].
  apply keeps_bind; [apply keeps_modify, (by_connectionState HI) | intros _].
  keeps_body.
Qed.

Lemma keeps_publish msg tags entity waitResponse :
  keeps I (publish msg tags entity waitResponse).
Proof.
  unfold publish.
  destruct msg as [| v]; [apply keeps_throw |].
  destruct v; try apply keeps_throw;
    (apply keeps_bind; [first [apply keeps_ret | apply keeps_throw] | intros d]);
    (apply keeps_bind; [apply keeps_now | intros t]); cbv zeta;
    (destruct waitResponse;
     [ apply keeps_bind; [apply keeps_publishMessage | intros ?]; apply keeps_ret
     | apply keeps_bind;
       [ apply keeps_liftClient; intros c; apply (by_enqueue HI) | intros acc ];
       keeps_body ]).
Qed.

Lemma keeps_senderTick : keeps I senderTick.
Proof.
  unfold senderTick.
  apply keeps_bind; [apply keeps_now | intros t].
  apply keeps_bind; [apply keeps_getClient | intros c].
  apply keeps_bind; [| intros _; apply keeps_bind; [apply keeps_getClient | intros c2];
                       apply keeps_bind; [| intros _ ]].
  - destruct (_ <=? t); [| apply keeps_ret]. cbv zeta.
    apply keeps_bind; [apply keeps_checkConnectionState | intros _].
    apply keeps_bind; [apply keeps_modify, (by_lastConnectionCheck HI) | intros _].
    apply keeps_bind; [apply keeps_getClient | intros c1].
    destruct (_ && _); [apply keeps_processOfflineMessages | apply keeps_ret].
  - destruct (has_items (queue c2)); [| apply keeps_ret].
    apply keeps_bind;
      [apply keeps_liftClient; intros c0; apply (by_getBatch HI) | intros batch].
    destruct (has_items batch); [| apply keeps_ret].
    apply keeps_bind; [apply keeps_getClient | intros c3].
    destruct (_connectionState c3).
    + apply keeps_bind; [apply keeps_publishMessages | intros success].
      apply keeps_bind; [apply keeps_getClient | intros c4].
      destruct (_ && _); [apply keeps_storeBatchOffline | apply keeps_ret].
    + destruct (storage c3); [apply keeps_storeBatchOffline | apply keeps_ret].
  - apply keeps_bind; [apply keeps_getClient | intros c5].
    destruct (_ && _); [| apply keeps_ret].
    apply keeps_bind; [apply keeps_cleanupExpired | intros _].
    apply keeps_modify, (by_lastCleanup HI).
Qed.

End Keeps.


(** ** [publish] *)

Lemma storeOffline_run (P : Platform) (message : Message) (w : World) :
  run (storeOffline message) P w = (Normal tt, afterStoreOffline P message w).
Proof. reflexivity. Qed.

(** The queued path of [publish], case by case. *)
Lemma publish_queued_run (P : Platform) (w : World) msg tags entity :
  validMessage msg = true ->
  let message :=
    makeMessage (messageData msg) (Date_now P (clock_reads w)) tags entity false in
  run (publish msg tags entity false) P w
  = (Normal None,
     if Z.of_nat (List.length (queue (client w))) <? maxQueueSize (client w)
     then with_client (set_queue (queue (client w) ++ [message]) (client w))
            (afterClock w)
     else if storage (client w)
          then afterStoreOffline P message (afterClock w)
          else afterClock w).
Proof.
  intros Hv message. subst message.
  destruct msg as [| [| b | q | s | items | fields]]; try discriminate Hv;
    unfold run, publish, bind, liftClient, enqueue; cbn;
    destruct (_ <? _); cbn; try reflexivity;
    destruct (storage (client w)); reflexivity.
Qed.

(** Whatever its arguments, [publish] on a full queue leaves the queue
    as it is. *)
Lemma publish_full_queue (P : Platform) (w : World) msg tags entity waitResponse :
  Z.of_nat (List.length (queue (client w))) = maxQueueSize (client w) ->
  queue (client (exec (publish msg tags entity waitResponse) P w))
  = queue (client w).
Proof.
  intros Hfull.
  assert (Hlt : (Z.of_nat (List.length (queue (client w))) <? maxQueueSize (client w))
                = false) by lia.
  destruct waitResponse.
  - destruct msg as [| [| b | q | s | items | fields]]; reflexivity.
  - destruct (validMessage msg) eqn:Hv.
    + unfold exec. pose proof (publish_queued_run P w msg tags entity Hv) as Hr.
      unfold run in Hr. cbv zeta in Hr. rewrite Hr, Hlt. cbn [snd].
      destruct (storage (client w)); reflexivity.
    + destruct msg as [| [| b | q | s | items | fields]];
        try discriminate Hv; reflexivity.
Qed.

(** ** The capacity invariant *)

Lemma queueBounded_maintained : Maintained queueBounded.
Proof.
  constructor; unfold queueBounded; try (cbn; now auto).
  - intros m c H. unfold enqueue.
    destruct (_ <? _) eqn:Hlt; cbn; [| exact H].
    rewrite length_app; cbn. lia.
  - intros c H. rewrite getBatch_rest; cbn. rewrite length_skipn. lia.
Qed.

Lemma step_keeps (I : TendrlClient -> Prop) :
  Maintained I ->
  (forall t c, I c -> I (set_senderInterval t c)) ->
  forall e P w, I (client w) -> I (client (step e P w)).
Proof.
  intros HI Hs e P w H. destruct e; cbn [step]; unfold exec.
  - now apply keeps_publish.
  - now apply keeps_sendHeartbeat.
  - apply keeps_liftClient; [intros c; apply (by_getBatch HI) | exact H].
  - now apply keeps_checkMessages.
  - now apply keeps_checkConnectionState.
  - now apply keeps_processOfflineMessages.
  - cbn. now apply Hs.
  - cbn. now apply Hs.
  - now apply keeps_senderTick.
Qed.

Lemma steps_keeps (I : TendrlClient -> Prop) :
  Maintained I ->
  (forall t c, I c -> I (set_senderInterval t c)) ->
  forall es P w, I (client w) -> I (client (steps es P w)).
Proof.
  intros HI Hs es P. unfold steps.
  induction es as [| e es IH]; intros w H; cbn [fold_left]; [exact H |].
  apply IH. now apply step_keeps.
Qed.

(** C3.  For a client constructed with a capacity [maxQueueSize >= 0],
    [queue.length <= maxQueueSize] holds at construction and after every
    sequence of method calls and sender ticks.  When the queue is at
    capacity, [publish] leaves the queue exactly as it is, whatever its
    arguments; a valid message on the queued path is then put in the
    offline store when one is configured, and otherwise nothing is
    stored. *)
Theorem queue_never_exceeds_capacity :
  forall (P : Platform) (cfg : Config),
    0 <= cfg_maxQueueSize cfg ->
    queueBounded (client (initialWorld cfg))
    /\ (forall es, queueBounded (client (steps es P (initialWorld cfg))))
    /\ (forall es msg tags entity waitResponse,
          let w := steps es P (initialWorld cfg) in
          let w' := exec (publish msg tags entity waitResponse) P w in
          Z.of_nat (List.length (queue (client w))) = maxQueueSize (client w) ->
          queue (client w') = queue (client w)
          /\ (validMessage msg = true -> waitResponse = false ->
              let message :=
                makeMessage (messageData msg) (Date_now P (clock_reads w))
                  tags entity false in
              w' = if storage (client w)
                   then afterStoreOffline P message (afterClock w)
                   else afterClock w)).
Proof.
  intros P cfg Hcap.
  assert (H0 : queueBounded (client (initialWorld cfg)))
    by (unfold queueBounded; cbn; lia).
  split; [exact H0 |]. split.
  - intros es. apply steps_keeps; auto using queueBounded_maintained.
  - intros es msg tags entity waitResponse w w' Hfull. split.
    + now apply publish_full_queue.
    + intros Hv -> message. subst w'. unfold exec.
      pose proof (publish_queued_run P w msg tags entity Hv) as Hr.
      unfold run in Hr. cbv zeta in Hr. rewrite Hr. cbn [snd].
      replace (_ <? _) with false by lia. reflexivity.
Qed.

Lemma queue_never_exceeds_capacity_witness :
  let P := Demo.online in
  let cfg := Demo.offlineConfig in
  let es := [Demo.hello "m1"; Demo.hello "m2"] in
  let w := steps es P (initialWorld cfg) in
  let w' := exec (publish (Value (JStr "m3")) [] EmptyString false) P w in
  queueBounded (client (steps (es ++ [Demo.hello "m3"; SenderTick]) P (initialWorld cfg)))
  /\ queue (client w') = queue (client w)
  /\ List.length (db w') = 1%nat.
Proof.
  intros P cfg es w w'.
  destruct (queue_never_exceeds_capacity P cfg ltac:(cbn; lia))
    as (_ & Hinv & Hfull).
  split; [apply Hinv |].
  destruct (Hfull es (Value (JStr "m3")) [] EmptyString false eq_refl) as [Hq Hw].
  split; [exact Hq |].
  change (List.length
            (db (exec (publish (Value (JStr "m3")) [] EmptyString false) P
                   (steps es P (initialWorld cfg)))) = 1%nat).
  rewrite (Hw eq_refl eq_refl). reflexivity.
Defined.

(** C4.  For a valid message (a string or an object, not [null]) and
    [waitResponse = false], [publish] completes normally, with
    [undefined].  When the queue is below capacity the message built from
    the arguments is appended, so the length grows by exactly one and
    nothing else changes; when the queue is full and no offline store is
    configured, the client, the store and the network are left exactly as
    they were. *)
Theorem publish_queues_or_discards :
  forall (P : Platform) (w : World) msg tags entity,
    validMessage msg = true ->
    let w' := exec (publish msg tags entity false) P w in
    let message :=
      makeMessage (messageData msg) (Date_now P (clock_reads w)) tags entity false in
    result (publish msg tags entity false) P w = Normal None
    /\ (Z.of_nat (List.length (queue (client w))) < maxQueueSize (client w) ->
        client w' = set_queue (queue (client w) ++ [message]) (client w)
        /\ List.length (queue (client w')) = S (List.length (queue (client w)))
        /\ db w' = db w /\ requests w' = requests w /\ delivered w' = delivered w)
    /\ (maxQueueSize (client w) <= Z.of_nat (List.length (queue (client w))) ->
        storage (client w) = false ->
        client w' = client w
        /\ db w' = db w /\ requests w' = requests w /\ delivered w' = delivered w).
Proof.
  intros P w msg tags entity Hv w' message. subst w' message.
  pose proof (publish_queued_run P w msg tags entity Hv) as Hr.
  unfold run in Hr. cbv zeta in Hr. unfold result, exec. rewrite Hr. cbn [fst snd].
  split; [reflexivity |]. split.
  - intros Hlt. replace (_ <? _) with true by lia. cbn.
    rewrite length_app. cbn. repeat split; lia.
  - intros Hge Hst. replace (_ <? _) with false by lia. rewrite Hst.
    repeat split.
Qed.

Lemma publish_queues_or_discards_witness :
  let P := Demo.online in
  let w0 := initialWorld Demo.smallConfig in
  let w4 := steps [Demo.hello "a"; Demo.hello "b"; Demo.hello "c"; Demo.hello "d"] P w0 in
  result (publish (Value (JStr "e")) [] EmptyString false) P w4 = Normal None
  /\ List.length (queue (client (exec (publish (Value (JStr "a")) [] EmptyString false) P w0)))
     = 1%nat
  /\ client (exec (publish (Value (JStr "e")) [] EmptyString false) P w4) = client w4.
Proof.
  intros P w0 w4.
  destruct (publish_queues_or_discards P w4 (Value (JStr "e")) [] EmptyString eq_refl)
    as (Hok & _ & Hfull).
  destruct (publish_queues_or_discards P w0 (Value (JStr "a")) [] EmptyString eq_refl)
    as (_ & Hroom & _).
  split; [exact Hok |]. split.
  - destruct Hroom as (_ & Hlen & _); [vm_compute; reflexivity | exact Hlen].
  - destruct Hfull as (Hc & _); [vm_compute; discriminate | reflexivity | exact Hc].
Defined.

(** ** [sendHeartbeat] *)

Lemma Qltb_lt (a b : Q) : Qltb a b = true <-> (a < b)%Q.
Proof.
  unfold Qltb. rewrite negb_true_iff, <- not_true_iff_false, Qle_bool_iff.
  split; [apply Qnot_le_lt | apply Qlt_not_le].
Qed.

Lemma Qltb_ge (a b : Q) : Qltb a b = false <-> (b <= a)%Q.
Proof. unfold Qltb. rewrite negb_false_iff. apply Qle_bool_iff. Qed.

Ltac heartbeat_cases :=
  unfold run, sendHeartbeat, heartbeatField, bind; cbn;
  repeat match goal with
         | |- context [Qltb ?x 0] => destruct (Qltb x 0) eqn:?; cbn
         end.

Lemma sendHeartbeat_rejects (P : Platform) (w : World) (args : HeartbeatArgs) :
  (exists name q, In (name, Some q) (heartbeatFields args) /\ (q < 0)%Q) ->
  exists e, run (sendHeartbeat args) P w = (Throw e, w).
Proof.
  intros (name & q & Hin & Hq). apply Qltb_lt in Hq.
  destruct args as [a b c d]; cbn in Hin.
  destruct Hin as [H | [H | [H | [H | []]]]]; injection H as _ H; subst;
    repeat match goal with
           | x : option Q |- _ => destruct x
           end;
    heartbeat_cases; try congruence; eauto.
Qed.

Lemma sendHeartbeat_sends (P : Platform) (w : World) (args : HeartbeatArgs) :
  (forall name q, In (name, Some q) (heartbeatFields args) -> (0 <= q)%Q) ->
  run (sendHeartbeat args) P w
  = run (_publishMessage
           {| msg_type := Heartbeat;
              data := JObj (providedFields args);
              timestamp := Date_now P (clock_reads w) / 1000 * 1000;
              context := None;
              dest := None |}) P (afterClock w).
Proof.
  intros Hall.
  assert (Hf : forall name q, In (name, Some q) (heartbeatFields args) ->
                              Qltb q 0 = false)
    by (intros name q Hin; apply Qltb_ge; eauto).
  destruct args as [a b c d]; cbn in Hf.
  destruct a, b, c, d; heartbeat_cases; try reflexivity; exfalso;
    match goal with
    | H : Qltb ?x 0 = true |- _ =>
        assert (Qltb x 0 = false) by (eapply Hf; eauto 6); congruence
    end.
Qed.

(** C7.  If some provided field of the argument of [sendHeartbeat] is
    negative, the call rejects and the world is exactly as before: no
    request has been issued.  If every provided field is non-negative, the
    call does not reject, and exactly one request is issued at once: the
    POST of a heartbeat message carrying the provided fields; the queue
    and the store are not involved. *)
Theorem sendHeartbeat_validates_before_sending :
  forall (P : Platform) (w : World) (args : HeartbeatArgs),
    ((exists name q, In (name, Some q) (heartbeatFields args) /\ (q < 0)%Q) ->
     exists e, run (sendHeartbeat args) P w = (Throw e, w))
    /\ ((forall name q, In (name, Some q) (heartbeatFields args) -> (0 <= q)%Q) ->
        let w' := exec (sendHeartbeat args) P w in
        (exists r, result (sendHeartbeat args) P w = Normal r)
        /\ requests w'
           = requests w
             ++ [PostMessage
                   {| msg_type := Heartbeat;
                      data := JObj (providedFields args);
                      timestamp := Date_now P (clock_reads w) / 1000 * 1000;
                      context := None;
                      dest := None |}]
        /\ client w' = client w /\ db w' = db w).
Proof.
  intros P w args. split.
  - apply sendHeartbeat_rejects.
  - intros Hall w'. subst w'. unfold result, exec.
    pose proof (sendHeartbeat_sends P w args Hall) as Hr. unfold run in Hr.
    rewrite Hr. cbn. repeat split. eexists; reflexivity.
Qed.

Lemma sendHeartbeat_validates_before_sending_witness :
  let P := Demo.online in
  let w := initialWorld defaultConfig in
  let bad := mkHeartbeatArgs (Some (-1 # 1)) (Some 8%Q) None None in
  let good := mkHeartbeatArgs (Some 4%Q) (Some 8%Q) None (Some 0%Q) in
  (exists e, run (sendHeartbeat bad) P w = (Throw e, w))
  /\ (exists r, result (sendHeartbeat good) P w = Normal r)
  /\ List.length (requests (exec (sendHeartbeat good) P w)) = 1%nat.
Proof.
  intros P w bad good.
  destruct (sendHeartbeat_validates_before_sending P w bad) as [Hbad _].
  destruct (sendHeartbeat_validates_before_sending P w good) as [_ Hgood].
  split.
  - apply Hbad. exists "mem_free", (-1 # 1)%Q. split; [cbn; auto | reflexivity].
  - destruct Hgood as (Hr & Hreq & _).
    + intros name q [H | [H | [H | [H | []]]]];
        try discriminate H; injection H as _ <-; discriminate.
    + split; [exact Hr |]. rewrite Hreq. reflexivity.
Defined.

(** ** The connection monitor *)

Lemma checkConnectionState_cached (P : Platform) (w : World) :
  Date_now P (clock_reads w) < _lastConnectionCheck (client w) + 30000 ->
  run checkConnectionState P w
  = (Normal (_connectionState (client w)), afterClock w).
Proof.
  intros Hlt. unfold run, checkConnectionState, bind; cbn.
  replace (_ <? _) with true by lia. reflexivity.
Qed.

Lemma checkConnectionState_probes (P : Platform) (w : World) :
  _lastConnectionCheck (client w) + 30000 <= Date_now P (clock_reads w) ->
  forall reachable,
    reachable = match fetch_result P (List.length (requests w)) HeadStatus with
                | Response status _ => status <? 500
                | NetworkFailure | Timeout => false
                end ->
    run checkConnectionState P w
    = (Normal reachable, afterProbe (Date_now P (clock_reads w)) reachable w).
Proof.
  intros Hge reachable ->. unfold run, checkConnectionState, bind; cbn.
  replace (_ <? _) with false by lia. reflexivity.
Qed.

Lemma probeCount_afterClock (w : World) : probeCount (afterClock w) = probeCount w.
Proof. reflexivity. Qed.

Lemma probeCount_afterProbe t b (w : World) :
  probeCount (afterProbe t b w) = S (probeCount w).
Proof.
  unfold probeCount, afterProbe; cbn.
  rewrite filter_app, length_app. cbn. lia.
Qed.

Lemma steps_cons e es P w : steps (e :: es) P w = steps es P (step e P w).
Proof. reflexivity. Qed.

(** Once a probe has been issued inside the window, no later call of
    the window probes. *)
Lemma no_probe_while_fresh (P : Platform) (B : Z) (n : nat) :
  forall w,
    (forall k, (k < n)%nat -> Date_now P (clock_reads w + k) < B) ->
    B <= _lastConnectionCheck (client w) + 30000 ->
    probeCount (steps (repeat CallCheckConnectionState n) P w) = probeCount w.
Proof.
  induction n as [| n IH]; intros w Hread Hlast; [reflexivity |].
  cbn [repeat]. rewrite steps_cons. cbn [step]. unfold exec.
  pose proof (Hread 0%nat ltac:(lia)) as H0. rewrite Nat.add_0_r in H0.
  pose proof (checkConnectionState_cached P w ltac:(lia)) as Hr.
  unfold run in Hr. rewrite Hr. cbn [snd].
  rewrite IH; [reflexivity | | exact Hlast].
  intros k Hk. cbn. specialize (Hread (S k) ltac:(lia)).
  now rewrite Nat.add_succ_r in Hread.
Qed.

Lemma one_probe_per_window (P : Platform) (B : Z) (n : nat) :
  forall w,
    (forall k, (k < n)%nat ->
       B - 30000 <= Date_now P (clock_reads w + k) < B) ->
    (probeCount (steps (repeat CallCheckConnectionState n) P w)
     <= S (probeCount w))%nat.
Proof.
  induction n as [| n IH]; intros w Hread; [cbn; lia |].
  cbn [repeat]. rewrite steps_cons. cbn [step]. unfold exec.
  pose proof (Hread 0%nat ltac:(lia)) as H0. rewrite Nat.add_0_r in H0.
  assert (Hnext : forall k, (k < n)%nat ->
            B - 30000 <= Date_now P (S (clock_reads w) + k) < B).
  { intros k Hk. specialize (Hread (S k) ltac:(lia)).
    now rewrite Nat.add_succ_r in Hread. }
  destruct (Z.lt_ge_cases (Date_now P (clock_reads w))
              (_lastConnectionCheck (client w) + 30000)) as [Hc | Hp].
  - pose proof (checkConnectionState_cached P w Hc) as Hr.
    unfold run in Hr. rewrite Hr. cbn [snd].
    rewrite <- (probeCount_afterClock w). apply IH. exact Hnext.
  - pose proof (checkConnectionState_probes P w Hp _ eq_refl) as Hr.
    unfold run in Hr. rewrite Hr. cbn [snd].
    rewrite (no_probe_while_fresh P B).
    + rewrite probeCount_afterProbe. lia.
    + intros k Hk. apply Hnext. exact Hk.
    + cbn. lia.
Qed.

(** Calls of [checkConnectionState] on their own.  The state is [true]
    at construction.  A call less than 30 s after the time the cooldown
    was last restarted returns the
    state it finds and issues no request.  A call at or after the end of
    the cooldown issues exactly one probe, restarts the cooldown, and sets
    the state to [true] when the probe is answered with a status below
    500, to [false] when it is answered with a status of 500 or more, fails
    or times out.  However many calls are made while the clock stays
    inside one window of 30 s, at most one of them probes. *)
Theorem checkConnectionState_throttled :
  forall (P : Platform) (w : World),
    (forall cfg, _connectionState (client (initialWorld cfg)) = true)
    /\ (Date_now P (clock_reads w) < _lastConnectionCheck (client w) + 30000 ->
        run checkConnectionState P w
        = (Normal (_connectionState (client w)), afterClock w)
        /\ requests (exec checkConnectionState P w) = requests w)
    /\ (_lastConnectionCheck (client w) + 30000 <= Date_now P (clock_reads w) ->
        let now := Date_now P (clock_reads w) in
        (forall status body,
           fetch_result P (List.length (requests w)) HeadStatus = Response status body ->
           (status < 500 ->
            run checkConnectionState P w = (Normal true, afterProbe now true w))
           /\ (500 <= status ->
               run checkConnectionState P w = (Normal false, afterProbe now false w)))
        /\ (fetch_result P (List.length (requests w)) HeadStatus = NetworkFailure
            \/ fetch_result P (List.length (requests w)) HeadStatus = Timeout ->
            run checkConnectionState P w = (Normal false, afterProbe now false w)))
    /\ (forall n B,
          (forall k, (k < n)%nat ->
             B - 30000 <= Date_now P (clock_reads w + k) < B) ->
          (probeCount (steps (repeat CallCheckConnectionState n) P w)
           <= S (probeCount w))%nat).
Proof.
  intros P w. split; [reflexivity |]. split; [| split].
  - intros Hc. pose proof (checkConnectionState_cached P w Hc) as Hr.
    split; [exact Hr |]. unfold exec. unfold run in Hr. now rewrite Hr.
  - intros Hp now. subst now. split.
    + intros status body Hres. split; intros Hs;
        apply checkConnectionState_probes; auto; rewrite Hres; lia.
    + intros [Hres | Hres]; apply checkConnectionState_probes; auto;
        now rewrite Hres.
  - intros n B. apply one_probe_per_window.
Qed.

Lemma checkConnectionState_throttled_witness :
  let w := initialWorld defaultConfig in
  let w1 := exec checkConnectionState Demo.online w in
  run checkConnectionState Demo.online w1 = (Normal true, afterClock w1)
  /\ run checkConnectionState Demo.online w
     = (Normal true, afterProbe 1700000000000 true w)
  /\ run checkConnectionState Demo.offline w
     = (Normal false, afterProbe 1700000000000 false w)
  /\ (probeCount (steps (repeat CallCheckConnectionState 5) Demo.online w) <= 1)%nat.
Proof.
  intros w w1.
  destruct (checkConnectionState_throttled Demo.online w1) as (_ & Hcached & _).
  destruct (checkConnectionState_throttled Demo.online w) as (_ & _ & Hon & Hwin).
  destruct (checkConnectionState_throttled Demo.offline w) as (_ & _ & Hoff & _).
  split; [| split; [| split]].
  - apply Hcached. vm_compute. reflexivity.
  - destruct Hon as [Hresp _]; [vm_compute; discriminate |].
    apply (Hresp 200 (Some (JObj [("content", JStr "id-1")])) eq_refl).
    lia.
  - destruct Hoff as [_ Hfail]; [vm_compute; discriminate |].
    apply Hfail. left. reflexivity.
  - apply (Hwin 5%nat 1700000030000).
    intros k Hk. cbn [Demo.online Demo.platformWith Date_now w initialWorld clock_reads].
    lia.
Defined.

(** ** Polling *)

Lemma transformCheckMessage_normal (m : Json) (P : Platform) (w : World) :
  exists r w', transformCheckMessage m P w = (Normal r, w').
Proof.
  unfold transformCheckMessage, bind.
  destruct m; cbn; try (eexists; eexists; reflexivity).
  destruct (assoc "timestamp" fields) as [x |]; cbn;
    [destruct (truthy x); cbn |]; eexists; eexists; reflexivity.
Qed.

Lemma dispatch_normal (ms : list Json) (P : Platform) :
  forall w, exists w',
    forEach (fun checkMsg =>
               m <- transformCheckMessage checkMsg ;;
               match m with
               | Some message => deliver message
               | None => ret tt
               end) ms P w = (Normal tt, w').
Proof.
  induction ms as [| m ms IH]; intros w; cbn [forEach].
  - eexists; reflexivity.
  - unfold bind at 1. unfold bind at 1.
    destruct (transformCheckMessage_normal m P w) as (r & w1 & ->).
    destruct r as [message |]; cbn; apply IH.
Qed.

Lemma handleCheckMessagesResponse_normal (ms : list Json) (P : Platform) (w : World) :
  exists w', handleCheckMessagesResponse ms P w = (Normal tt, w').
Proof.
  unfold handleCheckMessagesResponse.
  destruct ms as [| m ms]; [eexists; reflexivity |].
  unfold bind, getClient. destruct (negb (callback (client w)));
    [eexists; reflexivity | apply dispatch_normal].
Qed.

Lemma checkMessagesAPI_not_200 (P : Platform) (w : World) (limit : Z) status body :
  fetch_result P (List.length (requests w)) (GetCheckMessages limit)
  = Response status body ->
  status <> 200 ->
  client (exec (checkMessagesAPI limit) P w) = client w.
Proof.
  intros Hr Hs. unfold exec, checkMessagesAPI, bind, fetch. cbn. rewrite Hr.
  destruct (status =? 204); [reflexivity |].
  replace (status =? 200) with false by lia. reflexivity.
Qed.

Lemma checkMessagesAPI_thrown (P : Platform) (w : World) (limit : Z) :
  let r := fetch_result P (List.length (requests w)) (GetCheckMessages limit) in
  r = NetworkFailure \/ r = Timeout
  \/ r = Response 200 None \/ r = Response 200 (Some JNull) ->
  client (exec (checkMessagesAPI limit) P w)
  = set_connectionState false (client w).
Proof.
  intros r Hr. subst r. unfold exec, checkMessagesAPI, bind, fetch. cbn.
  destruct Hr as [-> | [-> | [-> | ->]]]; reflexivity.
Qed.

Lemma checkMessagesAPI_200 (P : Platform) (w : World) (limit : Z) (body : Json) :
  fetch_result P (List.length (requests w)) (GetCheckMessages limit)
  = Response 200 (Some body) ->
  body <> JNull ->
  _connectionState (client (exec (checkMessagesAPI limit) P w)) = true.
Proof.
  intros Hr Hb. unfold exec, checkMessagesAPI.
  unfold bind at 1. unfold fetch at 1. cbn [fst snd]. cbn [requests]. rewrite Hr.
  cbn [Z.eqb Pos.eqb negb].
  assert (Hrest : forall (m : M unit) w0,
            (exists w1, m P w0 = (Normal tt, w1)) ->
            _connectionState
              (client (snd ((m ;; t <- now ;; modify (set_lastMsgCheck t) ;;
                             modify (set_connectionState true)) P w0))) = true).
  { intros m w0 [w1 Hm]. unfold bind at 1. rewrite Hm. reflexivity. }
  destruct body as [| b | q | s | items | fields]; try congruence;
    try (apply Hrest; eexists; reflexivity).
  apply Hrest. cbn [prop].
  destruct (assoc "messages" fields) as [[| | | | [| m ms] |] |];
    try (eexists; reflexivity).
  apply handleCheckMessagesResponse_normal.
Qed.

(** C9 (as amended).  A poll answered with a status other than 200,
    204 included, leaves the client as it was, its connection state in
    particular.  A poll answered 200 with a body that is JSON and not
    [null] sets the state to [true], whether or not the body carries
    messages.  A poll that fails, times out, or is answered 200 with a
    body that cannot be read sets the state to [false]. *)
Theorem checkMessagesAPI_connection_state :
  forall (P : Platform) (w : World) (limit : Z),
    let r := fetch_result P (List.length (requests w)) (GetCheckMessages limit) in
    let w' := exec (checkMessagesAPI limit) P w in
    (forall status body,
       r = Response status body -> status <> 200 -> client w' = client w)
    /\ (forall body,
          r = Response 200 (Some body) -> body <> JNull ->
          _connectionState (client w') = true)
    /\ (r = NetworkFailure \/ r = Timeout
        \/ r = Response 200 None \/ r = Response 200 (Some JNull) ->
        client w' = set_connectionState false (client w)).
Proof.
  intros P w limit r w'. subst r w'. split; [| split].
  - intros status body. apply checkMessagesAPI_not_200.
  - intros body. apply checkMessagesAPI_200.
  - apply checkMessagesAPI_thrown.
Qed.

Lemma checkMessagesAPI_connection_state_witness :
  let w := initialWorld defaultConfig in
  let w1 := step CallCheckConnectionState Demo.blipThenEmptyList w in
  client (exec (checkMessagesAPI 1) Demo.serverError w) = client w
  /\ _connectionState (client w1) = false
  /\ _connectionState (client (exec (checkMessagesAPI 1) Demo.blipThenEmptyList w1)) = true
  /\ client (exec (checkMessagesAPI 1) Demo.offline w)
     = set_connectionState false (client w).
Proof.
  intros w w1.
  destruct (checkMessagesAPI_connection_state Demo.serverError w 1) as (Hs & _ & _).
  destruct (checkMessagesAPI_connection_state Demo.blipThenEmptyList w1 1)
    as (_ & Hok & _).
  destruct (checkMessagesAPI_connection_state Demo.offline w 1) as (_ & _ & Hf).
  split; [| split; [| split]].
  - apply (Hs 500 None eq_refl). discriminate.
  - reflexivity.
  - apply (Hok (JObj [("messages", JArr [])]) eq_refl). discriminate.
  - apply Hf. left. reflexivity.
Defined.

(** C9 as stated fails in both directions.  After a failed probe has
    set the state to [false], a poll answered 204 leaves it [false]; and
    from the initial state [true], a poll answered 500 leaves it
    [true]. *)
Lemma poll_outcomes_leave_state_as_found :
  let w := initialWorld defaultConfig in
  let w1 := step CallCheckConnectionState Demo.blipThenNoContent w in
  fetch_result Demo.blipThenNoContent (List.length (requests w1)) (GetCheckMessages 1)
  = Response 204 None
  /\ _connectionState (client w1) = false
  /\ _connectionState (client (step (CallCheckMessages None) Demo.blipThenNoContent w1))
     = false
  /\ fetch_result Demo.serverError (List.length (requests w)) (GetCheckMessages 1)
     = Response 500 None
  /\ _connectionState (client w) = true
  /\ _connectionState (client (step (CallCheckMessages None) Demo.serverError w))
     = true.
Proof. repeat split. Qed.

(** ** The period of the sender timer *)

Lemma period_maintained (p : option Q) :
  Maintained (fun c => senderInterval c = p).
Proof.
  constructor; cbn; auto.
  intros m c H. unfold enqueue. destruct (_ <? _); cbn; exact H.
Qed.

(** The period of the timer is the interval computed when [startSender]
    ran; no tick and no other method changes it. *)
Lemma timer_period_fixed (P : Platform) (es : list Event) :
  forallb leavesTimer es = true ->
  forall w,
    senderInterval (client (steps es P (step CallStartSender P w)))
    = Some (calculateBatchInterval (client w)).
Proof.
  intros Hes w.
  assert (H1 : senderInterval (client (step CallStartSender P w))
               = Some (calculateBatchInterval (client w))) by reflexivity.
  revert Hes H1. generalize (step CallStartSender P w).
  generalize (Some (calculateBatchInterval (client w))). intros p.
  induction es as [| e es IH]; intros w1 Hes H1; [exact H1 |].
  cbn [forallb] in Hes. apply andb_true_iff in Hes as [He Hes].
  rewrite steps_cons. apply IH; [exact Hes |].
  pose proof (period_maintained p) as HI.
  destruct e; try discriminate He; cbn [step]; unfold exec.
  - now apply (keeps_publish _ HI).
  - now apply keeps_sendHeartbeat.
  - apply keeps_liftClient; [intros c; apply (by_getBatch HI) | exact H1].
  - now apply (keeps_checkMessages _ HI).
  - now apply (keeps_checkConnectionState _ HI).
  - now apply keeps_processOfflineMessages.
  - now apply (keeps_senderTick _ HI).
Qed.

(** C6 at a concrete run: a sender started on an empty queue of capacity
    4 has period 100 ms; after three messages are queued and a tick has
    sent one of them, the load is 50 and [calculateBatchInterval] gives
    550 ms, but the timer still has the period it was created with, after
    that tick and after the next one. *)
Theorem sender_period_not_reevaluated :
  let P := Demo.online in
  let w := initialWorld Demo.slowDrainConfig in
  let es := [Demo.hello "a"; Demo.hello "b"; Demo.hello "c"; SenderTick] in
  let w1 := steps es P (step CallStartSender P w) in
  let w2 := steps (es ++ [SenderTick]) P (step CallStartSender P w) in
  (calculateBatchInterval (client w) == 100)%Q
  /\ (queueLoad (client w1) == 50)%Q
  /\ (calculateBatchInterval (client w1) == 550)%Q
  /\ senderInterval (client w1) = Some (calculateBatchInterval (client w))
  /\ senderInterval (client w2) = Some (calculateBatchInterval (client w)).
Proof.
  intros P w es w1 w2.
  split; [vm_compute; reflexivity |].
  split; [vm_compute; reflexivity |].
  split; [vm_compute; reflexivity |].
  split.
  - exact (timer_period_fixed P es eq_refl w).
  - exact (timer_period_fixed P (es ++ [SenderTick]) eq_refl w).
Qed.

(** ** Spilling to the offline store and replaying *)

Lemma message_tags_makeMessage d t tags entity waitResponse :
  message_tags (makeMessage d t tags entity waitResponse)
  = if has_items tags then Some (JArr tags) else None.
Proof.
  unfold message_tags, makeMessage; cbn.
  destruct tags; cbn; [| reflexivity].
  destruct waitResponse; cbn; [reflexivity |].
  destruct (nonempty entity); reflexivity.
Qed.

Lemma tags_or_null_makeMessage d t tags entity waitResponse :
  tags_or_null (makeMessage d t tags entity waitResponse)
  = if has_items tags then Some (JArr tags) else None.
Proof.
  unfold tags_or_null. rewrite message_tags_makeMessage.
  destruct tags; reflexivity.
Qed.

Lemma forEach_storeOffline (P : Platform) (batch : list Message) :
  forall w,
    forEach storeOffline batch P w
    = (Normal tt, fold_left (fun w0 m => afterStoreOffline P m w0) batch w).
Proof.
  induction batch as [| m batch IH]; intros w; cbn [forEach fold_left];
    [reflexivity |].
  unfold bind. pose proof (storeOffline_run P m w) as Hr. unfold run in Hr.
  rewrite Hr. apply IH.
Qed.

(** [_storeBatchOffline] stores the messages of the batch one by one,
    in order. *)
Lemma storeBatchOffline_run (P : Platform) (w : World) (batch : list Message) :
  storage (client w) = true ->
  run (_storeBatchOffline batch) P w
  = (Normal tt, fold_left (fun w0 m => afterStoreOffline P m w0) batch w).
Proof.
  intros Hs. unfold run, _storeBatchOffline, bind at 1, getClient. rewrite Hs.
  destruct batch as [| m batch]; [reflexivity |].
  cbn [negb has_items orb]. apply forEach_storeOffline.
Qed.

(** What the replay loop rebuilds from the record of a message that
    [publish] created. *)
Lemma restoreMessage_of_spilled (P : Platform) (w : World)
    d t tags entity waitResponse msgId expiresAt :
  JSON_parse P EmptyString = None ->
  JSON_parse P (JSON_stringify P d) = Some d ->
  (tags <> [] -> JSON_parse P (JSON_stringify P (JArr tags)) = Some (JArr tags)) ->
  let message := makeMessage d t tags entity waitResponse in
  run (restoreMessage
         (makeRecord P msgId (data message) (tags_or_null message) expiresAt)) P w
  = (Normal (Some {| msg_type := Publish;
                     data := d;
                     timestamp := Date_now P (clock_reads w);
                     context :=
                       if has_items tags
                       then Some {| ctx_tags := Some (JArr tags); ctx_wait := None |}
                       else None;
                     dest := None |}),
     afterClock w).
Proof.
  intros Hempty Hd Ht message. subst message.
  unfold run, restoreMessage, bind, platform, makeRecord.
  cbn [stored_data stored_tags data makeMessage].
  rewrite Hd, tags_or_null_makeMessage.
  destruct tags as [| x l]; [reflexivity |].
  cbn [has_items truthy].
  specialize (Ht ltac:(discriminate)).
  destruct (String.eqb_spec (JSON_stringify P (JArr (x :: l))) EmptyString) as [He | Hne].
  - rewrite He, Hempty in Ht. discriminate.
  - unfold nonempty.
    destruct (String.eqb_spec (JSON_stringify P (JArr (x :: l))) EmptyString);
      [contradiction |].
    cbn [negb]. rewrite Ht. reflexivity.
Qed.

(** The two halves of the round trip, each on its own.  Both spill
    paths -- [publish] on a full queue with a store
    configured, and [_storeBatchOffline] in the sender tick, message by
    message -- put a record made from [message.data] and [context.tags]
    only, so two messages with the same data and tags leave the same
    record.  Where
    [JSON.parse] inverts [JSON.stringify] on the data and on the tags,
    the message that replay rebuilds from the record has type [publish],
    the data and the tags of the original, the time of the replay as its
    timestamp, and neither [dest] nor [wait]: it does not depend on the
    timestamp, destination or wait flag of the original. *)
Theorem spill_replay_round_trip :
  forall (P : Platform) (w wr : World) msg tags entity waitResponse t msgId expiresAt,
    let message := makeMessage (messageData msg) t tags entity waitResponse in
    let record :=
      makeRecord P msgId (data message) (tags_or_null message) expiresAt in
    JSON_parse P EmptyString = None ->
    JSON_parse P (JSON_stringify P (messageData msg)) = Some (messageData msg) ->
    (tags <> [] -> JSON_parse P (JSON_stringify P (JArr tags)) = Some (JArr tags)) ->
    (* the two spill paths *)
    (validMessage msg = true ->
     maxQueueSize (client w) <= Z.of_nat (List.length (queue (client w))) ->
     storage (client w) = true ->
     exec (publish msg tags entity false) P w
     = afterStoreOffline P
         (makeMessage (messageData msg) (Date_now P (clock_reads w)) tags entity false)
         (afterClock w))
    /\ (storage (client w) = true ->
        forall batch,
          exec (_storeBatchOffline batch) P w
          = fold_left (fun w0 m => afterStoreOffline P m w0) batch w)
    /\ (forall t' entity' waitResponse',
          afterStoreOffline P (makeMessage (messageData msg) t' tags entity' waitResponse') w
          = afterStoreOffline P message w)
    (* the replayed message *)
    /\ (exists restored,
          run (restoreMessage record) P wr = (Normal (Some restored), afterClock wr)
          /\ msg_type restored = Publish
          /\ data restored = data message
          /\ message_tags restored = message_tags message
          /\ timestamp restored = Date_now P (clock_reads wr)
          /\ dest restored = None
          /\ message_wait restored = None
          /\ forall t' entity' waitResponse',
               let message' :=
                 makeMessage (messageData msg) t' tags entity' waitResponse' in
               run (restoreMessage
                      (makeRecord P msgId (data message') (tags_or_null message')
                         expiresAt)) P wr
               = (Normal (Some restored), afterClock wr)).
Proof.
  intros P w wr msg tags entity waitResponse t msgId expiresAt message record
    Hempty Hd Ht.
  split; [| split; [| split]].
  - intros Hv Hfull Hs. unfold exec.
    pose proof (publish_queued_run P w msg tags entity Hv) as Hr.
    unfold run in Hr. cbv zeta in Hr. rewrite Hr. cbn [snd].
    replace (_ <? _) with false by lia. now rewrite Hs.
  - intros Hs batch. unfold exec.
    pose proof (storeBatchOffline_run P w batch Hs) as Hr.
    unfold run in Hr. now rewrite Hr.
  - intros t' entity' waitResponse'. subst message.
    unfold afterStoreOffline. rewrite !tags_or_null_makeMessage. reflexivity.
  - eexists. split; [apply restoreMessage_of_spilled; assumption |].
    subst message. rewrite message_tags_makeMessage.
    repeat split.
    + unfold message_tags; cbn. destruct tags; reflexivity.
    + unfold message_wait; cbn. destruct tags; reflexivity.
    + intros t' entity' waitResponse' message'. subst message'.
      now apply restoreMessage_of_spilled.
Qed.

(** ** Offline replay *)

Lemma restoreMessage_run (P : Platform) (r : OfflineRecord) (w : World) :
  if parses P r
  then exists m, restoreMessage r P w = (Normal (Some m), afterClock w)
  else restoreMessage r P w = (Normal None, w).
Proof.
  unfold parses, restoreMessage, bind, platform; cbn.
  destruct (JSON_parse P (stored_data r)) as [d |]; [| reflexivity].
  destruct (stored_tags r) as [s |]; [| eexists; reflexivity].
  destruct (nonempty s); [| eexists; reflexivity].
  destruct (JSON_parse P s); [eexists |]; reflexivity.
Qed.

(** One page of the loop: an id for every record, a message for every
    record that parses; only the clock is read. *)
Lemma convertStored_run (P : Platform) (l : list OfflineRecord) :
  forall w, exists ms,
    convertStored l P w = (Normal (ms, map id l), afterClocks (List.length ms) w)
    /\ List.length ms = List.length (filter (parses P) l).
Proof.
  induction l as [| r l IH]; intros w; cbn [convertStored].
  - exists []. split; [destruct w; reflexivity | reflexivity].
  - unfold bind at 1. pose proof (restoreMessage_run P r w) as Hr.
    cbn [filter map]. destruct (parses P r).
    + destruct Hr as [m ->]. unfold bind at 1.
      destruct (IH (afterClock w)) as (ms & -> & Hlen).
      exists (m :: ms). cbn. split; [| now rewrite Hlen].
      unfold ret, afterClocks, afterClock; cbn.
      now rewrite Nat.add_succ_r.
    + rewrite Hr. unfold bind at 1.
      destruct (IH w) as (ms & -> & Hlen).
      exists ms. split; [reflexivity | exact Hlen].
Qed.

Lemma deleteMessages_run (P : Platform) (ids : list string) (w : World) :
  deleteMessages ids P w = (Normal tt, with_db (delete_ids ids (db w)) w).
Proof.
  destruct ids as [| k ids]; [| reflexivity].
  unfold deleteMessages, ret, delete_ids, with_db. cbn [existsb negb].
  replace (filter (fun _ => true) (db w)) with (db w);
    [destruct w; reflexivity |].
  induction (db w) as [| r l IH]; cbn; [reflexivity | now rewrite <- IH].
Qed.

Lemma publishMessages_run (P : Platform) (ms : list Message) (w : World) :
  ms <> [] ->
  _publishMessages ms P w
  = (Normal (batchAccepted (fetch_result P (List.length (requests w)) (PostMessages ms))),
     afterRequest (PostMessages ms) w).
Proof.
  intros Hne. destruct ms as [| m ms]; [contradiction |].
  unfold _publishMessages, bind, fetch, ret, batchAccepted, afterRequest.
  destruct (fetch_result _ _ _); reflexivity.
Qed.

(** One iteration of the replay loop on a page that is not empty. *)
Lemma replayLoop_iteration (P : Platform) fuel totalCount processed (w : World) :
  processed < totalCount ->
  let page := replayPage (Date_now P (clock_reads w)) (db w) in
  let ms := pageMessages P page (afterClock w) in
  let w1 := afterClocks (List.length ms) (afterClock w) in
  page <> [] ->
  List.length ms = List.length (filter (parses P) page)
  /\ replayLoop (S fuel) totalCount processed P w
     = if has_items ms then
         if batchAccepted
              (fetch_result P (List.length (requests w)) (PostMessages ms))
         then replayLoop fuel totalCount
                (processed + Z.of_nat (List.length ms)) P
                (with_db (delete_ids (map id page) (db w))
                   (afterRequest (PostMessages ms) w1))
         else (Normal processed, afterRequest (PostMessages ms) w1)
       else (Normal (processed + Z.of_nat (List.length (map id page))),
             with_db (delete_ids (map id page) (db w)) w1).
Proof.
  intros Hlt page ms w1 Hpage. subst w1 ms. unfold pageMessages.
  cbn [replayLoop].
  replace (processed <? totalCount) with true by lia.
  unfold bind at 1. unfold getAllMessages, bind at 1, now, getDb, ret, bind.
  cbn [fst snd Z.eqb db clock_reads]. fold (afterClock w).
  change (firstn (Z.to_nat 50) (filter (live (Date_now P (clock_reads w))) (db w)))
    with page.
  destruct page as [| r page'] eqn:Ep; [contradiction |]. rewrite <- Ep.
  destruct (convertStored_run P page (afterClock w)) as (ms & Hc & Hlen).
  rewrite Hc. cbn [fst snd]. split; [exact Hlen |].
  destruct ms as [| m ms]; cbn [has_items].
  - rewrite deleteMessages_run. reflexivity.
  - rewrite publishMessages_run by discriminate.
    cbn [afterClocks afterClock requests].
    destruct (batchAccepted _); [| reflexivity].
    rewrite deleteMessages_run. reflexivity.
Qed.

Lemma replayLoop_empty_page (P : Platform) fuel totalCount processed (w : World) :
  processed < totalCount ->
  replayPage (Date_now P (clock_reads w)) (db w) = [] ->
  replayLoop (S fuel) totalCount processed P w = (Normal processed, afterClock w).
Proof.
  intros Hlt Hpage. cbn [replayLoop].
  replace (processed <? totalCount) with true by lia.
  unfold bind at 1. unfold getAllMessages, bind at 1, now, getDb, ret, bind.
  cbn [fst snd Z.eqb db clock_reads]. fold (afterClock w).
  change (firstn (Z.to_nat 50) (filter (live (Date_now P (clock_reads w))) (db w)))
    with (replayPage (Date_now P (clock_reads w)) (db w)).
  rewrite Hpage. reflexivity.
Qed.

Lemma replayLoop_done (P : Platform) fuel totalCount processed (w : World) :
  totalCount <= processed ->
  replayLoop fuel totalCount processed P w = (Normal processed, w).
Proof.
  intros Hge. destruct fuel; cbn [replayLoop]; [reflexivity |].
  replace (processed <? totalCount) with false by lia. reflexivity.
Qed.

(** The loop is total: every iteration that goes on raises [processed],
    so any fuel of at least [totalCount - processed] gives the same
    result. *)
Lemma replayLoop_enough_fuel (P : Platform) (totalCount : Z) (fuel1 : nat) :
  forall fuel2 processed w,
    totalCount - processed <= Z.of_nat fuel1 ->
    totalCount - processed <= Z.of_nat fuel2 ->
    replayLoop fuel1 totalCount processed P w
    = replayLoop fuel2 totalCount processed P w.
Proof.
  induction fuel1 as [| fuel1 IH]; intros fuel2 processed w H1 H2.
  - rewrite !replayLoop_done by lia. reflexivity.
  - destruct (Z.lt_ge_cases processed totalCount) as [Hlt | Hge];
      [| rewrite !replayLoop_done by lia; reflexivity].
    destruct fuel2 as [| fuel2]; [lia |].
    destruct (replayPage (Date_now P (clock_reads w)) (db w)) eqn:Ep.
    + rewrite !replayLoop_empty_page by assumption. reflexivity.
    + assert (Hne : replayPage (Date_now P (clock_reads w)) (db w) <> [])
        by (rewrite Ep; discriminate).
      destruct (replayLoop_iteration P fuel1 totalCount processed w Hlt Hne)
        as [_ ->].
      destruct (replayLoop_iteration P fuel2 totalCount processed w Hlt Hne)
        as [_ ->].
      destruct (pageMessages _ _ _) as [| m ms]; cbn [has_items]; [reflexivity |].
      destruct (batchAccepted _); [| reflexivity].
      apply IH; cbn [List.length]; lia.
Qed.

(** Replay removes records from the store and does nothing else to it. *)
Lemma replayLoop_only_deletes (P : Platform) (fuel : nat) :
  forall totalCount processed w r,
    In r (db (snd (replayLoop fuel totalCount processed P w))) -> In r (db w).
Proof.
  induction fuel as [| fuel IH]; intros totalCount processed w r; [cbn; auto |].
  destruct (Z.lt_ge_cases processed totalCount) as [Hlt | Hge];
    [| rewrite replayLoop_done by lia; auto].
  destruct (replayPage (Date_now P (clock_reads w)) (db w)) eqn:Ep.
  - rewrite replayLoop_empty_page by assumption. auto.
  - assert (Hne : replayPage (Date_now P (clock_reads w)) (db w) <> [])
      by (rewrite Ep; discriminate).
    destruct (replayLoop_iteration P fuel totalCount processed w Hlt Hne)
      as [_ ->]. rewrite Ep.
    destruct (has_items _).
    + destruct (batchAccepted _); [| auto].
      intros Hin. apply IH in Hin. cbn in Hin.
      unfold delete_ids in Hin. now apply filter_In in Hin.
    + cbn. unfold delete_ids. intros Hin. now apply filter_In in Hin.
Qed.

Lemma processOfflineMessages_exec (P : Platform) (w : World) :
  storage (client w) = true ->
  let totalCount :=
    Z.of_nat (List.length (filter (live (Date_now P (clock_reads w))) (db w))) in
  exec processOfflineMessages P w
  = if totalCount =? 0 then afterClock w
    else snd (replayLoop (Z.to_nat totalCount) totalCount 0 P (afterClock w)).
Proof.
  intros Hs totalCount. subst totalCount.
  unfold exec, processOfflineMessages, bind at 1, getClient. rewrite Hs.
  cbn [negb]. unfold bind at 1, getMessageCount, bind at 1, now, getDb, ret, bind.
  cbn [fst snd db clock_reads]. fold (afterClock w).
  destruct (_ =? 0); [reflexivity |].
  destruct (replayLoop _ _ _ _ _) as [[n | e] w']; reflexivity.
Qed.

Lemma live_earlier (t0 t1 : Z) (r : OfflineRecord) :
  t0 <= t1 -> live t1 r = true -> live t0 r = true.
Proof. unfold live. lia. Qed.

Lemma In_firstn {A : Type} (n : nat) (l : list A) (x : A) :
  In x (firstn n l) -> In x l.
Proof.
  intros H. rewrite <- (firstn_skipn n l). apply in_or_app. now left.
Qed.

Lemma page_counted (t0 t1 : Z) (records : list OfflineRecord) :
  t0 <= t1 -> replayPage t1 records <> [] ->
  Z.of_nat (List.length (filter (live t0) records)) <> 0.
Proof.
  intros Ht Hpage.
  destruct (replayPage t1 records) as [| r page] eqn:Ep; [contradiction |].
  assert (Hin : In r (filter (live t0) records)).
  { assert (Hr : In r (replayPage t1 records)) by (rewrite Ep; now left).
    unfold replayPage in Hr. apply In_firstn in Hr.
    apply filter_In in Hr as [Hr Hl]. apply filter_In. split; [exact Hr |].
    now apply (live_earlier t0 t1). }
  destruct (filter (live t0) records); [contradiction | cbn; lia].
Qed.

Lemma has_items_length {A : Type} (l : list A) :
  has_items l = negb (Nat.eqb (List.length l) 0).
Proof. destruct l; reflexivity. Qed.

Section ReplayRun.

Variable P : Platform.
Variable w : World.

Hypothesis storage_enabled : storage (client w) = true.

(** The page of the first iteration: it is read at the second reading of
    the clock, the first being that of [getMessageCount]. *)
Let page := replayPage (Date_now P (S (clock_reads w))) (db w).

(** A page whose batch is refused stays in the store, whole. *)
Lemma replay_failed_send_keeps_store :
  filter (parses P) page <> [] ->
  (forall ms, batchAccepted
                (fetch_result P (List.length (requests w)) (PostMessages ms)) = false) ->
  db (exec processOfflineMessages P w) = db w.
Proof.
  intros Hsend Hfail. rewrite processOfflineMessages_exec by assumption.
  destruct (_ =? 0) eqn:E0; [reflexivity |].
  destruct (Z.to_nat _) as [| fuel] eqn:Ef; [lia |].
  assert (Hne : page <> []) by (intros He; rewrite He in Hsend; now apply Hsend).
  destruct (replayLoop_iteration P fuel
              (Z.of_nat (List.length (filter (live (Date_now P (clock_reads w))) (db w))))
              0 (afterClock w) ltac:(lia) Hne) as [Hlen ->].
  cbn [afterClock clock_reads db requests] in Hlen |- *. fold page in Hlen |- *.
  rewrite has_items_length, Hlen.
  destruct (filter (parses P) page) as [| r l] eqn:Efl; [contradiction |].
  cbn [List.length Nat.eqb negb]. rewrite Hfail.
  reflexivity.
Qed.

Hypothesis clock_advances :
  Date_now P (clock_reads w) <= Date_now P (S (clock_reads w)).

(** A page whose batch is accepted is deleted, the records that did not
    parse with it. *)
Lemma replay_accepted_send_deletes_page :
  filter (parses P) page <> [] ->
  (forall ms, batchAccepted
                (fetch_result P (List.length (requests w)) (PostMessages ms)) = true) ->
  forall r, In r page -> ~ In r (db (exec processOfflineMessages P w)).
Proof.
  intros Hsend Hok r Hr Hin.
  assert (Hne : page <> []) by (intros He; rewrite He in Hr; exact Hr).
  pose proof (page_counted _ _ (db w) clock_advances Hne) as Hcount.
  rewrite processOfflineMessages_exec in Hin by assumption.
  replace (_ =? 0) with false in Hin by lia.
  destruct (Z.to_nat _) as [| fuel] eqn:Ef; [lia |].
  destruct (replayLoop_iteration P fuel
              (Z.of_nat (List.length (filter (live (Date_now P (clock_reads w))) (db w))))
              0 (afterClock w) ltac:(lia) Hne) as [Hlen Hrun].
  rewrite Hrun in Hin. clear Hrun.
  cbn [afterClock clock_reads db requests] in Hlen, Hin. fold page in Hin, Hlen.
  rewrite has_items_length, Hlen in Hin.
  destruct (filter (parses P) page) as [| r0 l] eqn:Efl; [contradiction |].
  cbn [List.length Nat.eqb negb] in Hin.
  rewrite Hok in Hin. apply replayLoop_only_deletes in Hin.
  cbn [with_db db] in Hin.
  unfold delete_ids in Hin. apply filter_In in Hin as [_ Hin].
  apply negb_true_iff in Hin.
  assert (Hex : existsb (String.eqb (id r)) (map id page) = true).
  { apply existsb_exists. exists (id r). split; [now apply in_map |].
    apply String.eqb_refl. }
  congruence.
Qed.

(** A page on which no record parses is deleted without any request. *)
Lemma replay_corrupted_page_deleted :
  page <> [] ->
  filter (parses P) page = [] ->
  db (exec processOfflineMessages P w) = delete_ids (map id page) (db w)
  /\ requests (exec processOfflineMessages P w) = requests w.
Proof.
  intros Hne Hnone.
  pose proof (page_counted _ _ (db w) clock_advances Hne) as Hcount.
  rewrite processOfflineMessages_exec by assumption.
  replace (_ =? 0) with false by lia.
  destruct (Z.to_nat _) as [| fuel] eqn:Ef; [lia |].
  destruct (replayLoop_iteration P fuel
              (Z.of_nat (List.length (filter (live (Date_now P (clock_reads w))) (db w))))
              0 (afterClock w) ltac:(lia) Hne) as [Hlen ->].
  cbn [afterClock clock_reads db requests] in Hlen |- *. fold page in Hlen |- *.
  rewrite has_items_length, Hlen, Hnone.
  cbn [List.length Nat.eqb negb]. split; reflexivity.
Qed.

End ReplayRun.

(** C5 at a concrete store: a corrupted record and a sound one, in one
    page.  When the batch is refused both records stay, the corrupted one
    included, and the next replay finds it again; the same corrupted
    record alone in its page is deleted, under the same failing network;
    and when the batch is accepted both records are deleted. *)
Theorem replay_keeps_corrupted_record_on_failed_send :
  let w := Demo.worldWithStore [Demo.corruptedRecord; Demo.soundRecord] in
  let alone := Demo.worldWithStore [Demo.corruptedRecord] in
  parses Demo.serverError Demo.corruptedRecord = false
  /\ parses Demo.serverError Demo.soundRecord = true
  /\ db (exec processOfflineMessages Demo.serverError w)
     = [Demo.corruptedRecord; Demo.soundRecord]
  /\ db (exec processOfflineMessages Demo.serverError alone) = []
  /\ db (exec processOfflineMessages Demo.online w) = [].
Proof. vm_compute. repeat split. Qed.

(** A whole round trip: the first probe fails, so the first tick spills
    the queued message; at the next tick the probe succeeds and replay
    sends the rebuilt message, without the destination, and empties the
    store. *)
Example offline_spill_then_replay :
  let P := Demo.reconnecting in
  let w1 := steps [CallPublish (Value (JStr "hello")) [JStr "demo"] "device-7" false;
                   SenderTick] P (initialWorld Demo.offlineConfig) in
  let w2 := step SenderTick P w1 in
  _connectionState (client w1) = false
  /\ List.length (db w1) = 1%nat
  /\ requests w1 = [HeadStatus]
  /\ _connectionState (client w2) = true
  /\ db w2 = []
  /\ requests w2
     = [HeadStatus; HeadStatus;
        PostMessages
          [{| msg_type := Publish;
              data := JObj [("data", JStr "hello")];
              timestamp := 1700000310000;
              context := Some {| ctx_tags := Some (JArr [JStr "demo"]);
                                 ctx_wait := None |};
              dest := None |}]].
Proof. vm_compute. repeat split. Qed.

Lemma spill_replay_round_trip_witness :
  let P := Demo.online in
  let w := steps [Demo.hello "m1"; Demo.hello "m2"] P (initialWorld Demo.offlineConfig) in
  let wr := initialWorld Demo.offlineConfig in
  let msg := Value (JStr "hello") in
  let message :=
    makeMessage (messageData msg) 1700000000000 [JStr "demo"] "device-7" false in
  exec (publish msg [JStr "demo"] "device-7" false) P w
  = afterStoreOffline P
      (makeMessage (messageData msg) (Date_now P (clock_reads w))
         [JStr "demo"] "device-7" false)
      (afterClock w)
  /\ dest message = Some "device-7"
  /\ exists restored,
       run (restoreMessage
              (makeRecord P "offline_1700000002000_r0" (data message)
                 (tags_or_null message) 1700003603000)) P wr
       = (Normal (Some restored), afterClock wr)
       /\ data restored = JObj [("data", JStr "hello")]
       /\ message_tags restored = Some (JArr [JStr "demo"])
       /\ dest restored = None.
Proof.
  intros P w wr msg message.
  destruct (spill_replay_round_trip P w wr msg [JStr "demo"] "device-7" false
              1700000000000 "offline_1700000002000_r0" 1700003603000
              ltac:(vm_compute; reflexivity)
              ltac:(vm_compute; reflexivity)
              ltac:(intros _; vm_compute; reflexivity))
    as (Hpub & _ & _ & restored & Hrun & _ & Hdata & Htags & _ & Hdest & _).
  split; [| split; [reflexivity |]].
  - apply Hpub; [reflexivity | vm_compute; discriminate | reflexivity].
  - exists restored. repeat split; assumption.
Defined.

(** * Further properties *)

(** ** The batcher *)

(** X1.  For a client with [minBatchInterval <= maxBatchInterval] and a
    capacity [maxQueueSize] other than 0, whatever the queue holds,
    [calculateBatchInterval] returns a value between the two configured
    intervals.  (With a capacity of 0 the load of the code is [NaN] or
    [Infinity], which [queueLoad] does not represent.) *)
Theorem calculateBatchInterval_within_bounds :
  forall (c : TendrlClient),
    maxQueueSize c <> 0 ->
    (minBatchInterval c <= maxBatchInterval c)%Q ->
    (minBatchInterval c <= calculateBatchInterval c)%Q
    /\ (calculateBatchInterval c <= maxBatchInterval c)%Q.
Proof.
  intros c _ Hc. unfold calculateBatchInterval.
  destruct (Qlt_le_dec (queueLoad c) 25) as [H1 | H1]; [split; [lra | exact Hc] |].
  destruct (Qlt_le_dec 75 (queueLoad c)) as [H2 | H2]; [split; [exact Hc | lra] |].
  rewrite Qdiv_100.
  assert (0 <= (maxBatchInterval c - minBatchInterval c) * queueLoad c)%Q
    by (apply Qmult_le_0_compat; lra).
  assert (0 <= (maxBatchInterval c - minBatchInterval c) * (100 - queueLoad c))%Q
    by (apply Qmult_le_0_compat; lra).
  split; lra.
Qed.

Lemma calculateBatchInterval_within_bounds_witness :
  let c := Demo.loadedClient defaultConfig 500 in
  (100 <= calculateBatchInterval c)%Q /\ (calculateBatchInterval c <= 1000)%Q.
Proof.
  intros c.
  apply (calculateBatchInterval_within_bounds c).
  - vm_compute. discriminate.
  - vm_compute. discriminate.
Defined.

Lemma getBatch_queue_length (c : TendrlClient) :
  Z.of_nat (List.length (queue (snd (getBatch c))))
  = Z.max 0 (Z.of_nat (List.length (queue c)) - Z.max 0 (maxBatchSize c)).
Proof.
  rewrite getBatch_rest. cbn [queue set_queue]. rewrite length_skipn.
  unfold batchCount. lia.
Qed.

Lemma repeated_getBatch (k : nat) :
  forall c,
    let r := runQueueOps (repeat TakeBatch k) c in
    let size := Z.max 0 (maxBatchSize c) in
    Z.of_nat (List.length (queue (snd r)))
    = Z.max 0 (Z.of_nat (List.length (queue c)) - Z.of_nat k * size)
    /\ Forall (fun b => Z.of_nat (List.length b) <= size) (fst (fst r))
    /\ maxBatchSize (snd r) = maxBatchSize c.
Proof.
  induction k as [| k IH]; intros c; cbn [repeat runQueueOps].
  - cbn. repeat split; [lia | constructor].
  - pose proof (getBatch_queue_length c) as Hq.
    pose proof (getBatch_length c) as Hb.
    assert (Hm : maxBatchSize (snd (getBatch c)) = maxBatchSize c)
      by (rewrite getBatch_rest; reflexivity).
    destruct (getBatch c) as [batch c1]. cbn [fst snd] in Hq, Hb, Hm.
    specialize (IH c1). cbv zeta in IH.
    destruct (runQueueOps (repeat TakeBatch k) c1) as [[batches enq] c2].
    cbn [fst snd] in IH |- *. destruct IH as (IHq & IHb & IHm).
    rewrite Hm in IHq, IHb, IHm. rewrite IHq, Hq.
    assert (Hk : 0 <= Z.of_nat k * Z.max 0 (maxBatchSize c))
      by (apply Z.mul_nonneg_nonneg; lia).
    rewrite Nat2Z.inj_succ, Z.mul_succ_l.
    repeat split; [lia | | exact IHm].
    constructor; [lia | exact IHb].
Qed.

Lemma concat_all_nil {A : Type} (ls : list (list A)) :
  Forall (fun b => b = []) ls -> List.concat ls = [].
Proof.
  induction 1 as [| b bs Hb _ IH]; [reflexivity |].
  cbn [List.concat]. now rewrite Hb, IH.
Qed.

(** X2.  [k] successive calls of [getBatch] leave
    [max(0, length - k * max(0, maxBatchSize))] messages in the queue and
    none of the batches is larger than [maxBatchSize]; once
    [k * maxBatchSize] reaches the length the queue is empty and the
    batches, in order, are the queue it held.  With [maxBatchSize <= 0]
    every batch is empty and the queue never drains. *)
Theorem getBatch_drains_in_rounds :
  forall (c : TendrlClient) (k : nat),
    let batches := fst (fst (runQueueOps (repeat TakeBatch k) c)) in
    let c' := snd (runQueueOps (repeat TakeBatch k) c) in
    let size := Z.max 0 (maxBatchSize c) in
    Z.of_nat (List.length (queue c'))
    = Z.max 0 (Z.of_nat (List.length (queue c)) - Z.of_nat k * size)
    /\ Forall (fun b => Z.of_nat (List.length b) <= size) batches
    /\ (Z.of_nat (List.length (queue c)) <= Z.of_nat k * size ->
        queue c' = [] /\ List.concat batches = queue c)
    /\ (maxBatchSize c <= 0 -> queue c' = queue c).
Proof.
  intros c k batches c' size. subst batches c' size.
  destruct (repeated_getBatch k c) as (Hq & Hb & _).
  pose proof (runQueueOps_fifo (repeat TakeBatch k) c) as Hf.
  assert (Henq : forall c0, snd (fst (runQueueOps (repeat TakeBatch k) c0)) = []).
  { clear. induction k as [| k IH]; intros c0; cbn [repeat runQueueOps];
      [reflexivity |].
    destruct (getBatch c0) as [b c1]. specialize (IH c1).
    destruct (runQueueOps (repeat TakeBatch k) c1) as [[bs enq] c2].
    exact IH. }
  rewrite Henq, app_nil_r in Hf.
  split; [exact Hq |]. split; [exact Hb |]. split.
  - intros Hle.
    assert (He : queue (snd (runQueueOps (repeat TakeBatch k) c)) = []).
    { destruct (queue (snd (runQueueOps (repeat TakeBatch k) c)));
        [reflexivity | cbn [List.length] in Hq; lia]. }
    split; [exact He |]. now rewrite He, app_nil_r in Hf.
  - intros Hz.
    assert (Hall : Forall (fun b : list Message => b = [])
                     (fst (fst (runQueueOps (repeat TakeBatch k) c)))).
    { eapply Forall_impl; [| exact Hb]. cbn beta. intros b Hlen.
      destruct b; [reflexivity | cbn [List.length] in Hlen; lia]. }
    rewrite (concat_all_nil _ Hall) in Hf. exact Hf.
Qed.

Lemma getBatch_drains_in_rounds_witness :
  let c := Demo.loadedClient Demo.smallConfig 3 in
  queue (snd (runQueueOps (repeat TakeBatch 2) c)) = []
  /\ List.concat (fst (fst (runQueueOps (repeat TakeBatch 2) c))) = queue c.
Proof.
  intros c.
  destruct (getBatch_drains_in_rounds c 2) as (_ & _ & Hdrain & _).
  apply Hdrain. vm_compute. discriminate.
Defined.

(** ** [publish]: the other paths *)

Lemma publish_queue_step (P : Platform) (w : World) msg tags entity :
  validMessage msg = true ->
  let w' := exec (publish msg tags entity false) P w in
  maxQueueSize (client w') = maxQueueSize (client w)
  /\ exists added,
       queue (client w') = queue (client w) ++ added
       /\ Z.of_nat (List.length added)
          = if Z.of_nat (List.length (queue (client w))) <? maxQueueSize (client w)
            then 1 else 0.
Proof.
  intros Hv w'. subst w'. unfold exec.
  pose proof (publish_queued_run P w msg tags entity Hv) as Hr.
  unfold run in Hr. cbv zeta in Hr. rewrite Hr. cbn [snd].
  destruct (_ <? _).
  - split; [reflexivity |]. eexists. split; reflexivity.
  - destruct (storage (client w)); (split; [reflexivity |]);
      exists []; rewrite app_nil_r; split; reflexivity.
Qed.

(** X3.  Any number of queued publishes of valid messages fill the queue
    up to its capacity and no further: after [n] of them the length is
    [min(length + n, maxQueueSize)] (the length itself if it was
    already beyond), and what was queued before is still there, in front
    and in order. *)
Theorem publish_saturates_at_capacity :
  forall (P : Platform) (es : list Event) (w : World),
    forallb isQueuedPublish es = true ->
    let w' := steps es P w in
    let len := Z.of_nat (List.length (queue (client w))) in
    Z.of_nat (List.length (queue (client w')))
    = Z.max len (Z.min (len + Z.of_nat (List.length es)) (maxQueueSize (client w)))
    /\ exists added, queue (client w') = queue (client w) ++ added.
Proof.
  intros P es. induction es as [| e es IH]; intros w Hes.
  - cbn. split; [lia | exists []; now rewrite app_nil_r].
  - cbn [forallb] in Hes. apply andb_true_iff in Hes as [He Hes].
    rewrite steps_cons. specialize (IH (step e P w) Hes). cbv zeta in IH |- *.
    destruct e; try discriminate He. destruct waitResponse; [discriminate He |].
    cbn [isQueuedPublish] in He. cbn [step] in IH |- *.
    destruct (publish_queue_step P w msg tags entity He) as (Hcap & added & Hq & Hlen).
    destruct IH as (IHlen & more & IHq).
    rewrite Hcap, Hq in IHlen. rewrite Hq in IHq. rewrite length_app in IHlen.
    split.
    + rewrite IHlen. cbn [List.length]. destruct (_ <? _) eqn:E; lia.
    + exists (added ++ more). now rewrite IHq, app_assoc.
Qed.

Lemma publish_saturates_at_capacity_witness :
  let w := initialWorld Demo.smallConfig in
  let es := [Demo.hello "a"; Demo.hello "b"; Demo.hello "c"; Demo.hello "d";
             Demo.hello "e"; Demo.hello "f"] in
  Z.of_nat (List.length (queue (client (steps es Demo.online w)))) = 4.
Proof.
  intros w es.
  destruct (publish_saturates_at_capacity Demo.online es w eq_refl) as [Hlen _].
  rewrite Hlen. reflexivity.
Defined.

(** X4.  [publish] rejects [undefined], [null], a number and a boolean
    before it does anything else: the call throws and the world is exactly
    as before, whatever the other arguments. *)
Theorem publish_rejects_invalid_message :
  forall (P : Platform) (w : World) msg tags entity waitResponse,
    validMessage msg = false ->
    exists e, run (publish msg tags entity waitResponse) P w = (Throw e, w).
Proof.
  intros P w msg tags entity waitResponse Hv.
  destruct msg as [| [| b | q | s | items | fields]]; try discriminate Hv;
    eexists; reflexivity.
Qed.

Lemma publish_rejects_invalid_message_witness :
  exists e,
    run (publish (Value (JNum 3)) [] EmptyString false) Demo.online
      (initialWorld defaultConfig)
    = (Throw e, initialWorld defaultConfig).
Proof.
  apply publish_rejects_invalid_message. reflexivity.
Defined.

(** X5.  With [waitResponse] set, [publish] of a valid message bypasses
    the queue: it issues exactly one POST of the message, which carries
    [context.wait = true], and leaves the client and the store as they
    were.  It resolves to [null] when the request fails, times out or is
    answered with a status other than 200, and to the [content] of the
    answer when the answer is 200 with an object whose [content] is
    truthy. *)
Theorem publish_wait_sends_immediately :
  forall (P : Platform) (w : World) msg tags entity,
    validMessage msg = true ->
    let message :=
      makeMessage (messageData msg) (Date_now P (clock_reads w)) tags entity true in
    let answer := fetch_result P (List.length (requests w)) (PostMessage message) in
    exists r,
      run (publish msg tags entity true) P w
      = (Normal (Some r), afterRequest (PostMessage message) (afterClock w))
      /\ message_wait message = Some true
      /\ (answer = NetworkFailure \/ answer = Timeout -> r = JNull)
      /\ (forall status body,
            answer = Response status body -> status <> 200 -> r = JNull)
      /\ (forall fields v,
            answer = Response 200 (Some (JObj fields)) ->
            assoc "content" fields = Some v -> truthy v = true -> r = v).
Proof.
  intros P w msg tags entity Hv message answer.
  assert (Hrun : run (publish msg tags entity true) P w
                 = (let (r, w') := _publishMessage message P (afterClock w) in
                    match r with
                    | Normal j => (Normal (Some j), w')
                    | Throw e => (Throw e, w')
                    end)).
  { subst message.
    destruct msg as [| [| b | q | s | items | fields]]; try discriminate Hv;
      reflexivity. }
  rewrite Hrun. unfold _publishMessage, bind, fetch, ret.
  cbn [afterClock requests]. fold answer. eexists. split; [reflexivity |].
  split.
  { subst message. unfold message_wait, makeMessage. cbn [context].
    destruct (has_items tags); reflexivity. }
  split; [| split].
  - intros [-> | ->]; reflexivity.
  - intros status body -> Hs. replace (status =? 200) with false by lia.
    reflexivity.
  - intros fields v -> Hc Ht. cbn. rewrite Hc, Ht. reflexivity.
Qed.

Lemma publish_wait_sends_immediately_witness :
  exists r,
    run (publish (Value (JStr "ping")) [] EmptyString true) Demo.online
      (initialWorld defaultConfig)
    = (Normal (Some r),
       afterRequest
         (PostMessage (makeMessage (JObj [("data", JStr "ping")]) 1700000000000
                         [] EmptyString true))
         (afterClock (initialWorld defaultConfig)))
    /\ r = JStr "id-1".
Proof.
  destruct (publish_wait_sends_immediately Demo.online (initialWorld defaultConfig)
              (Value (JStr "ping")) [] EmptyString eq_refl)
    as (r & Hrun & _ & _ & _ & Hcontent).
  exists r. split; [exact Hrun |].
  apply (Hcontent [("content", JStr "id-1")] (JStr "id-1")); reflexivity.
Defined.

(** ** Incoming messages *)

(** X6.  [transformCheckMessage] on an object never throws.  It gives a
    message whose [msg_type], [data] and [source] are those of the record
    when they are truthy and ["command"], [{}] and the empty string
    otherwise; the record's [tags] appear under [context.tags] when they
    are an array that is not empty, the message has no [context]
    otherwise, and it never has a top-level [tags].  The clock is read
    only when the record has no truthy [timestamp]. *)
Theorem transformCheckMessage_relocates_tags :
  forall (P : Platform) (w : World) (fields : list (string * Json)),
    exists out w',
      transformCheckMessage (JObj fields) P w = (Normal (Some (JObj out)), w')
      /\ assoc "tags" out = None
      /\ assoc "context" out
         = match assoc "tags" fields with
           | Some (JArr (x :: l)) => Some (JObj [("tags", JArr (x :: l))])
           | _ => None
           end
      /\ assoc "msg_type" out
         = Some (or_default (assoc "msg_type" fields) (JStr "command"))
      /\ assoc "data" out = Some (or_default (assoc "data" fields) (JObj []))
      /\ assoc "source" out
         = Some (or_default (assoc "source" fields) (JStr EmptyString))
      /\ match assoc "timestamp" fields with
         | Some x =>
             if truthy x then assoc "timestamp" out = Some x /\ w' = w
             else assoc "timestamp" out
                  = Some (JNum (inject_Z (Date_now P (clock_reads w))))
                  /\ w' = afterClock w
         | None =>
             assoc "timestamp" out
             = Some (JNum (inject_Z (Date_now P (clock_reads w))))
             /\ w' = afterClock w
         end.
Proof.
  intros P w fields. unfold transformCheckMessage, bind. cbn [prop].
  assert (Hdest : forall v,
            assoc "tags" (optional_field "dest" v) = None
            /\ assoc "context" (optional_field "dest" v) = None).
  { intros v. unfold optional_field.
    destruct v as [x |]; [destruct (truthy x) |]; split; reflexivity. }
  assert (Hrid : forall v,
            assoc "tags" (optional_field "request_id" v) = None
            /\ assoc "context" (optional_field "request_id" v) = None).
  { intros v. unfold optional_field.
    destruct v as [x |]; [destruct (truthy x) |]; split; reflexivity. }
  destruct (Hdest (assoc "dest" fields)) as [Hd1 Hd2].
  destruct (Hrid (assoc "request_id" fields)) as [Hr1 Hr2].
  assert (Happ : forall k (l1 l2 : list (string * Json)),
            assoc k (l1 ++ l2)
            = match assoc k l1 with Some v => Some v | None => assoc k l2 end).
  { intros k l1 l2. induction l1 as [| [k' v'] l1 IHl]; cbn; [reflexivity |].
    destruct (String.eqb k k'); [reflexivity | exact IHl]. }
  assert (Htail : forall ctx,
            assoc "tags" ctx = None ->
            assoc "tags" (ctx ++ optional_field "dest" (assoc "dest" fields)
                          ++ optional_field "request_id" (assoc "request_id" fields))
            = None
            /\ assoc "context" (ctx ++ optional_field "dest" (assoc "dest" fields)
                                ++ optional_field "request_id"
                                     (assoc "request_id" fields))
               = assoc "context" ctx).
  { intros ctx Hc. rewrite !Happ, Hc, Hd1, Hr1, Hd2, Hr2.
    split; [reflexivity |]. destruct (assoc "context" ctx); reflexivity. }
  assert (Hctx : exists ctx,
            match assoc "tags" fields with
            | Some (JArr (x :: l)) => [("context", JObj [("tags", JArr (x :: l))])]
            | _ => []
            end = ctx
            /\ assoc "tags" ctx = None
            /\ assoc "context" ctx
               = match assoc "tags" fields with
                 | Some (JArr (x :: l)) => Some (JObj [("tags", JArr (x :: l))])
                 | _ => None
                 end).
  { eexists. split; [reflexivity |].
    destruct (assoc "tags" fields) as [[| | | | [| x l] |] |]; split; reflexivity. }
  destruct Hctx as (ctx & -> & Hc1 & Hc2).
  destruct (Htail ctx Hc1) as [Ht1 Ht2].
  destruct (assoc "timestamp" fields) as [x |]; [destruct (truthy x) |];
    cbn [fst snd now ret];
    eexists; eexists; (split; [reflexivity |]);
    cbn [assoc app String.eqb Ascii.eqb Bool.eqb];
    rewrite Ht1, Ht2, Hc2; repeat split; reflexivity.
Qed.

Lemma onlyDelivers_refl (w : World) : onlyDelivers w w.
Proof. repeat split. Qed.

Lemma onlyDelivers_trans (w1 w2 w3 : World) :
  onlyDelivers w1 w2 -> onlyDelivers w2 w3 -> onlyDelivers w1 w3.
Proof.
  unfold onlyDelivers. intros (A1 & A2 & A3 & A4) (B1 & B2 & B3 & B4).
  repeat split; congruence.
Qed.

Lemma transformCheckMessage_frame (P : Platform) (m : Json) (w : World) :
  exists r w',
    transformCheckMessage m P w = (Normal r, w')
    /\ onlyDelivers w w' /\ delivered w' = delivered w
    /\ if notNull m
       then exists out,
              r = Some out
              /\ prop "data" out = Some (or_default (prop "data" m) (JObj []))
       else r = None.
Proof.
  unfold transformCheckMessage, bind.
  destruct m as [| b | q | s | items | fields]; cbn [prop notNull now ret fst snd];
    try (eexists; eexists; split; [reflexivity |];
         split; [apply onlyDelivers_refl || (repeat split) |];
         split; [reflexivity |]; first [reflexivity | eexists; split; reflexivity]).
  destruct (assoc "timestamp" fields) as [x |]; [destruct (truthy x) |];
    cbn [now ret fst snd];
    eexists; eexists; (split; [reflexivity |]);
    (split; [repeat split |]); (split; [reflexivity |]);
    eexists; split; reflexivity.
Qed.

Lemma dispatch_frame (P : Platform) (ms : list Json) :
  forall w, exists w',
    forEach (fun checkMsg =>
               m <- transformCheckMessage checkMsg ;;
               match m with
               | Some message => deliver message
               | None => ret tt
               end) ms P w = (Normal tt, w')
    /\ onlyDelivers w w'
    /\ exists D,
         delivered w' = delivered w ++ D
         /\ map (prop "data") D
            = map (fun m => Some (or_default (prop "data" m) (JObj [])))
                (filter notNull ms).
Proof.
  induction ms as [| m ms IH]; intros w; cbn [forEach filter].
  - exists w. split; [reflexivity |]. split; [apply onlyDelivers_refl |].
    exists []. now rewrite app_nil_r.
  - unfold bind at 1. unfold bind at 1.
    destruct (transformCheckMessage_frame P m w) as (r & w1 & -> & Hf & Hd & Hr).
    destruct (notNull m).
    + destruct Hr as (out & -> & Hdata). unfold deliver at 1.
      match goal with
      | |- context [forEach ?f ms P ?w2] =>
          destruct (IH w2) as (w' & -> & Hf' & D & HD & Hmap)
      end.
      exists w'. split; [reflexivity |]. split.
      * eapply onlyDelivers_trans; [exact Hf |].
        eapply onlyDelivers_trans; [| exact Hf']. repeat split.
      * exists (out :: D). cbn [delivered] in HD. rewrite HD, Hd.
        rewrite <- app_assoc. split; [reflexivity |].
        cbn [map]. now rewrite Hdata, Hmap.
    + subst r. unfold ret at 1.
      destruct (IH w1) as (w' & -> & Hf' & D & HD & Hmap).
      exists w'. split; [reflexivity |]. split.
      * eapply onlyDelivers_trans; eassumption.
      * exists D. rewrite HD, Hd. split; [reflexivity | exact Hmap].
Qed.

Lemma handleCheckMessagesResponse_run :
  forall (P : Platform) (w : World) (ms : list Json),
    exists w',
      run (handleCheckMessagesResponse ms) P w = (Normal tt, w')
      /\ onlyDelivers w w'
      /\ (callback (client w) = false -> w' = w)
      /\ (callback (client w) = true ->
          exists D,
            delivered w' = delivered w ++ D
            /\ List.length D = List.length (filter notNull ms)
            /\ map (prop "data") D
               = map (fun m => Some (or_default (prop "data" m) (JObj [])))
                   (filter notNull ms)).
Proof.
  intros P w ms. unfold run, handleCheckMessagesResponse.
  destruct ms as [| m ms].
  - exists w. split; [reflexivity |]. split; [apply onlyDelivers_refl |].
    split; [reflexivity |]. intros _. exists []. now rewrite app_nil_r.
  - unfold bind at 1, getClient.
    destruct (callback (client w)) eqn:Hcb; cbn [negb].
    + destruct (dispatch_frame P (m :: ms) w) as (w' & -> & Hf & D & HD & Hmap).
      exists w'. split; [reflexivity |]. split; [exact Hf |].
      split; [discriminate |]. intros _. exists D.
      split; [exact HD |]. split; [| exact Hmap].
      rewrite <- (length_map (prop "data") D), Hmap, length_map. reflexivity.
    + exists w. split; [reflexivity |]. split; [apply onlyDelivers_refl |].
      split; [reflexivity | discriminate].
Qed.


(** X7.  [handleCheckMessagesResponse] never throws and touches neither
    the client nor the store nor the network.  Without a callback nothing
    is delivered.  With one, every record that is not [null] is
    transformed and handed over, in the order of the answer, and a [null]
    record is skipped without stopping the ones after it. *)
Theorem handleCheckMessagesResponse_dispatches_in_order :
  forall (P : Platform) (w : World) (ms : list Json),
    exists w',
      run (handleCheckMessagesResponse ms) P w = (Normal tt, w')
      /\ onlyDelivers w w'
      /\ (callback (client w) = false -> w' = w)
      /\ (callback (client w) = true ->
          exists D,
            delivered w' = delivered w ++ D
            /\ List.length D = List.length (filter notNull ms)
            /\ map (prop "data") D
               = map (fun m => Some (or_default (prop "data" m) (JObj [])))
                   (filter notNull ms)).
Proof. exact handleCheckMessagesResponse_run. Qed.

Lemma handleCheckMessagesResponse_dispatches_in_order_witness :
  let w := initialWorld Demo.offlineConfig in
  let ms := [JObj [("data", JStr "one")]; JNull; JObj [("data", JStr "two")]] in
  exists w',
    run (handleCheckMessagesResponse ms) Demo.online w = (Normal tt, w')
    /\ map (prop "data") (delivered w') = [Some (JStr "one"); Some (JStr "two")].
Proof.
  intros w ms.
  destruct (handleCheckMessagesResponse_dispatches_in_order Demo.online w ms)
    as (w' & Hrun & _ & _ & Hcb).
  exists w'. split; [exact Hrun |].
  destruct (Hcb eq_refl) as (D & HD & _ & Hmap).
  rewrite HD. exact Hmap.
Defined.

Lemma checkMessages_run_frame :
  forall (P : Platform) (w : World) (limit : option Z),
    let n := match limit with Some n => n | None => checkMsgLimit (client w) end in
    let answer := fetch_result P (List.length (requests w)) (GetCheckMessages n) in
    exists w',
      run (checkMessages limit) P w = (Normal tt, w')
      /\ requests w' = requests w ++ [GetCheckMessages n]
      /\ db w' = db w
      /\ queue (client w') = queue (client w)
      /\ (callback (client w) = false -> delivered w' = delivered w)
      /\ (callback (client w) = true ->
          exists D,
            delivered w' = delivered w ++ D
            /\ List.length D = List.length (filter notNull (polledMessages answer))).
Proof.
  intros P w limit n answer.
  unfold run, checkMessages, bind at 1, getClient. fold n.
  unfold checkMessagesAPI, bind at 1, fetch. cbn [fst snd requests]. fold answer.
  set (w1 := mkWorld (client w) (db w) (requests w ++ [GetCheckMessages n])
               (delivered w) (clock_reads w) (random_reads w)).
  assert (Hnone : forall c,
            exists w',
              (Normal tt, with_client c w1) = (Normal tt, w')
              /\ requests w' = requests w ++ [GetCheckMessages n]
              /\ db w' = db w
              /\ queue (client w') = queue c
              /\ delivered w' = delivered w).
  { intros c. eexists. split; [reflexivity |]. repeat split. }
  assert (Hquiet : polledMessages answer = [] ->
            forall w',
              requests w' = requests w ++ [GetCheckMessages n] ->
              db w' = db w -> queue (client w') = queue (client w) ->
              delivered w' = delivered w ->
              requests w' = requests w ++ [GetCheckMessages n]
              /\ db w' = db w
              /\ queue (client w') = queue (client w)
              /\ (callback (client w) = false -> delivered w' = delivered w)
              /\ (callback (client w) = true ->
                  exists D,
                    delivered w' = delivered w ++ D
                    /\ List.length D
                       = List.length (filter notNull (polledMessages answer)))).
  { intros Hp w' H1 H2 H3 H4. repeat split; auto.
    intros _. exists []. rewrite Hp, app_nil_r. split; [exact H4 | reflexivity]. }
  assert (Hok : forall ms,
            polledMessages answer = ms ->
            exists w',
              ((handleCheckMessagesResponse ms ;;
                t <- now ;; modify (set_lastMsgCheck t) ;;
                modify (set_connectionState true)) P w1) = (Normal tt, w')
              /\ requests w' = requests w ++ [GetCheckMessages n]
              /\ db w' = db w
              /\ queue (client w') = queue (client w)
              /\ (callback (client w) = false -> delivered w' = delivered w)
              /\ (callback (client w) = true ->
                  exists D,
                    delivered w' = delivered w ++ D
                    /\ List.length D
                       = List.length (filter notNull (polledMessages answer)))).
  { intros ms Hms. unfold bind at 1.
    destruct (handleCheckMessagesResponse_run P w1 ms)
      as (w2 & Hrun & (Hc & Hd & Hr & _) & Hno & Hyes).
    unfold run in Hrun. rewrite Hrun.
    eexists. split; [reflexivity |]. cbn. rewrite Hc, Hd, Hr. cbn.
    repeat split.
    - intros Hcb. rewrite (Hno Hcb). reflexivity.
    - intros Hcb. destruct (Hyes Hcb) as (D & HD & Hlen & _).
      exists D. rewrite Hms. split; assumption. }
  clearbody answer. destruct answer as [status body | |].
  - destruct (status =? 204) eqn:E204.
    { exists w1. split; [reflexivity |]. apply Hquiet; try reflexivity.
      assert (status = 204) by lia. subst status. reflexivity. }
    destruct (status =? 200) eqn:E200; cbn [negb].
    2:{ exists w1. split; [reflexivity |]. apply Hquiet; try reflexivity.
        cbn [polledMessages]. destruct status as [| p | p]; try reflexivity.
        repeat (destruct p as [p | p |]; try reflexivity); discriminate E200. }
    assert (status = 200) by lia. subst status.
    destruct body as [[| b | q | s | items | fields] |];
      try (eexists; split; [reflexivity |]; apply Hquiet; reflexivity);
      try (destruct (Hok [] eq_refl) as (w' & Hrun & Hrest);
           exists w'; split; [exact Hrun | exact Hrest]).
    cbn [prop]. cbn [polledMessages] in Hok |- *.
    destruct (assoc "messages" fields) as [[| | | | [| m ms] |] |];
      try (destruct (Hok [] eq_refl) as (w' & Hrun & Hrest);
           exists w'; split; [exact Hrun | exact Hrest]).
    destruct (Hok (m :: ms) eq_refl) as (w' & Hrun & Hrest).
    exists w'. split; [exact Hrun | exact Hrest].
  - eexists. split; [reflexivity |]. apply Hquiet; reflexivity.
  - eexists. split; [reflexivity |]. apply Hquiet; reflexivity.
Qed.


(** X8.  One call of [checkMessages] never throws and issues exactly one
    request, the GET with the limit given or, when none is given, with
    [checkMsgLimit]; it touches neither the queue nor the store.  What it
    delivers are the records, [null] ones excepted, of the [messages]
    array of an answer with status 200, and only when a callback is
    set. *)
Theorem checkMessages_polls_once :
  forall (P : Platform) (w : World) (limit : option Z),
    let n := match limit with Some n => n | None => checkMsgLimit (client w) end in
    let answer := fetch_result P (List.length (requests w)) (GetCheckMessages n) in
    exists w',
      run (checkMessages limit) P w = (Normal tt, w')
      /\ requests w' = requests w ++ [GetCheckMessages n]
      /\ db w' = db w
      /\ queue (client w') = queue (client w)
      /\ (callback (client w) = false -> delivered w' = delivered w)
      /\ (callback (client w) = true ->
          exists D,
            delivered w' = delivered w ++ D
            /\ List.length D = List.length (filter notNull (polledMessages answer))).
Proof. exact checkMessages_run_frame. Qed.

Lemma checkMessages_polls_once_witness :
  let P := Demo.platformWith
             (fun _ _ => Response 200
                           (Some (JObj [("messages",
                                         JArr [JObj [("data", JStr "go")]; JNull])]))) in
  let w := initialWorld Demo.offlineConfig in
  exists w',
    run (checkMessages None) P w = (Normal tt, w')
    /\ requests w' = [GetCheckMessages 1]
    /\ List.length (delivered w') = 1%nat.
Proof.
  intros P w.
  destruct (checkMessages_polls_once P w None) as (w' & Hrun & Hreq & _ & _ & _ & Hcb).
  exists w'. split; [exact Hrun |]. split; [exact Hreq |].
  destruct (Hcb eq_refl) as (D & HD & Hlen).
  rewrite HD, length_app, Hlen. reflexivity.
Defined.

(** ** The offline store *)

Section KeepsDb.

Variable J : list OfflineRecord -> Prop.

Hypothesis J_filter : forall f l, J l -> J (filter f l).
Hypothesis J_put : forall r l, J l -> J (db_put r l).

Lemma keepsDb_ret {A : Type} (a : A) : keepsDb J (ret a).
Proof. intros P w H. exact H. Qed.

Lemma keepsDb_throw {A : Type} (e : string) : keepsDb J (@throw A e).
Proof. intros P w H. exact H. Qed.

Lemma keepsDb_bind {A B : Type} (m : M A) (k : A -> M B) :
  keepsDb J m -> (forall a, keepsDb J (k a)) -> keepsDb J (bind m k).
Proof.
  intros Hm Hk P w H. unfold bind.
  specialize (Hm P w H). destruct (m P w) as [[a | e] w1]; cbn in *.
  - now apply Hk.
  - exact Hm.
Qed.

Lemma keepsDb_platform : keepsDb J platform.
Proof. intros P w H. exact H. Qed.

Lemma keepsDb_getClient : keepsDb J getClient.
Proof. intros P w H. exact H. Qed.

Lemma keepsDb_getDb : keepsDb J getDb.
Proof. intros P w H. exact H. Qed.

Lemma keepsDb_modify f : keepsDb J (modify f).
Proof. intros P w H. exact H. Qed.

Lemma keepsDb_liftClient {A : Type} (f : TendrlClient -> A * TendrlClient) :
  keepsDb J (liftClient f).
Proof. intros P w H. unfold liftClient. destruct (f (client w)). exact H. Qed.

Lemma keepsDb_now : keepsDb J now.
Proof. intros P w H. exact H. Qed.

Lemma keepsDb_random : keepsDb J random.
Proof. intros P w H. exact H. Qed.

Lemma keepsDb_fetch r : keepsDb J (fetch r).
Proof. intros P w H. exact H. Qed.

Lemma keepsDb_deliver m : keepsDb J (deliver m).
Proof. intros P w H. exact H. Qed.

Lemma keepsDb_modifyDb f : (forall l, J l -> J (f l)) -> keepsDb J (modifyDb f).
Proof. intros Hf P w H. cbn. now apply Hf. Qed.

Lemma keepsDb_forEach {A : Type} (f : A -> M unit) (l : list A) :
  (forall x, keepsDb J (f x)) -> keepsDb J (forEach f l).
Proof.
  intros Hf. induction l as [| x l IH]; cbn [forEach].
  - apply keepsDb_ret.
  - apply keepsDb_bind; [apply Hf | intros _; exact IH].
Qed.

Ltac keepsDb_body :=
  repeat first
    [ apply keepsDb_ret | apply keepsDb_throw | apply keepsDb_platform
    | apply keepsDb_getClient | apply keepsDb_getDb | apply keepsDb_modify
    | apply keepsDb_liftClient
    | apply keepsDb_now | apply keepsDb_random | apply keepsDb_fetch
    | apply keepsDb_deliver
    | apply keepsDb_modifyDb; intros ? ?; first [apply J_filter | apply J_put];
      assumption
    | apply keepsDb_bind; [| intros ?]
    | apply keepsDb_forEach; intros ?
    | match goal with
      | |- keepsDb _ (if ?b then _ else _) => destruct b
      | |- keepsDb _ (match ?x with _ => _ end) => destruct x
      | |- keepsDb _ (let _ := _ in _) => cbv zeta
      end ].

Lemma keepsDb_store msgId d tags ttl : keepsDb J (store msgId d tags ttl).
Proof. unfold store. keepsDb_body. Qed.

Lemma keepsDb_getAllMessages limit : keepsDb J (getAllMessages limit).
Proof. unfold getAllMessages. keepsDb_body. Qed.

Lemma keepsDb_deleteMessages ids : keepsDb J (deleteMessages ids).
Proof. unfold deleteMessages, delete_ids. keepsDb_body. Qed.

Lemma keepsDb_getMessageCount : keepsDb J getMessageCount.
Proof. unfold getMessageCount. keepsDb_body. Qed.

Lemma keepsDb_cleanupExpired : keepsDb J cleanupExpired.
Proof. unfold cleanupExpired. keepsDb_body. Qed.

Lemma keepsDb_publishMessage m : keepsDb J (_publishMessage m).
Proof. unfold _publishMessage. keepsDb_body. Qed.

Lemma keepsDb_publishMessages ms : keepsDb J (_publishMessages ms).
Proof. unfold _publishMessages. keepsDb_body. Qed.

Lemma keepsDb_storeOffline m : keepsDb J (storeOffline m).
Proof.
  unfold storeOffline.
  apply keepsDb_bind; [apply keepsDb_now | intros t].
  apply keepsDb_bind; [apply keepsDb_random | intros r].
  apply keepsDb_store.
Qed.

Lemma keepsDb_storeBatchOffline ms : keepsDb J (_storeBatchOffline ms).
Proof.
  unfold _storeBatchOffline.
  apply keepsDb_bind; [apply keepsDb_getClient | intros c].
  destruct (_ || _); [apply keepsDb_ret |].
  apply keepsDb_forEach. intros m. apply keepsDb_storeOffline.
Qed.

Lemma keepsDb_heartbeatField name field d : keepsDb J (heartbeatField name field d).
Proof. unfold heartbeatField. keepsDb_body. Qed.

Lemma keepsDb_sendHeartbeat args : keepsDb J (sendHeartbeat args).
Proof.
  unfold sendHeartbeat.
  repeat (apply keepsDb_bind; [apply keepsDb_heartbeatField | intros ?]).
  keepsDb_body.
Qed.

Lemma keepsDb_convertStored l : keepsDb J (convertStored l).
Proof.
  induction l as [| r l IH]; cbn [convertStored].
  - apply keepsDb_ret.
  - apply keepsDb_bind; [unfold restoreMessage; keepsDb_body | intros ?].
    apply keepsDb_bind; [exact IH | intros ?]. apply keepsDb_ret.
Qed.

Lemma keepsDb_replayLoop fuel : forall totalCount processed,
  keepsDb J (replayLoop fuel totalCount processed).
Proof.
  induction fuel as [| fuel IH]; intros totalCount processed; cbn [replayLoop].
  - apply keepsDb_ret.
  - destruct (processed <? totalCount); [| apply keepsDb_ret].
    apply keepsDb_bind; [apply keepsDb_getAllMessages | intros stored].
    destruct stored as [| r stored]; [apply keepsDb_ret |].
    apply keepsDb_bind; [apply keepsDb_convertStored | intros acc]. cbv zeta.
    destruct (has_items (fst acc)).
    + apply keepsDb_bind; [apply keepsDb_publishMessages | intros success].
      destruct success; [| apply keepsDb_ret].
      apply keepsDb_bind; [apply keepsDb_deleteMessages | intros _]. apply IH.
    + apply keepsDb_bind; [apply keepsDb_deleteMessages | intros _].
      apply keepsDb_ret.
Qed.

Lemma keepsDb_processOfflineMessages : keepsDb J processOfflineMessages.
Proof.
  unfold processOfflineMessages.
  apply keepsDb_bind; [apply keepsDb_getClient | intros c].
  destruct (negb (storage c)); [apply keepsDb_ret |].
  apply keepsDb_bind; [apply keepsDb_getMessageCount | intros n].
  destruct (n =? 0); [apply keepsDb_ret |].
  apply keepsDb_bind; [apply keepsDb_replayLoop | intros _]. apply keepsDb_ret.
Qed.

Lemma keepsDb_checkMessages limit : keepsDb J (checkMessages limit).
Proof.
  unfold checkMessages, checkMessagesAPI, handleCheckMessagesResponse,
    transformCheckMessage.
  keepsDb_body.
Qed.

Lemma keepsDb_checkConnectionState : keepsDb J checkConnectionState.
Proof. unfold checkConnectionState. keepsDb_body. Qed.

Lemma keepsDb_publish msg tags entity waitResponse :
  keepsDb J (publish msg tags entity waitResponse).
Proof.
  unfold publish.
  destruct msg as [| v]; [apply keepsDb_throw |].
  destruct v; try apply keepsDb_throw;
    (apply keepsDb_bind; [first [apply keepsDb_ret | apply keepsDb_throw] | intros d]);
    (apply keepsDb_bind; [apply keepsDb_now | intros t]); cbv zeta;
    (destruct waitResponse;
     [ apply keepsDb_bind; [apply keepsDb_publishMessage | intros ?];
       apply keepsDb_ret
     | apply keepsDb_bind; [apply keepsDb_liftClient | intros acc];
       destruct acc; [apply keepsDb_ret |];
       apply keepsDb_bind; [apply keepsDb_getClient | intros c];
       destruct (storage c); [| apply keepsDb_ret];
       apply keepsDb_bind; [apply keepsDb_storeOffline | intros ?];
       apply keepsDb_ret ]).
Qed.

Lemma keepsDb_senderTick : keepsDb J senderTick.
Proof.
  unfold senderTick.
  apply keepsDb_bind; [apply keepsDb_now | intros t].
  apply keepsDb_bind; [apply keepsDb_getClient | intros c].
  apply keepsDb_bind;
    [| intros _; apply keepsDb_bind; [apply keepsDb_getClient | intros c2];
       apply keepsDb_bind; [| intros _ ]].
  - destruct (_ <=? t); [| apply keepsDb_ret]. cbv zeta.
    apply keepsDb_bind; [apply keepsDb_checkConnectionState | intros _].
    apply keepsDb_bind; [apply keepsDb_modify | intros _].
    apply keepsDb_bind; [apply keepsDb_getClient | intros c1].
    destruct (_ && _); [apply keepsDb_processOfflineMessages | apply keepsDb_ret].
  - destruct (has_items (queue c2)); [| apply keepsDb_ret].
    apply keepsDb_bind; [apply keepsDb_liftClient | intros batch].
    destruct (has_items batch); [| apply keepsDb_ret].
    apply keepsDb_bind; [apply keepsDb_getClient | intros c3].
    destruct (_connectionState c3).
    + apply keepsDb_bind; [apply keepsDb_publishMessages | intros success].
      apply keepsDb_bind; [apply keepsDb_getClient | intros c4].
      destruct (_ && _); [apply keepsDb_storeBatchOffline | apply keepsDb_ret].
    + destruct (storage c3); [apply keepsDb_storeBatchOffline | apply keepsDb_ret].
  - apply keepsDb_bind; [apply keepsDb_getClient | intros c5].
    destruct (_ && _); [| apply keepsDb_ret].
    apply keepsDb_bind; [apply keepsDb_cleanupExpired | intros _].
    apply keepsDb_modify.
Qed.

Lemma act_keepsDb (a : Activity) (P : Platform) (w : World) :
  J (db w) -> J (db (act a P w)).
Proof.
  intros H. destruct a as [e | s]; cbn [act].
  - destruct e; cbn [step]; unfold exec.
    + now apply keepsDb_publish.
    + now apply keepsDb_sendHeartbeat.
    + now apply keepsDb_liftClient.
    + now apply keepsDb_checkMessages.
    + now apply keepsDb_checkConnectionState.
    + now apply keepsDb_processOfflineMessages.
    + exact H.
    + exact H.
    + now apply keepsDb_senderTick.
  - destruct s; cbn [storageStep]; unfold exec.
    + now apply keepsDb_store.
    + now apply keepsDb_getAllMessages.
    + now apply keepsDb_deleteMessages.
    + now apply keepsDb_getMessageCount.
    + now apply keepsDb_cleanupExpired.
Qed.

Lemma acts_keepsDb (l : list Activity) (P : Platform) :
  forall w, J (db w) -> J (db (acts l P w)).
Proof.
  unfold acts. induction l as [| a l IH]; intros w H; cbn [fold_left];
    [exact H |].
  apply IH. now apply act_keepsDb.
Qed.

End KeepsDb.

Lemma In_insert_record (r x : OfflineRecord) (l : list OfflineRecord) :
  In x (insert_record r l) <-> x = r \/ In x l.
Proof.
  induction l as [| a l IH]; cbn [insert_record].
  - cbn. intuition auto.
  - destruct (record_before r a); cbn [In]; [intuition auto |].
    rewrite IH. intuition auto.
Qed.

Lemma Forall_insert_record (Q : OfflineRecord -> Prop) r l :
  Q r -> Forall Q l -> Forall Q (insert_record r l).
Proof.
  intros Hr Hl. apply Forall_forall. intros x Hx.
  apply In_insert_record in Hx as [-> | Hx]; [exact Hr |].
  now apply (proj1 (Forall_forall Q l) Hl).
Qed.

Lemma Forall_filter_incl {A : Type} (Q : A -> Prop) (f : A -> bool) (l : list A) :
  Forall Q l -> Forall Q (filter f l).
Proof.
  intros Hl. apply Forall_forall. intros x Hx. apply filter_In in Hx as [Hx _].
  now apply (proj1 (Forall_forall Q l) Hl).
Qed.

Lemma In_delete_ids (ids : list string) (l : list OfflineRecord) (r : OfflineRecord) :
  In r (delete_ids ids l) <-> In r l /\ ~ In (id r) ids.
Proof.
  unfold delete_ids. rewrite filter_In, negb_true_iff.
  split; intros [Hin Hn]; (split; [exact Hin |]).
  - intros Hk. assert (existsb (String.eqb (id r)) ids = true); [| congruence].
    apply existsb_exists. exists (id r). split; [exact Hk | apply String.eqb_refl].
  - apply not_true_iff_false. intros He. apply Hn.
    apply existsb_exists in He as (k & Hk & He).
    apply String.eqb_eq in He. now subst k.
Qed.

Lemma uniqueIds_filter f (l : list OfflineRecord) :
  uniqueIds l -> uniqueIds (filter f l).
Proof.
  unfold uniqueIds. induction l as [| a l IH]; cbn [filter map]; intros Hn;
    [exact Hn |].
  inversion Hn as [| ? ? Ha Hn']; subst.
  destruct (f a); cbn [map]; [| now apply IH].
  constructor; [| now apply IH].
  intros Hin. apply Ha. apply in_map_iff in Hin as (x & Hx & Hin).
  apply filter_In in Hin as [Hin _]. apply in_map_iff. now exists x.
Qed.

Lemma uniqueIds_insert r (l : list OfflineRecord) :
  ~ In (id r) (map id l) -> uniqueIds l -> uniqueIds (insert_record r l).
Proof.
  unfold uniqueIds. induction l as [| a l IH]; cbn [insert_record map];
    intros Hr Hn.
  - constructor; [auto | constructor].
  - inversion Hn as [| ? ? Ha Hn']; subst.
    destruct (record_before r a); cbn [map].
    + constructor; [exact Hr | exact Hn].
    + constructor.
      * intros Hin. apply in_map_iff in Hin as (x & Hx & Hin).
        apply In_insert_record in Hin as [-> | Hin].
        -- apply Hr. left. now symmetry.
        -- apply Ha. apply in_map_iff. now exists x.
      * apply IH; [| exact Hn']. intros Hin. apply Hr. now right.
Qed.

Lemma uniqueIds_put r (l : list OfflineRecord) :
  uniqueIds l -> uniqueIds (db_put r l).
Proof.
  intros Hn. unfold db_put. apply uniqueIds_insert.
  - intros Hin. apply in_map_iff in Hin as (x & Hx & Hin).
    apply In_delete_ids in Hin as [_ Hin]. apply Hin. rewrite Hx. now left.
  - now apply uniqueIds_filter.
Qed.

Lemma indexOrdered_filter f (l : list OfflineRecord) :
  indexOrdered l -> indexOrdered (filter f l).
Proof.
  induction l as [| a l IH]; cbn [filter indexOrdered]; [auto |].
  intros [Ha Hl]. destruct (f a); cbn [indexOrdered]; [| now apply IH].
  split; [now apply Forall_filter_incl | now apply IH].
Qed.

Lemma record_before_le (r a : OfflineRecord) :
  record_before r a = true -> expires_at r <= expires_at a.
Proof. unfold record_before. lia. Qed.

Lemma record_before_ge (r a : OfflineRecord) :
  record_before r a = false -> expires_at a <= expires_at r.
Proof. unfold record_before. lia. Qed.

Lemma indexOrdered_insert r (l : list OfflineRecord) :
  indexOrdered l -> indexOrdered (insert_record r l).
Proof.
  induction l as [| a l IH]; cbn [insert_record indexOrdered].
  - intros _. split; [constructor | exact I].
  - intros [Ha Hl]. destruct (record_before r a) eqn:Hb; cbn [indexOrdered].
    + apply record_before_le in Hb. split; [| split; assumption].
      constructor; [exact Hb |].
      eapply Forall_impl; [| exact Ha]. cbn beta. intros b Hab. lia.
    + apply record_before_ge in Hb. split; [| now apply IH].
      now apply Forall_insert_record.
Qed.

Lemma indexOrdered_put r (l : list OfflineRecord) :
  indexOrdered l -> indexOrdered (db_put r l).
Proof.
  intros Hl. unfold db_put. apply indexOrdered_insert.
  now apply indexOrdered_filter.
Qed.

(** X9.  Whatever the application and the sender do -- any sequence of
    method calls, sender ticks and direct calls of the storage adapter,
    from construction on -- no two records of the offline store share an
    id, and the records stay in the order of the [expires_at] index. *)
Theorem store_ids_stay_unique :
  forall (P : Platform) (cfg : Config) (l : list Activity),
    uniqueIds (db (acts l P (initialWorld cfg)))
    /\ indexOrdered (db (acts l P (initialWorld cfg))).
Proof.
  intros P cfg l. split.
  - apply acts_keepsDb;
      [apply uniqueIds_filter | apply uniqueIds_put | constructor].
  - apply acts_keepsDb;
      [intros f l0; apply indexOrdered_filter | apply indexOrdered_put | exact I].
Qed.

Lemma store_run (P : Platform) (w : World) msgId d tags ttl :
  run (store msgId d tags ttl) P w
  = (Normal tt,
     with_db (db_put (makeRecord P msgId d tags
                        (Date_now P (clock_reads w) + ttl * 1000)) (db w))
       (afterClock w)).
Proof. reflexivity. Qed.

(** X10.  After [store(msgId, data, tags, ttl)] the store holds the new
    record and no other record with that id -- a record that had the id
    is replaced -- while the records with other ids are exactly those it
    held before.  [getAllMessages()] returns the record as long as the
    clock has not passed its expiry, [Date.now() + ttl * 1000] at the time
    of the call, and does not return it afterwards. *)
Theorem store_then_read :
  forall (P : Platform) (w : World) msgId d tags ttl,
    let expiry := Date_now P (clock_reads w) + ttl * 1000 in
    let r := makeRecord P msgId d tags expiry in
    let w' := exec (store msgId d tags ttl) P w in
    In r (db w')
    /\ (forall r', In r' (db w') -> id r' = msgId -> r' = r)
    /\ (forall r', id r' <> msgId -> (In r' (db w') <-> In r' (db w)))
    /\ client w' = client w /\ requests w' = requests w
    /\ (Date_now P (clock_reads w') <= expiry ->
        In r (match result (getAllMessages None) P w' with
              | Normal l => l
              | Throw _ => []
              end))
    /\ (expiry < Date_now P (clock_reads w') ->
        forall r', In r' (match result (getAllMessages None) P w' with
                          | Normal l => l
                          | Throw _ => []
                          end) -> id r' <> msgId).
Proof.
  intros P w msgId d tags ttl expiry r w'. subst w'. unfold exec.
  pose proof (store_run P w msgId d tags ttl) as Hr. unfold run in Hr.
  rewrite Hr. cbn [snd with_db db client requests afterClock clock_reads].
  fold expiry. fold r.
  assert (Hin : forall r', In r' (db_put r (db w))
                           <-> r' = r \/ (In r' (db w) /\ id r' <> msgId)).
  { intros r'. unfold db_put. rewrite In_insert_record, In_delete_ids.
    cbn [In id r makeRecord]. intuition auto. }
  assert (Hsame : forall r', In r' (db_put r (db w)) -> id r' = msgId -> r' = r).
  { intros r' H1 H2. apply Hin in H1 as [-> | [_ H1]]; [reflexivity | contradiction]. }
  split; [apply Hin; now left |].
  split; [exact Hsame |].
  split.
  { intros r' Hne. rewrite Hin. split.
    - intros [-> | [H _]]; [exfalso; apply Hne; reflexivity | exact H].
    - intros H. right. split; assumption. }
  split; [reflexivity |]. split; [reflexivity |].
  unfold result, getAllMessages, bind, now, getDb, ret.
  cbn [fst snd db clock_reads with_db afterClock].
  split.
  - intros Hlive. apply filter_In. split; [apply Hin; now left |].
    unfold live. subst r. cbn [expires_at makeRecord]. subst expiry. lia.
  - intros Hdead r' Hr' Hid. apply filter_In in Hr' as [Hr' Hl].
    rewrite (Hsame r' Hr' Hid) in Hl. unfold live in Hl.
    subst r. cbn [expires_at makeRecord] in Hl. subst expiry. lia.
Qed.

Lemma store_then_read_witness :
  let P := Demo.online in
  let w := Demo.worldWithStore [Demo.soundRecord] in
  let r := makeRecord P "offline_1700000000500_bbbbbbbbb" (JStr "new") None
             (1700000000000 + 60 * 1000) in
  let w' := exec (store "offline_1700000000500_bbbbbbbbb" (JStr "new") None 60) P w in
  db w' = [r]
  /\ In r (match result (getAllMessages None) P w' with
           | Normal l => l
           | Throw _ => []
           end).
Proof.
  intros P w r w'.
  destruct (store_then_read P w "offline_1700000000500_bbbbbbbbb" (JStr "new") None 60)
    as (_ & _ & _ & _ & _ & Hlive & _).
  split; [reflexivity |]. apply Hlive. vm_compute. discriminate.
Defined.

Lemma delete_ids_absent (ids : list string) (l : list OfflineRecord) :
  (forall r, In r l -> ~ In (id r) ids) -> delete_ids ids l = l.
Proof.
  unfold delete_ids. induction l as [| a l IH]; intros H; cbn [filter];
    [reflexivity |].
  assert (Ha : existsb (String.eqb (id a)) ids = false).
  { apply not_true_iff_false. intros He.
    apply existsb_exists in He as (k & Hk & He). apply String.eqb_eq in He.
    subst k. apply (H a); [now left | exact Hk]. }
  rewrite Ha. cbn [negb]. f_equal. apply IH. intros r Hr. apply H. now right.
Qed.

Lemma delete_ids_insert (ids : list string) r (l : list OfflineRecord) :
  In (id r) ids -> delete_ids ids (insert_record r l) = delete_ids ids l.
Proof.
  intros Hr.
  assert (He : existsb (String.eqb (id r)) ids = true).
  { apply existsb_exists. exists (id r). split; [exact Hr | apply String.eqb_refl]. }
  unfold delete_ids.
  induction l as [| a l IH]; cbn [insert_record filter].
  - now rewrite He.
  - destruct (record_before r a); cbn [filter].
    + now rewrite He.
    + now rewrite IH.
Qed.

(** X11.  After [deleteMessages(msgIds)] the store holds exactly the
    records it held whose id is not in the list, and nothing else has
    changed; the empty list changes nothing.  Storing a record under an id
    the store does not hold and deleting that id leaves the store as it
    was. *)
Theorem deleteMessages_removes_exactly :
  forall (P : Platform) (w : World) (msgIds : list string),
    let w' := exec (deleteMessages msgIds) P w in
    (forall r, In r (db w') <-> In r (db w) /\ ~ In (id r) msgIds)
    /\ w' = with_db (db w') w
    /\ (msgIds = [] -> w' = w)
    /\ (forall msgId d tags ttl,
          ~ In msgId (map id (db w)) ->
          db (exec (deleteMessages [msgId]) P (exec (store msgId d tags ttl) P w))
          = db w).
Proof.
  intros P w msgIds w'. subst w'. unfold exec.
  rewrite deleteMessages_run. cbn [snd with_db db].
  split; [intros r; apply In_delete_ids |]. split; [reflexivity |]. split.
  - intros ->. rewrite delete_ids_absent by (intros r _ []).
    destruct w. reflexivity.
  - intros msgId d tags ttl Hfresh.
    pose proof (store_run P w msgId d tags ttl) as Hr. unfold run in Hr.
    rewrite Hr, deleteMessages_run. cbn [snd with_db db afterClock].
    unfold db_put. cbn [id makeRecord].
    rewrite delete_ids_insert by (cbn [id makeRecord]; now left).
    assert (Hl : delete_ids [msgId] (db w) = db w).
    { apply delete_ids_absent. intros r Hr' [Hk | []]. apply Hfresh.
      rewrite Hk. now apply in_map. }
    now rewrite !Hl.
Qed.

Lemma deleteMessages_removes_exactly_witness :
  let P := Demo.online in
  let w := Demo.worldWithStore [Demo.corruptedRecord; Demo.soundRecord] in
  exec (deleteMessages []) P w = w
  /\ db (exec (deleteMessages ["fresh-id"])
           P (exec (store "fresh-id" (JStr "x") None 60) P w))
     = db w.
Proof.
  intros P w.
  destruct (deleteMessages_removes_exactly P w []) as (_ & _ & Hnil & Hround).
  split; [apply Hnil; reflexivity |].
  apply Hround. cbn. intros [H | [H | []]]; discriminate H.
Defined.

Lemma filter_live_later (t t' : Z) (l : list OfflineRecord) :
  t <= t' -> filter (live t') (filter (live t) l) = filter (live t') l.
Proof.
  intros Ht. induction l as [| a l IH]; cbn [filter]; [reflexivity |].
  destruct (live t a) eqn:Ha; cbn [filter].
  - now rewrite IH.
  - assert (Ha' : live t' a = false) by (unfold live in *; lia).
    now rewrite Ha', IH.
Qed.

Lemma cleanupExpired_run (P : Platform) (w : World) :
  let t := Date_now P (clock_reads w) in
  run cleanupExpired P w
  = (Normal (Z.of_nat (List.length (db w))
             - Z.of_nat (List.length (filter (live t) (db w)))),
     with_db (filter (live t) (db w)) (afterClock w)).
Proof.
  intros t. unfold run, cleanupExpired, bind, now, getDb, modifyDb, ret.
  cbn [fst snd db clock_reads].
  assert (Hf : forall l : list OfflineRecord,
            filter (fun r => negb (expires_at r <=? Date_now P (clock_reads w) - 1)) l
            = filter (live t) l).
  { intros l. apply filter_ext. intros a. unfold live. subst t. lia. }
  rewrite Hf. unfold with_db, afterClock. cbn. f_equal. f_equal.
  pose proof (filter_length
                (fun r => expires_at r <=? Date_now P (clock_reads w) - 1) (db w)) as Hl.
  rewrite Hf in Hl. lia.
Qed.

(** X12.  [cleanupExpired] deletes the records whose expiry is before
    the current time and no other, and resolves to the number it deleted;
    it touches nothing but the store.  At that time and at any later one,
    the live records are the same with and without the cleanup, so it
    never changes what [getAllMessages] and [getMessageCount] report. *)
Theorem cleanupExpired_purges_only_expired :
  forall (P : Platform) (w : World),
    let t := Date_now P (clock_reads w) in
    let w' := exec cleanupExpired P w in
    result cleanupExpired P w
    = Normal (Z.of_nat (List.length (db w)) - Z.of_nat (List.length (db w')))
    /\ (forall r, In r (db w') <-> In r (db w) /\ t <= expires_at r)
    /\ client w' = client w /\ requests w' = requests w
    /\ (forall t', t <= t' -> filter (live t') (db w') = filter (live t') (db w)).
Proof.
  intros P w t w'. subst w'. unfold result, exec.
  pose proof (cleanupExpired_run P w) as Hr. unfold run in Hr. cbv zeta in Hr.
  rewrite Hr. cbn [fst snd with_db db client requests afterClock]. fold t.
  split; [reflexivity |]. split.
  - intros r. rewrite filter_In. unfold live. rewrite Z.leb_le. reflexivity.
  - split; [reflexivity |]. split; [reflexivity |].
    intros t' Ht. now apply filter_live_later.
Qed.

Lemma cleanupExpired_purges_only_expired_witness :
  let P := Demo.platformWith (fun _ _ => NetworkFailure) in
  let old := mkOfflineRecord "offline_1_a" "n" None 1600000000000 in
  let w := Demo.worldWithStore [old; Demo.soundRecord] in
  result cleanupExpired P w = Normal 1
  /\ db (exec cleanupExpired P w) = [Demo.soundRecord]
  /\ filter (live 1700000005000) (db (exec cleanupExpired P w))
     = filter (live 1700000005000) (db w).
Proof.
  intros P old w.
  destruct (cleanupExpired_purges_only_expired P w) as (Hn & _ & _ & _ & Hsame).
  split; [exact Hn |]. split; [reflexivity |].
  apply Hsame. vm_compute. discriminate.
Defined.

Lemma indexOrdered_firstn (n : nat) (l : list OfflineRecord) :
  indexOrdered l -> indexOrdered (firstn n l).
Proof.
  revert l. induction n as [| n IH]; intros [| a l]; cbn [firstn indexOrdered];
    auto.
  intros [Ha Hl]. split; [| now apply IH].
  apply Forall_forall. intros x Hx. apply In_firstn in Hx.
  now apply (proj1 (Forall_forall _ l) Ha).
Qed.

(** X13.  [getAllMessages(limit)] and [getMessageCount()] only read: the
    world is as before but for the clock.  The records returned are live
    at the current time, they are the first ones of the live records in
    index order, all of them when there is no limit or the limit is 0 and
    at most [limit] otherwise; the count is the number of live
    records. *)
Theorem getAllMessages_reads_live_records :
  forall (P : Platform) (w : World) (limit : option Z),
    let t := Date_now P (clock_reads w) in
    let alive := filter (live t) (db w) in
    exists l,
      run (getAllMessages limit) P w = (Normal l, afterClock w)
      /\ Forall (fun r => t <= expires_at r) l
      /\ (exists rest, alive = l ++ rest)
      /\ (limit = None \/ limit = Some 0 -> l = alive)
      /\ (forall n, limit = Some n -> 0 < n -> Z.of_nat (List.length l) <= n)
      /\ (indexOrdered (db w) -> indexOrdered l)
      /\ run getMessageCount P w
         = (Normal (Z.of_nat (List.length alive)), afterClock w).
Proof.
  intros P w limit t alive.
  unfold run, getAllMessages, getMessageCount, bind, now, getDb, ret.
  cbn [fst snd db clock_reads]. fold (afterClock w). fold t. fold alive.
  assert (Hlive : Forall (fun r => t <= expires_at r) alive).
  { apply Forall_forall. intros r Hr. apply filter_In in Hr as [_ Hr].
    unfold live in Hr. lia. }
  assert (Hall : Forall (fun r => t <= expires_at r) alive
                 /\ (exists rest, alive = alive ++ rest)
                 /\ (indexOrdered (db w) -> indexOrdered alive)).
  { split; [exact Hlive |]. split; [exists []; now rewrite app_nil_r |].
    intros Ho. now apply indexOrdered_filter. }
  destruct Hall as (A1 & A2 & A3).
  destruct limit as [n |].
  - destruct (n =? 0) eqn:E.
    + exists alive. split; [reflexivity |]. split; [exact A1 |].
      split; [exact A2 |]. split; [reflexivity |]. split.
      * intros n0 Hl Hpos. injection Hl as <-. lia.
      * split; [exact A3 | reflexivity].
    + exists (firstn (Z.to_nat n) alive). split; [reflexivity |]. split.
      { apply Forall_forall. intros r Hr. apply In_firstn in Hr.
        now apply (proj1 (Forall_forall _ alive) Hlive). }
      split; [exists (skipn (Z.to_nat n) alive); symmetry; apply firstn_skipn |].
      split; [intros [H | H]; [discriminate | injection H as H; lia] |].
      split.
      * intros n0 Hl Hpos. injection Hl as <-.
        pose proof (firstn_le_length (Z.to_nat n) alive). lia.
      * split; [| reflexivity]. intros Ho.
        apply indexOrdered_firstn. now apply A3.
  - exists alive. split; [reflexivity |]. split; [exact A1 |].
    split; [exact A2 |]. split; [reflexivity |]. split.
    + intros n0 Hl. discriminate Hl.
    + split; [exact A3 | reflexivity].
Qed.

Lemma getAllMessages_reads_live_records_witness :
  let w := Demo.worldWithStore [Demo.corruptedRecord; Demo.soundRecord] in
  exists l,
    run (getAllMessages (Some 1)) Demo.online w = (Normal l, afterClock w)
    /\ Z.of_nat (List.length l) <= 1.
Proof.
  intros w.
  destruct (getAllMessages_reads_live_records Demo.online w (Some 1))
    as (l & Hrun & _ & _ & _ & Hlim & _).
  exists l. split; [exact Hrun |]. apply (Hlim 1 eq_refl). lia.
Defined.

(** ** The sender tick *)

Lemma senderTick_phases :
  senderTick
  = (currentTime <- now ;;
     c <- getClient ;;
     (if _lastConnectionCheck c + 30000 <=? currentTime then
        let previousState := _connectionState c in
        checkConnectionState ;;
        modify (set_lastConnectionCheck currentTime) ;;
        c1 <- getClient ;;
        if negb previousState && _connectionState c1 && storage c1
        then processOfflineMessages
        else ret tt
      else ret tt) ;;
     tickAfterConnection currentTime).
Proof. reflexivity. Qed.

Lemma senderTick_in_cooldown (P : Platform) (w : World) :
  cooldownRunning P w ->
  senderTick P w = tickAfterConnection (Date_now P (clock_reads w)) P (afterClock w).
Proof.
  unfold cooldownRunning. intros Hc. rewrite senderTick_phases.
  unfold bind at 1, now. cbn [fst snd]. unfold bind at 1, getClient.
  cbn [client]. unfold bind at 1.
  replace (_ <=? _) with false by lia. reflexivity.
Qed.

Lemma spilled_frame (P : Platform) (batch : list Message) :
  forall w,
    client (spilled P batch w) = client w
    /\ requests (spilled P batch w) = requests w
    /\ delivered (spilled P batch w) = delivered w.
Proof.
  unfold spilled. induction batch as [| m batch IH]; intros w; cbn [fold_left];
    [repeat split |].
  destruct (IH (afterStoreOffline P m w)) as (A & B & C).
  rewrite A, B, C. repeat split.
Qed.

(** The drain phase when no cleanup is due, case by case. *)
Lemma tickAfterConnection_run (P : Platform) (t : Z) (w : World) :
  storage (client w) = false \/ t < _lastCleanup (client w) + 60000 ->
  let c := client w in
  let batch := fst (getBatch c) in
  let w1 := with_client (snd (getBatch c)) w in
  let w2 := afterRequest (PostMessages batch) w1 in
  tickAfterConnection t P w
  = (Normal tt,
     if has_items (queue c) then
       if has_items batch then
         if _connectionState c then
           if batchAccepted (fetch_result P (List.length (requests w))
                               (PostMessages batch))
           then w2
           else if storage c then spilled P batch w2 else w2
         else if storage c then spilled P batch w1 else w1
       else w1
     else w).
Proof.
  intros Hdue c batch w1 w2.
  assert (Hclean : forall w0,
            client w0 = snd (getBatch c) \/ client w0 = c ->
            (c5 <- getClient ;;
             if storage c5 && (_lastCleanup c5 + 60000 <=? t) then
               cleanupExpired ;; modify (set_lastCleanup t)
             else ret tt) P w0 = (Normal tt, w0)).
  { intros w0 Hw0. unfold bind at 1, getClient.
    assert (Hs : storage (client w0) = storage c
                 /\ _lastCleanup (client w0) = _lastCleanup c).
    { destruct Hw0 as [-> | ->]; [rewrite getBatch_rest |]; split; reflexivity. }
    destruct Hs as [-> ->]. subst c.
    destruct Hdue as [-> | Hlt]; [reflexivity |].
    replace (_ <=? t) with false by lia. now rewrite andb_false_r. }
  unfold tickAfterConnection. unfold bind at 1, getClient. fold c.
  unfold bind at 1.
  destruct (has_items (queue c)) eqn:Hq;
    [| unfold ret at 1; apply Hclean; now right].
  unfold bind at 1.
  assert (Hlift : liftClient getBatch P w = (Normal batch, w1)) by reflexivity.
  rewrite Hlift.
  assert (Hc1 : client w1 = snd (getBatch c)) by reflexivity.
  destruct (has_items batch) eqn:Hb;
    [| unfold ret at 1; apply Hclean; now left].
  assert (Hne : batch <> []) by (intros He; rewrite He in Hb; discriminate).
  unfold bind at 1, getClient. rewrite Hc1.
  assert (Hconn : _connectionState (snd (getBatch c)) = _connectionState c)
    by (rewrite getBatch_rest; reflexivity).
  assert (Hst : storage (snd (getBatch c)) = storage c)
    by (rewrite getBatch_rest; reflexivity).
  rewrite Hconn, Hst.
  destruct (_connectionState c).
  - unfold bind at 1. rewrite (publishMessages_run P batch w1 Hne).
    fold w2. unfold bind at 1, getClient.
    assert (Hc2 : client w2 = snd (getBatch c)) by reflexivity.
    rewrite Hc2, Hst.
    assert (Hreq : requests w1 = requests w) by reflexivity. rewrite Hreq.
    destruct (batchAccepted _); cbn [negb andb];
      [unfold ret at 1; apply Hclean; now left |].
    destruct (storage c) eqn:Hs; [| unfold ret at 1; apply Hclean; now left].
    pose proof (storeBatchOffline_run P w2 batch) as Hrun.
    unfold run in Hrun. rewrite Hrun by (rewrite Hc2; exact Hst).
    fold (spilled P batch w2). apply Hclean.
    left. now rewrite (proj1 (spilled_frame P batch w2)).
  - destruct (storage c) eqn:Hs; [| unfold ret at 1; apply Hclean; now left].
    pose proof (storeBatchOffline_run P w1 batch) as Hrun.
    unfold run in Hrun. rewrite Hrun by (rewrite Hc1; exact Hst).
    fold (spilled P batch w1). apply Hclean.
    left. now rewrite (proj1 (spilled_frame P batch w1)).
Qed.

Lemma senderTick_drain_run (P : Platform) (w : World) :
  cooldownRunning P w -> cleanupNotDue P w ->
  let c := client w in
  let batch := fst (getBatch c) in
  let w1 := batchTaken w in
  let w2 := afterRequest (PostMessages batch) w1 in
  run senderTick P w
  = (Normal tt,
     if has_items (queue c) then
       if has_items batch then
         if _connectionState c then
           if batchAccepted (fetch_result P (List.length (requests w))
                               (PostMessages batch))
           then w2
           else if storage c then spilled P batch w2 else w2
         else if storage c then spilled P batch w1 else w1
       else w1
     else afterClock w).
Proof.
  intros Hcool Hdue c batch w1 w2. unfold run.
  rewrite (senderTick_in_cooldown P w Hcool).
  apply (tickAfterConnection_run P (Date_now P (clock_reads w)) (afterClock w)).
  exact Hdue.
Qed.

Lemma batch_of_empty_queue (c : TendrlClient) :
  has_items (queue c) = false -> fst (getBatch c) = [].
Proof.
  rewrite getBatch_batch. destruct (queue c); [| discriminate].
  intros _. now rewrite firstn_nil.
Qed.

(** X14.  A tick inside the cooldown of the connection check, with no
    cleanup due, does nothing but read the clock when the queue is empty.
    With [maxBatchSize <= 0] it never sends or stores anything either,
    however full the queue is: the queue stays as it is. *)
Theorem senderTick_idle :
  forall (P : Platform) (w : World),
    cooldownRunning P w -> cleanupNotDue P w ->
    let w' := exec senderTick P w in
    (queue (client w) = [] -> run senderTick P w = (Normal tt, afterClock w))
    /\ (maxBatchSize (client w) <= 0 ->
        queue (client w') = queue (client w)
        /\ requests w' = requests w /\ db w' = db w).
Proof.
  intros P w Hcool Hdue w'. subst w'. unfold exec.
  pose proof (senderTick_drain_run P w Hcool Hdue) as Hr. unfold run in Hr.
  cbv zeta in Hr. split.
  - intros Hq. unfold run. rewrite Hr, Hq. reflexivity.
  - intros Hz. rewrite Hr. cbn [snd].
    assert (Hb : fst (getBatch (client w)) = []).
    { rewrite getBatch_batch.
      replace (batchCount (client w)) with 0%nat by (unfold batchCount; lia).
      reflexivity. }
    assert (Hrest : queue (snd (getBatch (client w))) = queue (client w)).
    { rewrite getBatch_rest.
      replace (batchCount (client w)) with 0%nat by (unfold batchCount; lia).
      reflexivity. }
    rewrite Hb. cbn [has_items].
    destruct (has_items (queue (client w))); [| repeat split].
    unfold batchTaken. cbn [client with_client db requests afterClock].
    repeat split. exact Hrest.
Qed.

Lemma senderTick_idle_witness :
  let P := Demo.online in
  let w := exec checkConnectionState P (initialWorld defaultConfig) in
  run senderTick P w = (Normal tt, afterClock w).
Proof.
  intros P w.
  destruct (senderTick_idle P w) as [Hidle _].
  - unfold cooldownRunning. vm_compute. reflexivity.
  - left. reflexivity.
  - apply Hidle. reflexivity.
Defined.

(** X15.  A tick inside the cooldown, believing the server reachable,
    with a batch to send and no cleanup due, issues exactly one request:
    the POST of the batch, which is the first [min(length, maxBatchSize)]
    messages of the queue; those messages leave the queue whatever the
    answer.  When the batch is accepted (200 or 201) the store is not
    touched.  When it is refused, each message of the batch is stored
    offline if a store is configured; without a store the batch is in
    neither the queue nor the store. *)
Theorem senderTick_sends_one_batch :
  forall (P : Platform) (w : World),
    cooldownRunning P w -> cleanupNotDue P w ->
    _connectionState (client w) = true ->
    fst (getBatch (client w)) <> [] ->
    let batch := fst (getBatch (client w)) in
    let answer := fetch_result P (List.length (requests w)) (PostMessages batch) in
    let sent := afterRequest (PostMessages batch) (batchTaken w) in
    let w' := exec senderTick P w in
    requests w' = requests w ++ [PostMessages batch]
    /\ queue (client w') = skipn (batchCount (client w)) (queue (client w))
    /\ (batchAccepted answer = true -> w' = sent)
    /\ (batchAccepted answer = false -> storage (client w) = true ->
        w' = spilled P batch sent)
    /\ (batchAccepted answer = false -> storage (client w) = false -> w' = sent).
Proof.
  intros P w Hcool Hdue Hconn Hne batch answer sent w'. subst w'. unfold exec.
  pose proof (senderTick_drain_run P w Hcool Hdue) as Hr. unfold run in Hr.
  cbv zeta in Hr. rewrite Hr. cbn [snd]. clear Hr.
  fold batch. fold answer. fold sent. rewrite Hconn.
  destruct (has_items (queue (client w))) eqn:Hq;
    [| apply batch_of_empty_queue in Hq; contradiction].
  assert (Hb : has_items batch = true)
    by (subst batch; destruct (fst (getBatch (client w))); [contradiction | reflexivity]).
  rewrite Hb.
  assert (Hsent : requests sent = requests w ++ [PostMessages batch]
                  /\ queue (client sent)
                     = skipn (batchCount (client w)) (queue (client w)))
    by (split; reflexivity).
  destruct Hsent as [Hs1 Hs2].
  destruct (spilled_frame P batch sent) as (Hf1 & Hf2 & _).
  destruct (batchAccepted answer); [| destruct (storage (client w))];
    repeat split; try assumption; try discriminate;
    try (rewrite Hf2; exact Hs1); try (rewrite Hf1; exact Hs2).
Qed.

(** X16.  A tick inside the cooldown, believing the server unreachable,
    issues no request.  The batch leaves the queue all the same: each of
    its messages is stored offline when a store is configured, and
    without a store the batch is in neither the queue nor the store. *)
Theorem senderTick_unreachable_spills_or_drops :
  forall (P : Platform) (w : World),
    cooldownRunning P w -> cleanupNotDue P w ->
    _connectionState (client w) = false ->
    fst (getBatch (client w)) <> [] ->
    let batch := fst (getBatch (client w)) in
    let w' := exec senderTick P w in
    requests w' = requests w
    /\ queue (client w') = skipn (batchCount (client w)) (queue (client w))
    /\ (storage (client w) = true -> w' = spilled P batch (batchTaken w))
    /\ (storage (client w) = false -> w' = batchTaken w).
Proof.
  intros P w Hcool Hdue Hconn Hne batch w'. subst w'. unfold exec.
  pose proof (senderTick_drain_run P w Hcool Hdue) as Hr. unfold run in Hr.
  cbv zeta in Hr. rewrite Hr. cbn [snd]. clear Hr.
  fold batch. rewrite Hconn.
  destruct (has_items (queue (client w))) eqn:Hq;
    [| apply batch_of_empty_queue in Hq; contradiction].
  assert (Hb : has_items batch = true)
    by (subst batch; destruct (fst (getBatch (client w))); [contradiction | reflexivity]).
  rewrite Hb.
  destruct (spilled_frame P batch (batchTaken w)) as (Hf1 & Hf2 & _).
  destruct (storage (client w)); repeat split; try discriminate;
    try (rewrite Hf2; reflexivity); try (rewrite Hf1; reflexivity).
Qed.

Lemma senderTick_sends_one_batch_witness :
  let P := Demo.online in
  let w := Samples.readyToSend in
  let batch := queue (client w) in
  requests (exec senderTick P w) = requests w ++ [PostMessages batch]
  /\ exec senderTick P w = afterRequest (PostMessages batch) (batchTaken w).
Proof.
  intros P w batch.
  assert (Hcool : cooldownRunning P w) by (vm_compute; reflexivity).
  assert (Hdue : cleanupNotDue P w) by (left; reflexivity).
  destruct (senderTick_sends_one_batch P w Hcool Hdue eq_refl
              ltac:(vm_compute; discriminate))
    as (Hreq & _ & Hok & _).
  split; [exact Hreq |]. apply Hok. reflexivity.
Defined.

Lemma senderTick_unreachable_spills_or_drops_witness :
  let P := Demo.offline in
  let w := Samples.cutOff in
  requests (exec senderTick P w) = requests w
  /\ queue (client (exec senderTick P w)) = []
  /\ exec senderTick P w = spilled P (queue (client w)) (batchTaken w).
Proof.
  intros P w.
  assert (Hcool : cooldownRunning P w) by (vm_compute; reflexivity).
  assert (Hdue : cleanupNotDue P w) by (right; vm_compute; reflexivity).
  destruct (senderTick_unreachable_spills_or_drops P w Hcool Hdue eq_refl
              ltac:(vm_compute; discriminate))
    as (Hreq & Hq & Hst & _).
  split; [exact Hreq |]. split; [exact Hq |]. apply Hst. reflexivity.
Defined.

(** X17.  When a store is configured and 60 s have gone by since the
    last cleanup, a tick (here inside the cooldown, on an empty queue)
    purges the records that have expired and restarts the 60 s from its
    own clock reading; it issues no request. *)
Theorem senderTick_cleans_up_when_due :
  forall (P : Platform) (w : World),
    cooldownRunning P w ->
    storage (client w) = true ->
    _lastCleanup (client w) + 60000 <= Date_now P (clock_reads w) ->
    queue (client w) = [] ->
    let w' := exec senderTick P w in
    db w' = filter (live (Date_now P (S (clock_reads w)))) (db w)
    /\ _lastCleanup (client w') = Date_now P (clock_reads w)
    /\ requests w' = requests w
    /\ queue (client w') = [].
Proof.
  intros P w Hcool Hs Hdue Hq w'. subst w'. unfold exec.
  rewrite (senderTick_in_cooldown P w Hcool).
  pose proof (cleanupExpired_run P (afterClock w)) as Hr.
  unfold run in Hr. cbv zeta in Hr.
  unfold tickAfterConnection, bind, getClient, ret, modify.
  cbn [client afterClock fst snd]. rewrite Hq. cbn [has_items].
  cbn [client afterClock fst snd]. rewrite Hs.
  replace (_ <=? _) with true by lia. cbn [andb].
  rewrite Hr. cbn. rewrite Hq. repeat split.
Qed.

Lemma senderTick_cleans_up_when_due_witness :
  let P := Demo.offline in
  let old := mkOfflineRecord "offline_1_a" "n" None 1600000000000 in
  let w := exec checkConnectionState P (Demo.worldWithStore [old; Demo.soundRecord]) in
  db (exec senderTick P w) = [Demo.soundRecord]
  /\ _lastCleanup (client (exec senderTick P w)) = 1700000001000.
Proof.
  intros P old w.
  destruct (senderTick_cleans_up_when_due P w) as (Hdb & Hlast & _).
  - unfold cooldownRunning. vm_compute. reflexivity.
  - reflexivity.
  - vm_compute. discriminate.
  - reflexivity.
  - split; [rewrite Hdb; reflexivity | rewrite Hlast; reflexivity].
Defined.

(** ** Lifecycle *)

Lemma lifecycle_fields_maintained (b cb : bool) (p : option Q) :
  Maintained (fun c => _isRunning c = b /\ callback c = cb /\ senderInterval c = p).
Proof.
  constructor; cbn; auto.
  intros m c H. unfold enqueue. destruct (_ <? _); cbn; exact H.
Qed.

Lemma client_event_keeps (I : TendrlClient -> Prop) (e : Event) P w :
  Maintained I -> leavesTimer e = true ->
  I (client w) -> I (client (step e P w)).
Proof.
  intros HI He H. destruct e; try discriminate He; cbn [step]; unfold exec.
  - now apply (keeps_publish _ HI).
  - now apply keeps_sendHeartbeat.
  - apply keeps_liftClient; [intros c; apply (by_getBatch HI) | exact H].
  - now apply (keeps_checkMessages _ HI).
  - now apply (keeps_checkConnectionState _ HI).
  - now apply keeps_processOfflineMessages.
  - now apply (keeps_senderTick _ HI).
Qed.

Lemma direct_call_keeps (I : TendrlClient -> Prop) (d : DirectCall) P w :
  Maintained I -> I (client w) -> I (client (directStep d P w)).
Proof.
  intros HI H. destruct d; cbn [directStep]; unfold exec.
  - now apply (keeps_checkMessagesAPI _ HI).
  - now apply keeps_transformCheckMessage.
  - now apply keeps_handleCheckMessagesResponse.
  - exact H.
  - now apply keeps_publishMessage.
  - now apply keeps_publishMessages.
  - now apply keeps_storeBatchOffline.
Qed.

Lemma startMessageChecking_fields (r : Runtime) :
  world (startMessageChecking r) = world r
  /\ checkMsgRate (startMessageChecking r) = checkMsgRate r
  /\ (callback (client (world r)) = true -> 0 < checkMsgRate r ->
      messageCheckInterval (startMessageChecking r)
      = Some (mkPollTimer (checkMsgRate r) false)).
Proof.
  unfold startMessageChecking.
  destruct (callback (client (world r))); cbn [andb].
  - destruct (0 <? checkMsgRate r) eqn:Hrate; cbn; repeat split; auto.
    intros _ Hpos. apply Z.ltb_ge in Hrate. lia.
  - cbn. repeat split; auto. discriminate.
Qed.

Lemma running_timers (r r' : Runtime) :
  _isRunning (client (world r')) = true ->
  senderInterval (client (world r')) <> None ->
  (callback (client (world r')) = true -> 0 < checkMsgRate r' ->
   messageCheckInterval r' = Some (mkPollTimer (checkMsgRate r') false)) ->
  timersFollowState r'.
Proof.
  intros Hrun Hs Hp. split; intros Hr.
  - rewrite Hrun in Hr. discriminate.
  - split; assumption.
Qed.

Lemma start_world (P : Platform) (r : Runtime) :
  _isRunning (client (world r)) = false ->
  world (start P r)
  = with_client
      (set_senderInterval (Some (calculateBatchInterval (client (world r))))
         (set_isRunning true (client (world r))))
      (afterRequest (PutStatus true) (world r))
  /\ checkMsgRate (start P r) = checkMsgRate r.
Proof.
  intros Hr. unfold start. rewrite Hr. cbv zeta.
  destruct (callback _);
    [destruct (startMessageChecking_fields
                 (with_world
                    (exec startSender P
                       (exec (_updateEntityStatus true) P
                          (exec (modify (set_isRunning true)) P (world r)))) r))
       as (-> & -> & _) |];
    destruct r as [[c d rq dl cr rr] rate h]; split; reflexivity.
Qed.

Lemma lifecycleStep_keeps (a : LifecycleCall) (P : Platform) (r : Runtime) :
  viaLifecycle a = true ->
  timersFollowState r -> timersFollowState (lifecycleStep a P r).
Proof.
  intros Ha Hinv. pose proof Hinv as [Hoff Hon].
  assert (Hworld : forall w',
            _isRunning (client w') = _isRunning (client (world r)) ->
            callback (client w') = callback (client (world r)) ->
            senderInterval (client w') = senderInterval (client (world r)) ->
            timersFollowState (with_world w' r)).
  { intros w' H1 H2 H3. unfold timersFollowState, pollActive.
    cbn [world with_world checkMsgRate messageCheckInterval].
    rewrite H1, H2, H3. split; assumption. }
  destruct a; cbn [lifecycleStep].
  - (* start *)
    destruct (_isRunning (client (world r))) eqn:Hr;
      [unfold start; rewrite Hr; exact Hinv |].
    destruct (start_world P r Hr) as [Hw Hrate].
    apply (running_timers r); rewrite ?Hw; [reflexivity | discriminate |].
    unfold start. rewrite Hr. cbv zeta.
    destruct (callback (client (exec startSender P _))) eqn:Hcb.
    + destruct (startMessageChecking_fields
                  (with_world
                     (exec startSender P
                        (exec (_updateEntityStatus true) P
                           (exec (modify (set_isRunning true)) P (world r)))) r))
        as (_ & Hrate' & Ht).
      intros _. rewrite Hrate'. apply Ht. exact Hcb.
    + cbn in Hcb.
      cbn [callback client with_client set_senderInterval set_isRunning
           afterRequest].
      rewrite Hcb. discriminate.
  - (* stop *)
    unfold stop. destruct (_isRunning (client (world r))) eqn:Hr; cbn [negb];
      [| exact Hinv].
    split; [intros _; split; reflexivity | discriminate].
  - (* setMessageCallback *)
    destruct cb; cbn [setMessageCallback snd]; [| | exact Hinv].
    + rewrite andb_false_r.
      split; cbn [world with_world exec modify snd client with_client
                  set_callback _isRunning senderInterval callback];
        [exact Hoff |].
      intros Hrun. split; [apply Hon, Hrun | discriminate].
    + rewrite andb_true_r.
      cbn [world with_world exec modify snd client with_client set_callback
           _isRunning].
      destruct (_isRunning (client (world r))) eqn:Hr.
      * apply (running_timers r);
          destruct (startMessageChecking_fields
                      (with_world
                         (with_client (set_callback true (client (world r)))
                            (world r)) r)) as (Hw & Hrate & Ht);
          rewrite ?Hw, ?Hrate;
          cbn [world with_world client with_client set_callback _isRunning
               senderInterval checkMsgRate];
          [exact Hr | apply Hon; reflexivity |].
        intros _. apply Ht. reflexivity.
      * split; cbn [world with_world client with_client set_callback
                    _isRunning senderInterval];
          rewrite Hr; [intros _; apply Hoff; reflexivity | discriminate].
  - (* setMessageCheckRate *)
    unfold setMessageCheckRate. cbv zeta. cbn [world].
    destruct (_isRunning (client (world r))) eqn:Hr; cbn [andb].
    + destruct (callback (client (world r))) eqn:Hcb.
      * apply (running_timers r);
          destruct (startMessageChecking_fields
                      (mkRuntime (world r) rateMs (messageCheckInterval r)))
            as (Hw & Hrate & Ht);
          rewrite ?Hw, ?Hrate; cbn [world checkMsgRate];
          [exact Hr | apply Hon; reflexivity |].
        intros _. apply Ht. exact Hcb.
      * apply (running_timers r); cbn [world checkMsgRate];
          [exact Hr | apply Hon; reflexivity |].
        rewrite Hcb. discriminate.
    + split; cbn [world]; rewrite Hr;
        [intros _; apply Hoff; reflexivity | discriminate].
  - (* setMessageCheckLimit *)
    unfold setMessageCheckLimit. apply Hworld; reflexivity.
  - discriminate Ha.
  - discriminate Ha.
  - (* a tick of the message check *)
    destruct (pollActive r); [| exact Hinv].
    unfold pollTick.
    pose proof (keeps_checkMessages _
                  (lifecycle_fields_maintained
                     (_isRunning (client (world r))) (callback (client (world r)))
                     (senderInterval (client (world r))))
                  (Some (checkMsgLimit (client (world r)))) P (world r)
                  (conj eq_refl (conj eq_refl eq_refl))) as (H1 & H2 & H3).
    apply Hworld; assumption.
  - (* a method of the client *)
    cbn [viaLifecycle] in Ha.
    pose proof (client_event_keeps _ e P (world r)
                  (lifecycle_fields_maintained
                     (_isRunning (client (world r))) (callback (client (world r)))
                     (senderInterval (client (world r))))
                  Ha (conj eq_refl (conj eq_refl eq_refl))) as (H1 & H2 & H3).
    apply Hworld; assumption.
  - (* another method, called directly *)
    pose proof (direct_call_keeps _ d P (world r)
                  (lifecycle_fields_maintained
                     (_isRunning (client (world r))) (callback (client (world r)))
                     (senderInterval (client (world r))))
                  (conj eq_refl (conj eq_refl eq_refl))) as (H1 & H2 & H3).
    apply Hworld; assumption.
Qed.

(** X18.  Over any sequence of calls of the client's methods and of
    ticks of its two timers, from construction on, in which [startSender],
    [stopSender], [startMessageChecking] and [stopMessageChecking] are
    not called directly but only by [start], [stop], [setMessageCallback]
    and [setMessageCheckRate]: while the client is stopped neither timer
    is scheduled; while it is running the sender timer is scheduled and,
    whenever a callback is set and the rate is positive, so is the
    message check, with the current rate as its period. *)
Theorem timers_follow_lifecycle :
  forall (P : Platform) (cfg : Config) (rate : Z) (l : list LifecycleCall),
    forallb viaLifecycle l = true ->
    timersFollowState (lifecycleSteps l P (initialRuntime cfg rate)).
Proof.
  intros P cfg rate l.
  assert (H0 : timersFollowState (initialRuntime cfg rate)).
  { unfold timersFollowState, pollActive. cbn. split; [auto | discriminate]. }
  revert H0. generalize (initialRuntime cfg rate). unfold lifecycleSteps.
  induction l as [| a l IH]; intros r Hr Hl; cbn [fold_left]; [exact Hr |].
  cbn [forallb] in Hl. apply andb_true_iff in Hl as [Ha Hl].
  apply IH; [| exact Hl]. now apply lifecycleStep_keeps.
Qed.

Lemma timers_follow_lifecycle_witness :
  timersFollowState
    (lifecycleSteps
       [DoSetMessageCallback Handler; DoStart; DoClient (Demo.hello "a");
        DoSetMessageCheckRate 500; DoPollTick;
        DoDirect (CallCheckMessagesAPI 1); DoClient SenderTick; DoStop]
       Demo.online (initialRuntime defaultConfig 3000)).
Proof.
  apply timers_follow_lifecycle. reflexivity.
Defined.


Lemma start_running (P : Platform) (r : Runtime) :
  _isRunning (client (world (start P r))) = true.
Proof.
  destruct (_isRunning (client (world r))) eqn:Hr.
  - unfold start. rewrite Hr. exact Hr.
  - destruct (start_world P r Hr) as [-> _]. reflexivity.
Qed.

Lemma stop_world (P : Platform) (r : Runtime) :
  _isRunning (client (world r)) = true ->
  stop P r
  = mkRuntime
      (with_client
         (set_senderInterval None (set_isRunning false (client (world r))))
         (afterRequest (PutStatus false) (world r)))
      (checkMsgRate r) None.
Proof.
  intros Hr. unfold stop. rewrite Hr. cbn [negb]. cbv zeta.
  destruct r as [[c d rq dl cr rr] rate h]. reflexivity.
Qed.

(** X19.  [start] and [stop] are idempotent: a second [start] on a
    running client and a second [stop] on a stopped one change nothing
    and send nothing. *)
Theorem start_stop_idempotent :
  forall (P : Platform) (r : Runtime),
    start P (start P r) = start P r /\ stop P (stop P r) = stop P r.
Proof.
  intros P r. split.
  - pose proof (start_running P r) as H.
    unfold start at 1. rewrite H. reflexivity.
  - destruct (_isRunning (client (world r))) eqn:Hr.
    + rewrite (stop_world P r Hr). reflexivity.
    + assert (Hs : stop P r = r) by (unfold stop; rewrite Hr; reflexivity).
      rewrite !Hs. reflexivity.
Qed.

(** X20.  Starting a stopped client and stopping it again reports the
    entity online and then offline and does nothing else to the outside:
    no message is sent, the queue and the store are as before (queued
    messages are not flushed by [stop]), both timers are gone and
    [isConnected] is false. *)
Theorem start_then_stop :
  forall (P : Platform) (r : Runtime),
    _isRunning (client (world r)) = false ->
    let r' := stop P (start P r) in
    requests (world r') = requests (world r) ++ [PutStatus true; PutStatus false]
    /\ queue (client (world r')) = queue (client (world r))
    /\ db (world r') = db (world r)
    /\ delivered (world r') = delivered (world r)
    /\ _isRunning (client (world r')) = false
    /\ senderInterval (client (world r')) = None
    /\ messageCheckInterval r' = None
    /\ isConnected r' = false.
Proof.
  intros P r Hr r'. subst r'.
  rewrite (stop_world P (start P r) (start_running P r)).
  destruct (start_world P r Hr) as [-> _].
  unfold isConnected.
  cbn [world messageCheckInterval client with_client afterRequest requests db
       delivered queue set_senderInterval set_isRunning _isRunning
       senderInterval].
  rewrite <- app_assoc, andb_false_r. repeat split.
Qed.

Lemma start_then_stop_witness :
  let r := mkRuntime Samples.readyToSend 3000 None in
  let r' := stop Demo.online (start Demo.online r) in
  requests (world r') = requests (world r) ++ [PutStatus true; PutStatus false]
  /\ queue (client (world r')) = queue (client (world r)).
Proof.
  intros r r'.
  destruct (start_then_stop Demo.online r eq_refl) as (H1 & H2 & _).
  split; [exact H1 | exact H2].
Defined.

Lemma clearPollTimer_inactive (t : option PollTimer) (w : World) (rate : Z) :
  pollActive (mkRuntime w rate (clearPollTimer t)) = false.
Proof. destruct t; reflexivity. Qed.

(** X21.  [setMessageCallback] with null on a client whose message check
    is scheduled removes the callback and leaves the timer scheduled: the
    next tick still asks the server for messages, with the configured
    limit, and delivers none of them. *)
Theorem clearing_callback_keeps_polling :
  forall (P : Platform) (r : Runtime),
    pollActive r = true ->
    let r' := snd (setMessageCallback Falsy P r) in
    fst (setMessageCallback Falsy P r) = Normal tt
    /\ callback (client (world r')) = false
    /\ pollActive r' = true
    /\ requests (world (pollTick P r'))
       = requests (world r) ++ [GetCheckMessages (checkMsgLimit (client (world r)))]
    /\ delivered (world (pollTick P r')) = delivered (world r).
Proof.
  intros P r Hp r'. subst r'.
  set (w0 := exec (modify (set_callback false)) P (world r)).
  assert (Hr' : snd (setMessageCallback Falsy P r) = with_world w0 r).
  { cbn [setMessageCallback snd]. rewrite andb_false_r. reflexivity. }
  rewrite Hr'. split; [reflexivity |]. split; [reflexivity |].
  split; [exact Hp |].
  unfold pollTick. cbn [world with_world].
  destruct (checkMessages_run_frame P w0 (Some (checkMsgLimit (client w0))))
    as (w' & Hrun & Hreq & _ & _ & Hquiet & _).
  unfold run in Hrun.
  change (exec (checkMessages (Some (checkMsgLimit (client w0)))) P w0)
    with (snd (checkMessages (Some (checkMsgLimit (client w0))) P w0)).
  rewrite Hrun. cbn [snd].
  rewrite Hreq, (Hquiet eq_refl). split; reflexivity.
Qed.

Lemma clearing_callback_keeps_polling_witness :
  let r := lifecycleSteps [DoSetMessageCallback Handler; DoStart] Demo.online
             (initialRuntime defaultConfig 3000) in
  let r' := snd (setMessageCallback Falsy Demo.online r) in
  pollActive r' = true
  /\ delivered (world (pollTick Demo.online r')) = delivered (world r).
Proof.
  intros r r'.
  destruct (clearing_callback_keeps_polling Demo.online r eq_refl)
    as (_ & _ & H1 & _ & H2).
  split; [exact H1 | exact H2].
Defined.

(** X22.  [setMessageCheckRate] records the rate and touches nothing
    else of the client.  On a running client with a callback it
    reschedules the message check: with a positive rate the check runs
    at that rate, with zero or a negative rate it no longer runs.
    Otherwise the timer is left as it was. *)
Theorem setMessageCheckRate_reschedules :
  forall (rateMs : Z) (r : Runtime),
    let r' := setMessageCheckRate rateMs r in
    world r' = world r
    /\ checkMsgRate r' = rateMs
    /\ (_isRunning (client (world r)) && callback (client (world r)) = true ->
        pollActive r' = (0 <? rateMs)
        /\ (0 < rateMs ->
            messageCheckInterval r' = Some (mkPollTimer rateMs false)))
    /\ (_isRunning (client (world r)) && callback (client (world r)) = false ->
        messageCheckInterval r' = messageCheckInterval r).
Proof.
  intros rateMs r r'. subst r'. unfold setMessageCheckRate. cbv zeta.
  cbn [world].
  destruct (_isRunning (client (world r)) && callback (client (world r))) eqn:E.
  - apply andb_true_iff in E as [_ Hcb].
    unfold startMessageChecking. cbn [world checkMsgRate messageCheckInterval].
    rewrite Hcb. cbn [andb].
    destruct (0 <? rateMs) eqn:Hrate.
    + repeat split; try discriminate.
    + cbn [world checkMsgRate]. repeat split; try discriminate.
      * apply clearPollTimer_inactive.
      * apply Z.ltb_ge in Hrate. lia.
  - repeat split; discriminate.
Qed.

Lemma setMessageCheckRate_reschedules_witness :
  let r := lifecycleSteps [DoSetMessageCallback Handler; DoStart] Demo.online
             (initialRuntime defaultConfig 3000) in
  pollActive r = true
  /\ pollActive (setMessageCheckRate 0 r) = false
  /\ messageCheckInterval (setMessageCheckRate 500 r)
     = Some (mkPollTimer 500 false).
Proof.
  intros r.
  destruct (setMessageCheckRate_reschedules 0 r) as (_ & _ & H0 & _).
  destruct (setMessageCheckRate_reschedules 500 r) as (_ & _ & H5 & _).
  split; [reflexivity |].
  split; [exact (proj1 (H0 eq_refl)) | exact (proj2 (H5 eq_refl) eq_refl)].
Defined.


(** ** Replay on a healthy connection *)

Lemma mentioned_id (x : OfflineRecord) (l : list OfflineRecord) :
  In x l -> existsb (String.eqb (id x)) (map id l) = true.
Proof.
  intros H. apply existsb_exists. exists (id x).
  split; [now apply in_map | apply String.eqb_refl].
Qed.

Lemma filter_length_le {A : Type} (f : A -> bool) (l : list A) :
  (List.length (filter f l) <= List.length l)%nat.
Proof.
  induction l as [| x l IH]; cbn; [lia |]. destruct (f x); cbn; lia.
Qed.

(** Deleting the ids of a page removes at least as many records that
    were live at an earlier time as the page has. *)
Lemma page_deleted_count (t0 t : Z) (ids : list string) (l : list OfflineRecord) :
  t0 <= t ->
  forall n : nat,
    (forall x, In x (firstn n (filter (live t) l)) ->
               existsb (String.eqb (id x)) ids = true) ->
    (List.length (filter (live t0) (delete_ids ids l))
     + List.length (firstn n (filter (live t) l))
     <= List.length (filter (live t0) l))%nat.
Proof.
  intros Ht. unfold delete_ids.
  induction l as [| x l IH]; intros n Hids; [destruct n; cbn; lia |].
  cbn [filter] in Hids |- *.
  destruct (live t x) eqn:Hl.
  - rewrite (live_earlier t0 t x Ht Hl).
    destruct n as [| n].
    + cbn [firstn List.length].
      specialize (IH 0%nat ltac:(intros y [])). cbn [firstn List.length] in IH.
      destruct (negb _); cbn [filter List.length];
        rewrite ?(live_earlier t0 t x Ht Hl); cbn [List.length]; lia.
    + cbn [firstn List.length] in Hids |- *.
      rewrite (Hids x (or_introl eq_refl)). cbn [negb].
      specialize (IH n ltac:(intros y Hy; apply Hids; now right)). lia.
  - specialize (IH n Hids).
    destruct (negb _); cbn [filter]; destruct (live t0 x); cbn [List.length]; lia.
Qed.

Lemma Forall_delete_ids (Q : OfflineRecord -> Prop) ids l :
  Forall Q l -> Forall Q (delete_ids ids l).
Proof.
  intros H. apply Forall_forall. intros x Hx.
  apply filter_In in Hx as [Hx _]. revert x Hx. now apply Forall_forall.
Qed.

Lemma filter_all {A : Type} (f : A -> bool) (l : list A) :
  Forall (fun x => f x = true) l -> filter f l = l.
Proof.
  induction 1 as [| x l Hx _ IH]; cbn; [reflexivity |]. now rewrite Hx, IH.
Qed.

Lemma nothing_live_later (P : Platform) (t : Z) (k : nat) (l : list OfflineRecord) :
  t <= Date_now P k ->
  filter (live t) l = [] -> filter (live (Date_now P k)) l = [].
Proof.
  intros Ht H. induction l as [| x l IH]; [reflexivity |].
  cbn [filter] in H |- *. destruct (live t x) eqn:Hl; [discriminate |].
  destruct (live (Date_now P k) x) eqn:Hk.
  - rewrite (live_earlier t _ x Ht Hk) in Hl. discriminate.
  - now apply IH.
Qed.

Lemma replayLoop_drains (P : Platform) (t0 : Z) :
  clockMonotone P -> acceptsBatches P ->
  forall (fuel : nat) (totalCount processed : Z) (w : World),
    Forall (fun r => parses P r = true) (db w) ->
    t0 <= Date_now P (clock_reads w) ->
    Z.of_nat (List.length (filter (live t0) (db w))) + processed <= totalCount ->
    totalCount - processed <= Z.of_nat fuel ->
    let w' := snd (replayLoop fuel totalCount processed P w) in
    (forall k : nat, (clock_reads w' <= k)%nat ->
                     filter (live (Date_now P k)) (db w') = [])
    /\ exists R, requests w' = requests w ++ R
                 /\ forallb isReplayBatch R = true.
Proof.
  intros Hmono Hacc.
  assert (Hdone : forall fuel totalCount processed w,
            t0 <= Date_now P (clock_reads w) ->
            Z.of_nat (List.length (filter (live t0) (db w))) + processed
            <= totalCount ->
            totalCount <= processed ->
            let w' := snd (replayLoop fuel totalCount processed P w) in
            (forall k : nat, (clock_reads w' <= k)%nat ->
                             filter (live (Date_now P k)) (db w') = [])
            /\ exists R, requests w' = requests w ++ R
                         /\ forallb isReplayBatch R = true).
  { intros fuel totalCount processed w Ht Hcount Hge.
    rewrite replayLoop_done by exact Hge. cbn [snd]. split.
    - intros k Hk. apply (nothing_live_later P t0).
      + etransitivity; [exact Ht | apply Hmono, Hk].
      + destruct (filter (live t0) (db w)); [reflexivity | cbn [List.length] in Hcount; lia].
    - exists []. split; [now rewrite app_nil_r | reflexivity]. }
  induction fuel as [| fuel IH]; intros totalCount processed w Hsound Ht Hcount Hfuel.
  - apply Hdone; [assumption | assumption | lia].
  - destruct (Z.lt_ge_cases processed totalCount) as [Hlt | Hge];
      [| now apply Hdone].
    destruct (replayPage (Date_now P (clock_reads w)) (db w)) eqn:Ep.
    + rewrite replayLoop_empty_page by assumption. cbn [snd]. split.
      * intros k Hk. cbn [afterClock clock_reads db] in Hk |- *.
        apply (nothing_live_later P (Date_now P (clock_reads w)));
          [apply Hmono; lia |].
        unfold replayPage in Ep.
        destruct (filter (live (Date_now P (clock_reads w))) (db w));
          [reflexivity | discriminate].
      * exists []. split; [cbn; now rewrite app_nil_r | reflexivity].
    + assert (Hne : replayPage (Date_now P (clock_reads w)) (db w) <> [])
        by (rewrite Ep; discriminate).
      destruct (replayLoop_iteration P fuel totalCount processed w Hlt Hne)
        as [Hlen Hrun].
      clear Ep.
      set (page := replayPage (Date_now P (clock_reads w)) (db w)) in *.
      set (ms := pageMessages P page (afterClock w)) in *.
      assert (Hall : filter (parses P) page = page).
      { apply filter_all, Forall_forall. intros x Hx.
        apply In_firstn, filter_In in Hx as [Hx _].
        revert x Hx. now apply Forall_forall. }
      rewrite Hall in Hlen.
      assert (Hpos : (1 <= List.length ms <= 50)%nat).
      { rewrite Hlen. split.
        - destruct page; [contradiction | cbn; lia].
        - unfold page, replayPage. apply firstn_le_length. }
      rewrite Hrun, has_items_length.
      replace (Nat.eqb (List.length ms) 0) with false
        by (symmetry; apply Nat.eqb_neq; lia).
      cbn [negb]. rewrite Hacc.
      pose proof (page_deleted_count t0 (Date_now P (clock_reads w))
                    (map id page) (db w) Ht 50
                    (fun x Hx => mentioned_id x page Hx)) as Hdel.
      fold (replayPage (Date_now P (clock_reads w)) (db w)) in Hdel.
      fold page in Hdel.
      destruct (IH totalCount (processed + Z.of_nat (List.length ms))
                  (with_db (delete_ids (map id page) (db w))
                     (afterRequest (PostMessages ms)
                        (afterClocks (List.length ms) (afterClock w)))))
        as [Hdrained (R & HR & Hbatches)].
      * cbn [with_db db]. now apply Forall_delete_ids.
      * cbn [with_db afterRequest afterClocks afterClock clock_reads].
        etransitivity; [exact Ht | apply Hmono; lia].
      * cbn [with_db db]. lia.
      * lia.
      * split; [exact Hdrained |].
        exists (PostMessages ms :: R). split.
        -- rewrite HR. cbn [with_db afterRequest afterClocks afterClock requests].
           now rewrite <- app_assoc.
        -- cbn [forallb isReplayBatch]. rewrite Hbatches, andb_true_r.
           apply andb_true_iff. split; [apply Nat.leb_le | apply Nat.leb_le]; lia.
Qed.

(** X23.  Replay on a healthy connection empties the store.  When the
    clock does not run backwards, every stored record parses and the
    server accepts every batch, [processOfflineMessages] leaves no record
    that is still live at any later reading of the clock, and all it
    sends are batches of 1 to 50 messages. *)
Theorem replay_drains_store :
  forall (P : Platform) (w : World),
    storage (client w) = true ->
    clockMonotone P -> acceptsBatches P ->
    Forall (fun r => parses P r = true) (db w) ->
    let w' := exec processOfflineMessages P w in
    (forall k : nat, (clock_reads w' <= k)%nat ->
                     filter (live (Date_now P k)) (db w') = [])
    /\ exists R, requests w' = requests w ++ R
                 /\ forallb isReplayBatch R = true.
Proof.
  intros P w Hs Hmono Hacc Hsound w'. subst w'.
  rewrite processOfflineMessages_exec by exact Hs.
  destruct (_ =? 0) eqn:E0.
  - split.
    + intros k Hk. cbn [afterClock clock_reads db] in Hk |- *.
      apply (nothing_live_later P (Date_now P (clock_reads w)));
        [apply Hmono; lia |].
      apply Z.eqb_eq in E0.
      destruct (filter _ (db w)); [reflexivity | cbn [List.length] in E0; lia].
    + exists []. split; [cbn; now rewrite app_nil_r | reflexivity].
  - apply Z.eqb_neq in E0.
    destruct (replayLoop_drains P (Date_now P (clock_reads w)) Hmono Hacc
                (Z.to_nat (Z.of_nat (List.length
                   (filter (live (Date_now P (clock_reads w))) (db w)))))
                (Z.of_nat (List.length
                   (filter (live (Date_now P (clock_reads w))) (db w))))
                0 (afterClock w))
      as [Hdrained (R & HR & Hbatches)].
    + exact Hsound.
    + cbn [afterClock clock_reads]. apply Hmono. lia.
    + cbn [afterClock db]. lia.
    + lia.
    + split; [exact Hdrained |]. exists R. split; [exact HR | exact Hbatches].
Qed.

Lemma replay_drains_store_witness :
  let w := Demo.worldWithStore [Demo.soundRecord; Demo.soundRecord] in
  let w' := exec processOfflineMessages Demo.online w in
  db w <> []
  /\ (forall k : nat, (clock_reads w' <= k)%nat ->
                      filter (live (Date_now Demo.online k)) (db w') = [])
  /\ exists R, requests w' = requests w ++ R
               /\ forallb isReplayBatch R = true.
Proof.
  intros w w'. split; [discriminate |].
  refine (replay_drains_store Demo.online w eq_refl _ _ _).
  - intros i j Hij. unfold Demo.online, Demo.platformWith. cbn [Date_now]. lia.
  - intros n ms. reflexivity.
  - assert (Hp : parses Demo.online Demo.soundRecord = true)
      by (vm_compute; reflexivity).
    unfold w, Demo.worldWithStore. cbn [db].
    constructor; [exact Hp |]. constructor; [exact Hp | constructor].
Defined.


(** ** The cooldown of the connection check and the sender tick *)

(** A tick that finds the cooldown over calls [checkConnectionState],
    which restarts the cooldown at its own reading of the clock, and then
    puts [_lastConnectionCheck] back to the reading the tick took before
    the call.  A later call probes again as soon as 30 s have gone by
    since the reading of the tick, whatever the time of the probe. *)
Lemma senderTick_rewinds_cooldown (P : Platform) (w : World) :
  queue (client w) = [] -> storage (client w) = false ->
  _lastConnectionCheck (client w) + 30000 <= Date_now P (clock_reads w) ->
  _lastConnectionCheck (client w) + 30000 <= Date_now P (S (clock_reads w)) ->
  let w1 := exec senderTick P w in
  requests w1 = requests w ++ [HeadStatus]
  /\ clock_reads w1 = S (S (clock_reads w))
  /\ _lastConnectionCheck (client w1) = Date_now P (clock_reads w)
  /\ (Date_now P (clock_reads w) + 30000 <= Date_now P (S (S (clock_reads w))) ->
      requests (exec checkConnectionState P w1)
      = requests w ++ [HeadStatus; HeadStatus]).
Proof.
  intros Hq Hs Htick Hcall w1.
  assert (Hw1 : w1
                = with_client
                    (set_lastConnectionCheck (Date_now P (clock_reads w))
                       (client (afterProbe (Date_now P (S (clock_reads w)))
                                  match fetch_result P (List.length (requests w))
                                          HeadStatus with
                                  | Response status _ => status <? 500
                                  | NetworkFailure | Timeout => false
                                  end (afterClock w))))
                    (afterProbe (Date_now P (S (clock_reads w)))
                       match fetch_result P (List.length (requests w))
                               HeadStatus with
                       | Response status _ => status <? 500
                       | NetworkFailure | Timeout => false
                       end (afterClock w))).
  { subst w1. unfold exec. rewrite senderTick_phases.
    unfold bind at 1, now. cbn [fst snd]. unfold bind at 1, getClient.
    cbn [fst snd client]. unfold bind at 1.
    replace (_ <=? _) with true by lia. cbv zeta.
    unfold bind at 1.
    pose proof (checkConnectionState_probes P (afterClock w) Hcall _ eq_refl) as Hr.
    unfold run in Hr. fold (afterClock w). rewrite Hr. clear Hr.
    unfold bind at 1, modify. cbn [fst snd]. unfold bind at 1. cbn [fst snd].
    match goal with
    | |- context [andb _ (storage ?c)] =>
        replace (storage c) with false by (symmetry; exact Hs)
    end.
    rewrite andb_false_r. unfold ret at 1. cbn [fst snd].
    rewrite (tickAfterConnection_run P (Date_now P (clock_reads w)));
      [| left; cbn; exact Hs].
    cbn [snd client queue with_client afterProbe set_lastConnectionCheck
         set_connectionState].
    change (queue (client (afterClock w))) with (queue (client w)).
    rewrite Hq. reflexivity. }
  rewrite Hw1. repeat split.
  intros Hnext. unfold exec.
  pose proof (checkConnectionState_probes P w1) as Hr. rewrite Hw1 in Hr.
  unfold run in Hr.
  rewrite (Hr Hnext _ eq_refl). cbn. now rewrite <- app_assoc.
Qed.

(** C8.  The cooldown does not hold across the sender tick.  On a clock
    that reads [t], [t + 100] and [t + 30050], a tick of the sender on a
    fresh client probes at [t + 100] -- the call of [checkConnectionState]
    leaves [_lastConnectionCheck = t + 100] -- and then sets
    [_lastConnectionCheck] back to its own earlier reading [t]; the next
    call of [checkConnectionState], at [t + 30050], probes again, 29 950 ms
    after the last probe.  The same two calls without the tick in between
    issue one probe. *)
Theorem sender_tick_restarts_cooldown_early :
  let P := lateSecondReading in
  let w0 := initialWorld defaultConfig in
  let w1 := step SenderTick P w0 in
  let w2 := step CallCheckConnectionState P w1 in
  _connectionState (client w0) = true
  /\ requests w1 = [HeadStatus]
  /\ clock_reads w1 = 2%nat
  /\ _lastConnectionCheck (client (exec checkConnectionState P (afterClock w0)))
     = Date_now P 1
  /\ _lastConnectionCheck (client w1) = Date_now P 0
  /\ requests w2 = [HeadStatus; HeadStatus]
  /\ Date_now P 2 - Date_now P 1 = 29950
  /\ requests (steps [CallCheckConnectionState; CallCheckConnectionState] P
                (afterClock w0))
     = [HeadStatus].
Proof. vm_compute. repeat split. Qed.


(** ** The round trip through the offline store *)














